(** * Doctor appointment system: the client data layer

    A shallow embedding of the TypeScript sources of the client data layer
    (response normalizers, retry policies, session store, UI store and the
    optimistic appointment-status mutation) together with the properties
    proved about them.

    The file has three parts: the embedding (one module per source file),
    the vocabulary of the statements, and the theorems. *)

From Stdlib Require Import ZArith Floats Uint63.
From stdpp Require Import gmap strings list fin_maps pretty.

Set Warnings "-register-all".

(* ================================================================== *)
(** * Part I: the embedding *)
(* ================================================================== *)

(** ** The JavaScript values the program handles

    Payloads are typed [any] in the sources, so they are embedded as
    untyped JavaScript values.  Numbers are IEEE-754 doubles (Rocq's
    primitive floats); objects are finite maps from property names to
    values, so that Leibniz equality of values is deep equality. *)
Module Js.

Inductive value : Type :=
| Undefined
| Null
| Bool (b : bool)
| Num (n : float)
| Str (s : string)
| Arr (items : list value)
| Obj (fields : gmap string value).

(** The classes of the exceptions the program throws or inspects with
    [instanceof]: the built-in [TypeError] and [Error], and the classes of
    [lib/error-handling.ts]. *)
Inductive error_class : Type :=
| TypeError
| Error
| AppError
| ValidationAppError
| NetworkError
| AuthenticationError
| AuthorizationError.

(** A thrown value: any value, tagged with its class when it is an
    instance of one ([thrown_value] then holds its own properties). *)
Record thrown : Type := Thrown {
  thrown_class : option error_class;
  thrown_value : value
}.

(** The outcome of evaluating an expression or awaiting a promise. *)
Inductive completion (A : Type) : Type :=
| Normal (a : A)
| Throw (e : thrown).
Arguments Normal {A} a.
Arguments Throw {A} e.

#[export] Instance completion_ret : MRet completion := @Normal.
#[export] Instance completion_bind : MBind completion :=
  λ A B f m, match m with Normal a => f a | Throw e => Throw e end.
#[export] Instance completion_fmap : FMap completion :=
  λ A B f m, match m with Normal a => Normal (f a) | Throw e => Throw e end.

Definition throw_TypeError {A} : completion A :=
  Throw (Thrown (Some TypeError) (Obj ∅)).

(** What is left abstract of the language: the two conversion algorithms
    [Number::toString] and [StringToNumber], and the text of the message
    of the [TypeError] the engine throws when a conversion fails.  Every
    theorem holds for any implementation of them. *)
Class Runtime : Type := {
  NumberToString : float → string;
  StringToNumber : string → float;
  ConversionErrorMessage : string
}.

(** The [TypeError] of a conversion that fails, with its own [message]. *)
Definition conversion_TypeError `{Runtime} : thrown :=
  Thrown (Some TypeError) (Obj (<["message" := Str ConversionErrorMessage]> ∅)).

Definition throw_conversion_TypeError `{Runtime} {A} : completion A :=
  Throw conversion_TypeError.

(** [ToBoolean]: truthiness. *)
Definition ToBoolean (v : value) : bool :=
  match v with
  | Undefined | Null => false
  | Bool b => b
  | Num n => negb (PrimFloat.is_zero n || PrimFloat.is_nan n)
  | Str s => negb (bool_decide (s = ""))
  | Arr _ | Obj _ => true
  end.

(** [a || b]. *)
Definition or_else (a b : value) : value := if ToBoolean a then a else b.

(** [ToString] on the values above.  An array joins its elements with a
    comma, from left to right, [null] and [undefined] elements giving the
    empty string.  An object is converted by its [toString]: the method
    it inherits gives ["[object Object]"]; an own property [toString]
    hides that method and, holding one of the values above, cannot be
    called, and neither can what [valueOf] gives be used ([valueOf] is
    then an own property that cannot be called, or the inherited method,
    which returns the object): the conversion throws a [TypeError]. *)
Fixpoint ToString `{Runtime} (v : value) : completion string :=
  match v with
  | Undefined => mret "undefined"
  | Null => mret "null"
  | Bool true => mret "true"
  | Bool false => mret "false"
  | Num n => mret (NumberToString n)
  | Str s => mret s
  | Arr items =>
      String.concat "," <$>
        ((fix join (l : list value) : completion (list string) :=
            match l with
            | [] => mret []
            | x :: l' =>
                s ← match x with
                    | Undefined | Null => mret ""
                    | _ => ToString x
                    end;
                rest ← join l';
                mret (s :: rest)
            end) items)
  | Obj fields =>
      if bool_decide (is_Some (fields !! "toString"))
      then throw_conversion_TypeError
      else mret "[object Object]"
  end.

(** [ToNumber]: arrays and objects go through their string form (their
    [valueOf] gives no primitive value), and fail when it fails. *)
Definition ToNumber `{Runtime} (v : value) : completion float :=
  match v with
  | Undefined => mret PrimFloat.nan
  | Null => mret 0%float
  | Bool true => mret 1%float
  | Bool false => mret 0%float
  | Num n => mret n
  | Str s => mret (StringToNumber s)
  | Arr _ | Obj _ => StringToNumber <$> ToString v
  end.

(** [String(v)] and [Number(v)] called as functions. *)
Definition String_ `{Runtime} (v : value) : completion string := ToString v.
Definition Number_ `{Runtime} (v : value) : completion float := ToNumber v.

(** [v.k] for the property names the program reads.  Reading a property
    of [undefined] or [null] throws a [TypeError]; an object yields its own
    property or [undefined]; primitives and arrays yield [undefined] (no
    name the program reads is [length], an index or a prototype method). *)
Definition get (v : value) (k : string) : completion value :=
  match v with
  | Undefined | Null => throw_TypeError
  | Obj fields => Normal (default Undefined (fields !! k))
  | _ => Normal Undefined
  end.

(** [v == null]: [v] is [undefined] or [null]. *)
Definition nullish (v : value) : bool :=
  match v with Undefined | Null => true | _ => false end.

(** [v?.k]: optional chaining. *)
Definition get_opt (v : value) (k : string) : value :=
  match v with
  | Obj fields => default Undefined (fields !! k)
  | _ => Undefined
  end.

(** [v === 'literal']. *)
Definition strict_eq_string (v : value) (s : string) : bool :=
  match v with
  | Str s' => bool_decide (s' = s)
  | _ => false
  end.

(** [Array.isArray(v)]. *)
Definition Array_isArray (v : value) : bool :=
  match v with Arr _ => true | _ => false end.

(** [typeof v === 'object']. *)
Definition typeof_object (v : value) : bool :=
  match v with Null | Arr _ | Obj _ => true | _ => false end.

(** ['k' in v] for an object or array [v] and a property name the program
    tests (arrays have none of them). *)
Definition has_property (k : string) (v : value) : bool :=
  match v with
  | Obj fields => bool_decide (is_Some (fields !! k))
  | _ => false
  end.

(** [v.map(f)]: a [TypeError] unless [v] is an array. *)
Definition Array_map (f : value → completion value) (v : value)
  : completion value :=
  match v with
  | Arr items => Arr <$> mapM f items
  | _ => throw_TypeError
  end.

(** An object literal [{k1: v1, ..., kn: vn}]. *)
Definition object (l : list (string * value)) : value := Obj (list_to_map l).

(** The own properties copied by a spread [{...v}] of an object; the
    program only spreads objects (and [undefined], which copies nothing). *)
Definition spread (v : value) : gmap string value :=
  match v with Obj fields => fields | _ => ∅ end.

(** Conversion of a non-negative integer below 2^63 to a double. *)
Definition float_of_Z (z : Z) : float := PrimFloat.of_uint63 (Uint63.of_Z z).

(** [Math.ceil]: the least integer not below [x]; NaN, the infinities,
    the zeros and integers are returned as they are, and a negative
    fraction above -1 gives -0. *)
Definition Math_ceil (x : float) : float :=
  match Prim2SF x with
  | S754_finite s m e =>
      if (0 <=? e)%Z then x
      else
        let d := (2 ^ (- e))%Z in
        let q := (Z.pos m / d)%Z in
        let r := (Z.pos m mod d)%Z in
        if s then PrimFloat.opp (float_of_Z q)
        else float_of_Z (if (r =? 0)%Z then q else q + 1)
  | _ => x
  end.

(** [a / b]: both operands go through [ToNumber], the left one first. *)
Definition div `{Runtime} (a b : value) : completion float :=
  x ← ToNumber a;
  y ← ToNumber b;
  mret (PrimFloat.div x y).

(** [v !== false]. *)
Definition strict_neq_false (v : value) : bool :=
  match v with Bool false => false | _ => true end.

(** [typeof v === 'string']. *)
Definition typeof_string (v : value) : bool :=
  match v with Str _ => true | _ => false end.

(** [n || c] on numbers: [c] when [n] is zero or NaN. *)
Definition or_number (n c : float) : float :=
  if PrimFloat.is_zero n || PrimFloat.is_nan n then c else n.

(** [s.includes(sub)] on strings. *)
Fixpoint includes (sub s : string) : bool :=
  String.prefix sub s ||
  match s with
  | EmptyString => false
  | String _ s' => includes sub s'
  end.

(** [s.split(sep)] for a separator of one character: the pieces between
    the separators, so one more piece than there are separators. *)
Fixpoint split (sep : Ascii.ascii) (s : string) : list string :=
  match s with
  | EmptyString => [EmptyString]
  | String c s' =>
      if bool_decide (c = sep) then EmptyString :: split sep s'
      else match split sep s' with
           | piece :: pieces => String c piece :: pieces
           | [] => [String c EmptyString]
           end
  end.

(** The character ['.']. *)
Definition dot : Ascii.ascii := Ascii.ascii_of_nat 46.

(** The characters of a string, as the strings of one character that
    indexing and iterating it give. *)
Definition characters (s : string) : list value :=
  map (λ c, Str (String c EmptyString)) (String.list_ascii_of_string s).

(** [[...v]]: an array gives its elements, a string its characters, and
    nothing else is iterable. *)
Definition iterate (v : value) : completion (list value) :=
  match v with
  | Arr items => mret items
  | Str s => mret (characters s)
  | _ => throw_TypeError
  end.

(** [{...v}] for any value: the own enumerable properties of an object,
    the elements of an array and the characters of a string under their
    indices, and nothing for the other values. *)
Definition spread_all (v : value) : gmap string value :=
  match v with
  | Obj fields => fields
  | Arr items => list_to_map (imap (λ i x, (pretty i, x)) items)
  | Str s => list_to_map (imap (λ i x, (pretty i, x)) (characters s))
  | _ => ∅
  end.

(** [ToPrimitive]: arrays and objects become their string form, or the
    conversion fails. *)
Definition ToPrimitive `{Runtime} (v : value) : completion value :=
  match v with
  | Arr _ | Obj _ => Str <$> ToString v
  | _ => mret v
  end.

(** [v + 1]: concatenation when [v] is, or becomes, a string; addition
    of numbers otherwise. *)
Definition plus_one `{Runtime} (v : value) : completion value :=
  p ← ToPrimitive v;
  match p with
  | Str s => mret (Str (s +:+ NumberToString 1))
  | _ => n ← ToNumber p; mret (Num (n + 1))
  end.

(** [a < b]: the operands are made primitive, the left one first; two
    strings are compared as strings, any other operands as numbers. *)
Definition less_than `{Runtime} (a b : value) : completion bool :=
  x ← ToPrimitive a;
  y ← ToPrimitive b;
  match x, y with
  | Str x, Str y => mret (String.ltb x y)
  | _, _ => n ← ToNumber x; m ← ToNumber y; mret (PrimFloat.ltb n m)
  end.

(** The names of the members of the standard prototypes (ECMAScript
    2024, with its Annex B): the methods, and [constructor] and
    [__proto__]. *)
Definition Object_prototype : list string :=
  ["constructor"; "hasOwnProperty"; "isPrototypeOf"; "propertyIsEnumerable";
   "toLocaleString"; "toString"; "valueOf"; "__proto__";
   "__defineGetter__"; "__defineSetter__"; "__lookupGetter__"; "__lookupSetter__"].

Definition Array_prototype : list string :=
  ["at"; "concat"; "copyWithin"; "entries"; "every"; "fill"; "filter"; "find";
   "findIndex"; "findLast"; "findLastIndex"; "flat"; "flatMap"; "forEach";
   "includes"; "indexOf"; "join"; "keys"; "lastIndexOf"; "map"; "pop"; "push";
   "reduce"; "reduceRight"; "reverse"; "shift"; "slice"; "some"; "sort";
   "splice"; "toReversed"; "toSorted"; "toSpliced"; "unshift"; "values"; "with"].

Definition String_prototype : list string :=
  ["at"; "charAt"; "charCodeAt"; "codePointAt"; "concat"; "endsWith"; "includes";
   "indexOf"; "isWellFormed"; "lastIndexOf"; "localeCompare"; "match"; "matchAll";
   "normalize"; "padEnd"; "padStart"; "repeat"; "replace"; "replaceAll"; "search";
   "slice"; "split"; "startsWith"; "substring"; "toLocaleLowerCase";
   "toLocaleUpperCase"; "toLowerCase"; "toUpperCase"; "toWellFormed"; "trim";
   "trimEnd"; "trimStart"; "substr"; "anchor"; "big"; "blink"; "bold"; "fixed";
   "fontcolor"; "fontsize"; "italics"; "link"; "small"; "strike"; "sub"; "sup";
   "trimLeft"; "trimRight"].

Definition Number_prototype : list string :=
  ["toExponential"; "toFixed"; "toPrecision"].

(** The natural number a property name is the index of: its decimal
    digits, without a sign and without leading zeros. *)
Fixpoint decimal (s : string) (acc : nat) : option nat :=
  match s with
  | EmptyString => Some acc
  | String c s' =>
      let n := Ascii.nat_of_ascii c in
      if (48 <=? n) && (n <=? 57)
      then decimal s' (acc * 10 + (n - 48))
      else None
  end.

Definition index_of_key (key : string) : option nat :=
  n ← decimal key 0;
  if bool_decide (pretty n = key) then Some n else None.

(** [v[key]] where [v] has members other than its own properties: the
    element or character at an index ([undefined] past the end), the
    [length], and [undefined] for a name that is not a member of the
    prototypes of [v].  A member of a prototype is [None]: a function,
    or [Object.prototype] itself, which are none of the values above. *)
Definition index_in (elements : list value) (prototype : list string)
    (key : string) : option value :=
  match index_of_key key with
  | Some i => Some (default Undefined (elements !! i))
  | None =>
      if bool_decide (key = "length")
      then Some (Num (float_of_Z (Z.of_nat (length elements))))
      else if bool_decide (key ∈ prototype ++ Object_prototype) then None
      else Some Undefined
  end.

(** [v[key]] for any property name.  An object gives its own property,
    or what it inherits; numbers and booleans have no member but those
    of their prototypes.  Reading a member of [undefined] or [null]
    throws, which [None] stands for too: the only caller, [safeGet],
    reads the members of truthy values. *)
Definition index (v : value) (key : string) : option value :=
  match v with
  | Obj fields =>
      match fields !! key with
      | Some x => Some x
      | None => if bool_decide (key ∈ Object_prototype) then None else Some Undefined
      end
  | Arr items => index_in items Array_prototype key
  | Str s => index_in (characters s) String_prototype key
  | Num _ => if bool_decide (key ∈ Number_prototype ++ Object_prototype)
             then None else Some Undefined
  | Bool _ => if bool_decide (key ∈ Object_prototype) then None else Some Undefined
  | Undefined | Null => None
  end.

End Js.

(** ** [src/lib/response-transformers.ts] *)
Module ResponseTransformers.
Import Js.

Section WithRuntime.
Context `{Runtime}.

(** [cond ? String(v) : undefined]. *)
Definition String_if (cond : bool) (v : value) : completion value :=
  if cond then Str <$> String_ v else mret Undefined.

(** [transformUser]: the properties of the object literal, evaluated in
    order. *)
Definition transformUser (user : value) : completion value :=
  id ← get user "id";
  id' ← String_ id;
  name ← get user "name";
  name' ← String_ (or_else name (Str ""));
  email ← get user "email";
  email' ← String_ (or_else email (Str ""));
  role ← get user "role";
  photo_url ← get user "photo_url";
  photo_url' ← String_if (ToBoolean photo_url) photo_url;
  mret (object [
    ("id", Str id');
    ("name", Str name');
    ("email", Str email');
    ("role", Str (if strict_eq_string role "DOCTOR" then "DOCTOR" else "PATIENT"));
    ("photo_url", photo_url')
  ]).

(** [transformDoctor]: [{...baseUser, role: 'DOCTOR', specialization}]. *)
Definition transformDoctor (doctor : value) : completion value :=
  baseUser ← transformUser doctor;
  specialization ← get doctor "specialization";
  specialization' ← String_ (or_else specialization (Str ""));
  mret (Obj (<["specialization" := Str specialization']>
            (<["role" := Str "DOCTOR"]> (spread baseUser)))).

(** [transformPatient]: [{...baseUser, role: 'PATIENT'}]. *)
Definition transformPatient (patient : value) : completion value :=
  baseUser ← transformUser patient;
  mret (Obj (<["role" := Str "PATIENT"]> (spread baseUser))).

(** [transformAppointment].  [now_created] and [now_updated] are the
    results of the two [new Date().toISOString()] calls, read when the
    timestamps are missing. *)
Definition transformAppointment (now_created now_updated : string)
    (appointment : value) : completion value :=
  id ← get appointment "id";
  id' ← String_ id;
  doctorId ← get appointment "doctorId";
  doctor_id ← get appointment "doctor_id";
  doctorId' ← String_ (or_else doctorId doctor_id);
  patientId ← get appointment "patientId";
  patient_id ← get appointment "patient_id";
  patientId' ← String_ (or_else patientId patient_id);
  date ← get appointment "date";
  date' ← String_ date;
  status ← get appointment "status";
  doctor ← get appointment "doctor";
  doctor' ← (if ToBoolean doctor then transformDoctor doctor else mret Undefined);
  patient ← get appointment "patient";
  patient' ← (if ToBoolean patient then transformPatient patient else mret Undefined);
  createdAt ← get appointment "createdAt";
  created_at ← get appointment "created_at";
  createdAt' ← String_ (or_else createdAt (or_else created_at (Str now_created)));
  updatedAt ← get appointment "updatedAt";
  updated_at ← get appointment "updated_at";
  updatedAt' ← String_ (or_else updatedAt (or_else updated_at (Str now_updated)));
  mret (object [
    ("id", Str id');
    ("doctorId", Str doctorId');
    ("patientId", Str patientId');
    ("date", Str date');
    ("status", Str (if strict_eq_string status "COMPLETED" then "COMPLETED"
                    else if strict_eq_string status "CANCELLED" then "CANCELLED"
                    else "PENDING"));
    ("doctor", doctor');
    ("patient", patient');
    ("createdAt", Str createdAt');
    ("updatedAt", Str updatedAt')
  ]).

(** [transformPaginatedResponse].  The fallback of [totalPages] is
    computed only when [pagination.totalPages] is falsy. *)
Definition transformPaginatedResponse (response : value)
    (itemTransformer : value → completion value) : completion value :=
  response_data ← get response "data";
  let data := if Array_isArray response_data then response_data else Arr [] in
  response_pagination ← get response "pagination";
  let pagination := or_else response_pagination (Obj ∅) in
  items ← Array_map itemTransformer data;
  page ← get pagination "page";
  page' ← Number_ (or_else page (Num 1));
  limit ← get pagination "limit";
  limit' ← Number_ (or_else limit (Num 10));
  total ← get pagination "total";
  total' ← Number_ (or_else total (Num 0));
  totalPages ← get pagination "totalPages";
  totalPages' ←
    (if ToBoolean totalPages then Number_ totalPages
     else
       total ← get pagination "total";
       limit ← get pagination "limit";
       pages ← div (or_else total (Num 0)) (or_else limit (Num 10));
       Number_ (Num (Math_ceil pages)));
  mret (object [
    ("data", items);
    ("pagination", object [
      ("page", Num page');
      ("limit", Num limit');
      ("total", Num total');
      ("totalPages", Num totalPages')
    ])
  ]).

(** [transformSpecialization]. *)
Definition transformSpecialization (specialization : value) : completion value :=
  id ← get specialization "id";
  id' ← String_ id;
  name ← get specialization "name";
  name' ← String_ (or_else name (Str ""));
  mret (object [
    ("id", Str id');
    ("name", Str name')
  ]).

(** [transformApiResponse]; [dataTransformer] is [None] when the optional
    argument is left out. *)
Definition transformApiResponse (response : value)
    (dataTransformer : option (value → completion value)) : completion value :=
  success ← get response "success";
  response_data ← get response "data";
  data ← match dataTransformer with
         | Some f => f response_data
         | None => mret response_data
         end;
  message ← get response "message";
  message' ← String_if (ToBoolean message) message;
  mret (object [
    ("success", Bool (strict_neq_false success));
    ("data", data);
    ("message", message')
  ]).

(** [transformArray]. *)
Definition transformArray (items : value) (transformer : value → completion value)
  : completion value :=
  if Array_isArray items then Array_map transformer items else mret (Arr []).

End WithRuntime.

(** [safeGet].  The callback of the [reduce]: [current[key]] is read
    when [current] is truthy.  The result is [None] when the walk reads a
    method of a prototype (or [Object.prototype]), which is not a value
    of this embedding. *)
Definition safeGet_step (defaultValue : value) (current : option value)
    (key : string) : option value :=
  c ← current;
  if ToBoolean c then
    x ← index c key;
    Some (match x with Undefined => defaultValue | _ => x end)
  else Some defaultValue.

(** [defaultValue] is [None] when the argument is left out; the default
    [null] also replaces an argument that is [undefined]. *)
Definition safeGet (obj : value) (path : string) (defaultValue : option value)
  : option value :=
  let d := match defaultValue with
           | None | Some Undefined => Null
           | Some d => d
           end in
  foldl (safeGet_step d) (Some obj) (split dot path).

End ResponseTransformers.

(** ** A runtime to run examples on

    A reference instance of [Js.Runtime], exact on the conversions the
    examples of this file use: integers of magnitude below 2^53 are
    printed in decimal, and the empty string and unsigned decimal
    literals below 2^53 are parsed.  Fractions and the other numeric
    literal forms are outside its domain (they give ["NaN"] and NaN). *)
Module RefRuntime.

Definition number_to_string (n : float) : string :=
  match Prim2SF n with
  | S754_nan => "NaN"
  | S754_infinity s => if s then "-Infinity" else "Infinity"
  | S754_zero _ => "0"
  | S754_finite s m e =>
      let sign := if s then "-" else "" in
      if (0 <=? e)%Z then sign +:+ pretty (Z.pos m * 2 ^ e)%Z
      else if (Z.pos m mod 2 ^ (- e) =? 0)%Z
           then sign +:+ pretty (Z.pos m / 2 ^ (- e))%Z
           else "NaN"
  end.

Fixpoint digits (s : string) (acc : N) : option N :=
  match s with
  | EmptyString => Some acc
  | String c s' =>
      let n := Ascii.N_of_ascii c in
      if ((48 <=? n) && (n <=? 57))%N
      then digits s' (acc * 10 + (n - 48))%N
      else None
  end.

Definition string_to_number (s : string) : float :=
  match digits s 0 with
  | Some n =>
      if (n <? 2 ^ 53)%N then Js.float_of_Z (Z.of_N n) else PrimFloat.nan
  | None => PrimFloat.nan
  end.

#[export] Instance runtime : Js.Runtime := {|
  Js.NumberToString := number_to_string;
  Js.StringToNumber := string_to_number;
  Js.ConversionErrorMessage := "Cannot convert object to primitive value"
|}.

End RefRuntime.

(** ** [src/lib/error-handling.ts] *)
Module ErrorHandling.
Import Js.

(** [c] is [d] or extends it: [AppError] and [TypeError] extend [Error],
    the four other classes extend [AppError]. *)
Definition extends (c d : error_class) : bool :=
  match d, c with
  | Error, _ => true
  | AppError, (AppError | ValidationAppError | NetworkError
               | AuthenticationError | AuthorizationError) => true
  | TypeError, TypeError => true
  | ValidationAppError, ValidationAppError => true
  | NetworkError, NetworkError => true
  | AuthenticationError, AuthenticationError => true
  | AuthorizationError, AuthorizationError => true
  | _, _ => false
  end.

(** [error instanceof C]. *)
Definition instanceof (error : thrown) (C : error_class) : bool :=
  match thrown_class error with
  | Some c => extends c C
  | None => false
  end.

(** [v === n] for a number literal [n]. *)
Definition strict_eq_number (v : value) (n : float) : bool :=
  match v with
  | Num x => PrimFloat.eqb x n
  | _ => false
  end.

(** [!!(error && typeof error === 'object' && 'status' in error &&
    error.status === n)]. *)
Definition status_is (error : thrown) (n : float) : bool :=
  let v := thrown_value error in
  ToBoolean v && typeof_object v && has_property "status" v
  && strict_eq_number (get_opt v "status") n.

Definition isAuthError (error : thrown) : bool :=
  if instanceof error AuthenticationError then true else status_is error 401.

Definition isAuthorizationError (error : thrown) : bool :=
  if instanceof error AuthorizationError then true else status_is error 403.

Definition isValidationError (error : thrown) : bool :=
  if instanceof error ValidationAppError then true else status_is error 400.

(** What a run of a retried operation leaves behind: its completion, how
    many times the operation was invoked, and the delays waited (the
    numbers handed to [setTimeout], in ms). *)
Record run (A : Type) : Type := Run {
  outcome : completion A;
  invocations : nat;
  delays : list float
}.
Arguments Run {A} _ _ _.
Arguments outcome {A} _.
Arguments invocations {A} _.
Arguments delays {A} _.

(** [Math.pow(2, attempt)] for the values the loop counter takes: the
    double 2^n, which is infinite from n = 1024 on. *)
Definition pow2 (n : nat) : float := Nat.iter n (PrimFloat.mul 2) 1%float.

(** [errorUtils.retry], from an iteration of its loop on.  [attempt] is
    the loop counter, a double, and [invoked] the number of invocations
    of [fn] made so far, which is the number of increments of the
    counter; [fn i] is the completion of the invocation of [fn] made
    when [i] invocations came before it.  When the test of the loop
    fails, [lastError] is thrown.  The result is [None] when the loop
    takes more than [fuel] iterations. *)
Fixpoint retry_from {A} (fn : nat → completion A) (maxRetries baseDelay : float)
    (attempt : float) (invoked : nat) (lastError : thrown)
    (waited : list float) (fuel : nat) : option (run A) :=
  match fuel with
  | 0 => None
  | S fuel' =>
      if PrimFloat.leb attempt maxRetries then
        match fn invoked with
        | Normal a => Some (Run (Normal a) (S invoked) waited)
        | Throw error =>
            if isAuthError error || isAuthorizationError error
            then Some (Run (Throw error) (S invoked) waited)
            else if isValidationError error
            then Some (Run (Throw error) (S invoked) waited)
            else if PrimFloat.eqb attempt maxRetries
            then Some (Run (Throw error) (S invoked) waited)
            else retry_from fn maxRetries baseDelay (attempt + 1)%float (S invoked)
                   error (waited ++ [(baseDelay * pow2 invoked)%float]) fuel'
        end
      else Some (Run (Throw lastError) invoked waited)
  end.

(** [lastError] is [undefined] before the first failure. *)
Definition retry {A} (fn : nat → completion A) (maxRetries baseDelay : float)
    (fuel : nat) : option (run A) :=
  retry_from fn maxRetries baseDelay 0%float 0 (Thrown None Undefined) [] fuel.

(** The constructors of the five classes.  An instance holds the own
    properties [message], [name], [status] and [code] ([stack] is never
    read); an optional argument left out is [None]. *)
Definition construct (c : error_class) (name message : string) (status : float)
    (code : value) (more : list (string * value)) : thrown :=
  Thrown (Some c)
    (object ([("message", Str message); ("name", Str name);
              ("status", Num status); ("code", code)] ++ more)).

Definition new_AppError (message : string) (status : option float)
    (code : option string) : thrown :=
  construct AppError "AppError" message (default 500%float status)
    (from_option Str Undefined code) [].

Definition new_ValidationAppError (message : string) (errors : value)
    (status : option float) : thrown :=
  construct ValidationAppError "ValidationAppError" message
    (default 400%float status) Undefined [("errors", errors)].

Definition new_NetworkError (message : option string) : thrown :=
  construct NetworkError "NetworkError"
    (default "Network error occurred" message) 0 (Str "NETWORK_ERROR") [].

Definition new_AuthenticationError (message : option string) : thrown :=
  construct AuthenticationError "AuthenticationError"
    (default "Authentication failed" message) 401 (Str "AUTH_ERROR") [].

Definition new_AuthorizationError (message : option string) : thrown :=
  construct AuthorizationError "AuthorizationError"
    (default "Access denied" message) 403 (Str "AUTHORIZATION_ERROR") [].

(** The own property [k] of a thrown value. *)
Definition own (error : thrown) (k : string) : option value :=
  match thrown_value error with
  | Obj fields => fields !! k
  | _ => None
  end.

(** ['k' in error] and [error.k] for the names [message], [status] and
    [code]: an own property, or the [message] every instance of [Error]
    inherits (the empty string). *)
Definition inherits_message (error : thrown) (k : string) : bool :=
  bool_decide (k = "message") && bool_decide (is_Some (thrown_class error)).

Definition has (k : string) (error : thrown) : bool :=
  bool_decide (is_Some (own error k)) || inherits_message error k.

Definition member (error : thrown) (k : string) : value :=
  match own error k with
  | Some v => v
  | None => if inherits_message error k then Str "" else Undefined
  end.

(** [error && typeof error === 'object']. *)
Definition is_object (error : thrown) : bool :=
  ToBoolean (thrown_value error) && typeof_object (thrown_value error).

(** [isNetworkError]: [message.includes] is the method of strings and of
    arrays, and a [TypeError] on any other message. *)
Definition isNetworkError (error : thrown) : completion bool :=
  if instanceof error NetworkError then mret true
  else if instanceof error Error then
    match member error "message" with
    | Str message => mret (includes "Network Error" message)
    | Arr items => mret (existsb (λ x, strict_eq_string x "Network Error") items)
    | _ => throw_TypeError
    end
  else mret false.

Section WithRuntime.
Context `{Runtime}.

Definition getErrorMessage (error : thrown) : completion value :=
  if instanceof error AppError then mret (member error "message")
  else if is_object error && has "message" error
  then Str <$> String_ (member error "message")
  else if typeof_string (thrown_value error) then mret (thrown_value error)
  else mret (Str "An unexpected error occurred").

Definition getErrorStatus (error : thrown) : completion value :=
  if instanceof error AppError then mret (member error "status")
  else if is_object error && has "status" error
  then status ← Number_ (member error "status"); mret (Num (or_number status 500))
  else mret (Num 500).

Definition toApiError (error : thrown) : completion value :=
  message ← getErrorMessage error;
  status ← getErrorStatus error;
  code ← (if is_object error && has "code" error
          then Str <$> String_ (member error "code") else mret Undefined);
  mret (object [("message", message); ("status", status); ("code", code)]).

(** [logError]: the message and the status are extracted and printed in
    the line handed to [console.error], the status first. *)
Definition logError (error : thrown) : completion unit :=
  errorMessage ← getErrorMessage error;
  errorStatus ← getErrorStatus error;
  _ ← ToString errorStatus;
  _ ← ToString errorMessage;
  mret ().

End WithRuntime.

End ErrorHandling.

(** ** [src/lib/react-query.ts] and the retry loop of TanStack Query *)
Module ReactQuery.
Import Js.

(** The [retry] option of the library: a boolean, a number of retries, or
    a function of the failure count and the error. *)
Inductive retry_option : Type :=
| RetryBool (b : bool)
| RetryCount (n : nat)
| RetryFn (f : nat → thrown → completion bool).

Definition shouldRetry (retry : retry_option) (failureCount : nat)
    (error : thrown) : completion bool :=
  match retry with
  | RetryBool b => mret b
  | RetryCount n => mret (bool_decide (failureCount < n))
  | RetryFn f => f failureCount error
  end.

(** The retry loop of TanStack Query v5 (a dependency of the repository):
    the operation is run; when it rejects, [shouldRetry] is asked with the
    number of failures so far, and on [true] the failure count is
    incremented and the operation run again, otherwise the error is
    surfaced.  The result holds the completion and the number of
    invocations.  It is [None] when there is no result: [fuel] runs out,
    or the retry function throws, in the handler of the rejection, which
    leaves the promise of the library pending for ever. *)
Fixpoint retryer {A} (retry : retry_option) (fn : nat → completion A)
    (failureCount fuel : nat) : option (completion A * nat) :=
  match fuel with
  | 0 => None
  | S fuel' =>
      match fn failureCount with
      | Normal a => Some (Normal a, S failureCount)
      | Throw error =>
          match shouldRetry retry failureCount error with
          | Normal true => retryer retry fn (S failureCount) fuel'
          | Normal false => Some (Throw error, S failureCount)
          | Throw _ => None
          end
      end
  end.

Section WithRuntime.
Context `{Runtime}.

(** [a >= n] and [a < n] for a number literal [n]. *)
Definition ge (a : value) (n : float) : completion bool :=
  x ← ToNumber a; mret (PrimFloat.leb n x).
Definition lt (a : value) (n : float) : completion bool :=
  x ← ToNumber a; mret (PrimFloat.ltb x n).

(** [c && e], for a condition [e] that may throw. *)
Definition and_then (c : bool) (e : completion bool) : completion bool :=
  if c then e else mret false.

(** [queryConfig.queries.retry]. *)
Definition queries_retry (failureCount : nat) (error : thrown) : completion bool :=
  let status := get_opt (get_opt (thrown_value error) "response") "status" in
  client_error ←
    and_then (ToBoolean status)
      (at_least_400 ← ge status 400; and_then at_least_400 (lt status 500));
  mret (if client_error : bool then false else bool_decide (failureCount < 3)).

End WithRuntime.

(** [queryConfig.mutations.retry]. *)
Definition mutations_retry : nat := 1.

(** A query function and a mutation function run under the configured
    policies. *)
Definition run_query `{Runtime} {A} (queryFn : nat → completion A)
    (fuel : nat) : option (completion A * nat) :=
  retryer (RetryFn queries_retry) queryFn 0 fuel.

Definition run_mutation {A} (mutationFn : nat → completion A)
    (fuel : nat) : option (completion A * nat) :=
  retryer (RetryCount mutations_retry) mutationFn 0 fuel.

End ReactQuery.

(** ** [src/services/auth.ts]: the session kept in [localStorage] *)
Module AuthService.

Inductive Role : Type := PATIENT | DOCTOR.

(** The [User] type of [src/types]. *)
Record User : Type := {
  id : string;
  name : string;
  email : string;
  role : Role;
  photo_url : option string
}.

(** The two keys of [localStorage] the service owns: ['auth_token'] holds
    the token as it is, ['user_data'] the user serialized as JSON (held
    here as the [User] it parses back to).  [None] is a missing key. *)
Record LocalStorage : Type := {
  auth_token : option string;
  user_data : option User
}.

Definition logout (ls : LocalStorage) : LocalStorage :=
  {| auth_token := None; user_data := None |}.

Definition getToken (ls : LocalStorage) : option string := auth_token ls.

Definition setToken (token : string) (ls : LocalStorage) : LocalStorage :=
  {| auth_token := Some token; user_data := user_data ls |}.

Definition getUser (ls : LocalStorage) : option User := user_data ls.

Definition setUser (user : User) (ls : LocalStorage) : LocalStorage :=
  {| auth_token := auth_token ls; user_data := Some user |}.

(** [authService.isAuthenticated]: [!!authService.getToken()]. *)
Definition isAuthenticated (ls : LocalStorage) : bool :=
  match getToken ls with
  | Some token => negb (bool_decide (token = ""))
  | None => false
  end.

End AuthService.

(** ** [src/lib/api.ts]: the interceptors and [makeApiRequest] *)
Module Api.
Import Js ErrorHandling AuthService.

(** The reply of the server carried by an [AxiosResponse]. *)
Record AxiosResponse : Type := {
  status : float;
  data : value
}.

(** An [AxiosError]: the reply when there was one, the message and the
    code of the error, and the [_retry] mark of the configuration of its
    request. *)
Record AxiosError : Type := {
  response : option AxiosResponse;
  message : string;
  code : option string;
  _retry : bool
}.

(** The request interceptor: the [Authorization] header it sets, if any. *)
Definition authorization (ls : LocalStorage) : option string :=
  match auth_token ls with
  | Some token => if bool_decide (token = "") then None else Some ("Bearer " +:+ token)
  | None => None
  end.

(** What the response interceptor does with an error: the value it
    rejects with, the [localStorage] it leaves and the page it sends the
    browser to.  The handler is an [async] function: when [logError]
    throws in it, it rejects with what was thrown.  ([logError] of the
    [AxiosError] itself, in the first branch, converts a message that is
    a string and a status that is a number or [undefined], and returns.) *)
Record Rejection : Type := {
  reason : thrown;
  storage_after : LocalStorage;
  redirect : option string
}.

Definition intercept `{Runtime} (error : AxiosError) (ls : LocalStorage) : Rejection :=
  match response error with
  | None =>
      {| reason := new_NetworkError
           (Some "Network connection failed. Please check your internet connection.");
         storage_after := ls; redirect := None |}
  | Some r =>
      if PrimFloat.eqb (status r) 401 && negb (_retry error) then
        {| reason := new_AuthenticationError
             (Some "Session expired. Please login again.");
           storage_after := AuthService.logout ls; redirect := Some "/login" |}
      else
        let apiError := Thrown None (object [
             ("message", or_else (get_opt (data r) "message")
                           (or_else (Str (message error))
                                    (Str "An unexpected error occurred")));
             ("status", Num (or_number (status r) 500));
             ("code", or_else (get_opt (data r) "code")
                        (from_option Str Undefined (code error)))
           ]) in
        {| reason := match logError apiError with
                     | Normal _ => apiError
                     | Throw e => e
                     end;
           storage_after := ls; redirect := None |}
  end.

(** [makeApiRequest]: the body of the reply; or, in the [catch],
    [handleApiError] of what the interceptor rejected with is thrown,
    or what [handleApiError] throws itself. *)
Definition makeApiRequest `{Runtime} (outcome : AxiosResponse + AxiosError)
    (ls : LocalStorage) : completion value * LocalStorage :=
  match outcome with
  | inl r => (Normal (data r), ls)
  | inr error =>
      (match toApiError (reason (intercept error ls)) with
       | Normal apiError => Throw (Thrown None apiError)
       | Throw e => Throw e
       end,
       storage_after (intercept error ls))
  end.

End Api.

(** ** [src/services/auth.ts], [doctors.ts] and [appointments.ts]: what
    the services make of the body of a reply *)
Module Services.
Import Js ResponseTransformers.

Section WithRuntime.
Context `{Runtime}.

(** [authService.login], [registerPatient] and [registerDoctor]. *)
Definition login (response : value) : completion (value * string) :=
  data ← get response "data";
  user ← get data "user";
  user' ← transformUser user;
  token ← get data "token";
  token' ← String_ token;
  mret (user', token').

(** [doctorService]. *)
Definition getDoctors (response : value) : completion value :=
  data ← get response "data";
  transformPaginatedResponse data transformDoctor.

Definition getSpecializations (response : value) : completion value :=
  data ← get response "data";
  transformArray data transformSpecialization.

Definition getDoctorById (response : value) : completion value :=
  data ← get response "data";
  transformDoctor data.

(** [appointmentService]: [createAppointment], [updateAppointmentStatus]
    and [getAppointmentById] all normalize the one appointment of the
    body. *)
Definition appointment_of (now_created now_updated : string) (response : value)
  : completion value :=
  data ← get response "data";
  transformAppointment now_created now_updated data.

End WithRuntime.
End Services.

(** ** [src/store/auth-store.ts] *)
Module AuthStore.
Import AuthService.

(** The data fields of [AuthState]. *)
Record AuthState : Type := {
  user : option User;
  token : option string;
  isAuthenticated : bool;
  isLoading : bool;
  error : option string
}.

(** The store together with the [localStorage] keys its actions reach
    through [authService]. *)
Record World : Type := {
  store : AuthState;
  storage : LocalStorage
}.

Definition initial : AuthState :=
  {| user := None; token := None; isAuthenticated := false;
     isLoading := false; error := None |}.

(** The three asynchronous actions; they differ in the service they call
    and in the message kept when the rejection is not an [Error]. *)
Inductive call : Type := login | registerPatient | registerDoctor.

Definition fallback_message (c : call) : string :=
  match c with
  | login => "Login failed"
  | registerPatient => "Patient registration failed"
  | registerDoctor => "Doctor registration failed"
  end.

(** [error instanceof Error ? error.message : fallback]. *)
Definition errorMessage (c : call) (error : Js.thrown) : string :=
  if ErrorHandling.instanceof error Js.Error then
    match Js.get_opt (Js.thrown_value error) "message" with
    | Js.Str message => message
    | _ => ""
    end
  else fallback_message c.

(** [set({ isLoading: true, error: null })], before the service is awaited. *)
Definition begin (w : World) : World :=
  {| store := {| user := user (store w); token := token (store w);
                 isAuthenticated := isAuthenticated (store w);
                 isLoading := true; error := None |};
     storage := storage w |}.

(** The [try] branch after the service resolved with [{user, token}]. *)
Definition fulfilled (u : User) (t : string) (w : World) : World :=
  {| store := {| user := Some u; token := Some t; isAuthenticated := true;
                 isLoading := false; error := None |};
     storage := setUser u (setToken t (storage w)) |}.

(** The [catch] branch (the error is then thrown again to the caller). *)
Definition rejected (c : call) (e : Js.thrown) (w : World) : World :=
  {| store := {| user := None; token := None; isAuthenticated := false;
                 isLoading := false; error := Some (errorMessage c e) |};
     storage := storage w |}.

Definition logout (w : World) : World :=
  {| store := {| user := None; token := None; isAuthenticated := false;
                 isLoading := false; error := None |};
     storage := AuthService.logout (storage w) |}.

Definition setUser (u : User) (w : World) : World :=
  {| store := {| user := Some u; token := token (store w);
                 isAuthenticated := isAuthenticated (store w);
                 isLoading := isLoading (store w); error := error (store w) |};
     storage := AuthService.setUser u (storage w) |}.

Definition setToken (t : string) (w : World) : World :=
  {| store := {| user := user (store w); token := Some t;
                 isAuthenticated := true;
                 isLoading := isLoading (store w); error := error (store w) |};
     storage := AuthService.setToken t (storage w) |}.

Definition clearError (w : World) : World :=
  {| store := {| user := user (store w); token := token (store w);
                 isAuthenticated := isAuthenticated (store w);
                 isLoading := isLoading (store w); error := None |};
     storage := storage w |}.

(** [token && user]: a token is truthy when it is present and not the
    empty string, a parsed user when it is present. *)
Definition token_and_user (t : option string) (u : option User)
  : option (string * User) :=
  match t, u with
  | Some t, Some u => if bool_decide (t = "") then None else Some (t, u)
  | _, _ => None
  end.

Definition initialize (w : World) : World :=
  match token_and_user (getToken (storage w)) (getUser (storage w)) with
  | Some (t, u) =>
      {| store := {| user := Some u; token := Some t; isAuthenticated := true;
                     isLoading := false; error := None |};
         storage := storage w |}
  | None =>
      {| store := {| user := None; token := None; isAuthenticated := false;
                     isLoading := false; error := None |};
         storage := storage w |}
  end.

(** The page is loaded again: the store is created anew and the [persist]
    middleware restores the fields kept by [partialize]. *)
Definition reload (w : World) : World :=
  {| store := {| user := user (store w); token := token (store w);
                 isAuthenticated := isAuthenticated (store w);
                 isLoading := false; error := None |};
     storage := storage w |}.

(** What can happen to the store: the steps of its actions, a reload of
    the page, and a write to [localStorage] by someone else (the 401
    interceptor of [lib/api.ts] and the React Query auth hooks write the
    same keys). *)
Inductive event : Type :=
| Begin (c : call)
| Fulfilled (c : call) (u : User) (t : string)
| Rejected (c : call) (e : Js.thrown)
| Logout
| SetUser (u : User)
| SetToken (t : string)
| ClearError
| Initialize
| Reload
| StorageWritten (ls : LocalStorage).

Definition step (w : World) (ev : event) : World :=
  match ev with
  | Begin _ => begin w
  | Fulfilled _ u t => fulfilled u t w
  | Rejected c e => rejected c e w
  | Logout => logout w
  | SetUser u => setUser u w
  | SetToken t => setToken t w
  | ClearError => clearError w
  | Initialize => initialize w
  | Reload => reload w
  | StorageWritten ls => {| store := store w; storage := ls |}
  end.

(** The states the store can be in: it starts from [initial], over any
    content of [localStorage], and takes any sequence of events. *)
Inductive reachable : World → Prop :=
| reachable_initial ls : reachable {| store := initial; storage := ls |}
| reachable_step w ev : reachable w → reachable (step w ev).

End AuthStore.

(** ** [src/store/ui-store.ts], with the timers it sets *)
Module UIStore.

Inductive NotificationType : Type := success | error | info | warning.

(** [Notification]; durations are whole milliseconds. *)
Record Notification : Type := {
  id : string;
  type : NotificationType;
  message : string;
  duration : option Z
}.

(** [Omit<Notification, 'id'>], the argument of [addNotification]. *)
Record NotificationData : Type := {
  data_type : NotificationType;
  data_message : string;
  data_duration : option Z
}.

Record UIState : Type := {
  isLoading : bool;
  notifications : list Notification;
  modals : gmap string bool
}.

(** A pending [setTimeout] whose callback removes the notification
    [target] at time [due]. *)
Record Timer : Type := {
  due : Z;
  target : string
}.

(** The store, the pending timers in the order they will fire, and the
    clock (ms). *)
Record World : Type := {
  ui : UIState;
  timers : list Timer;
  now : Z
}.

Definition initial : UIState :=
  {| isLoading := false; notifications := [];
     modals := <["appointmentBooking" := false]> (<["statusUpdate" := false]> ∅) |}.

Definition with_ui (f : UIState → UIState) (w : World) : World :=
  {| ui := f (ui w); timers := timers w; now := now w |}.

Definition setLoading (loading : bool) (s : UIState) : UIState :=
  {| isLoading := loading; notifications := notifications s; modals := modals s |}.

Definition removeNotification (i : string) (s : UIState) : UIState :=
  {| isLoading := isLoading s;
     notifications := filter (λ n, id n ≠ i) (notifications s);
     modals := modals s |}.

Definition clearNotifications (s : UIState) : UIState :=
  {| isLoading := isLoading s; notifications := []; modals := modals s |}.

Definition set_modals (m : gmap string bool) (s : UIState) : UIState :=
  {| isLoading := isLoading s; notifications := notifications s; modals := m |}.

Definition openModal (modal : string) (s : UIState) : UIState :=
  set_modals (<[modal := true]> (modals s)) s.

Definition closeModal (modal : string) (s : UIState) : UIState :=
  set_modals (<[modal := false]> (modals s)) s.

(** [state.modals[modal]] as [!] sees it.  The map holds the own
    properties of the object; a name with no own property is looked up
    in [Object.prototype], where it finds a truthy value (a method, or
    the prototype itself under ['__proto__']) or nothing. *)
Definition modal_truthy (m : gmap string bool) (modal : string) : bool :=
  match m !! modal with
  | Some flag => flag
  | None => bool_decide (modal ∈ Js.Object_prototype)
  end.

Definition toggleModal (modal : string) (s : UIState) : UIState :=
  set_modals (<[modal := negb (modal_truthy (modals s) modal)]> (modals s)) s.

(** [closeAllModals]: [acc[key] = false] for every own key of the
    modals.  For the key ['__proto__'] the assignment calls the setter
    of [Object.prototype], which ignores a value that is not an object
    and defines no property. *)
Definition closeAllModals (s : UIState) : UIState :=
  set_modals ((λ _, false) <$> delete "__proto__" (modals s)) s.

(** [setTimeout]: the timer is queued behind those due no later. *)
Fixpoint schedule (t : Timer) (queue : list Timer) : list Timer :=
  match queue with
  | [] => [t]
  | t' :: queue' =>
      if (due t <? due t')%Z then t :: queue else t' :: schedule t queue'
  end.

(** [addNotification].  [generated] is the string [generateId()] returned. *)
Definition addNotification (generated : string) (notification : NotificationData)
    (w : World) : World :=
  let d := match data_duration notification with
           | Some d => d
           | None => 5000%Z
           end in
  let newNotification :=
    {| id := generated;
       type := data_type notification;
       message := data_message notification;
       duration := Some d |} in
  let s := {| isLoading := isLoading (ui w);
              notifications := notifications (ui w) ++ [newNotification];
              modals := modals (ui w) |} in
  if negb (d =? 0)%Z && (0 <? d)%Z
  then {| ui := s;
          timers := schedule {| due := (now w + d)%Z; target := generated |} (timers w);
          now := now w |}
  else {| ui := s; timers := timers w; now := now w |}.

(** The clock moves forward by [ms]: every timer due by then fires, in
    queue order, and leaves the queue. *)
Definition advance (ms : N) (w : World) : World :=
  let t := (now w + Z.of_N ms)%Z in
  let fired := filter (λ x, (due x ≤ t)%Z) (timers w) in
  {| ui := foldl (λ s x, removeNotification (target x) s) (ui w) fired;
     timers := filter (λ x, ¬ (due x ≤ t)%Z) (timers w);
     now := t |}.

(** What can happen to the store and its timers. *)
Inductive event : Type :=
| SetLoading (loading : bool)
| AddNotification (generated : string) (notification : NotificationData)
| RemoveNotification (i : string)
| ClearNotifications
| OpenModal (modal : string)
| CloseModal (modal : string)
| ToggleModal (modal : string)
| CloseAllModals
| Advance (ms : N).

Definition step (w : World) (ev : event) : World :=
  match ev with
  | SetLoading b => with_ui (setLoading b) w
  | AddNotification g n => addNotification g n w
  | RemoveNotification i => with_ui (removeNotification i) w
  | ClearNotifications => with_ui clearNotifications w
  | OpenModal m => with_ui (openModal m) w
  | CloseModal m => with_ui (closeModal m) w
  | ToggleModal m => with_ui (toggleModal m) w
  | CloseAllModals => with_ui closeAllModals w
  | Advance ms => advance ms w
  end.

Definition run (w : World) (evs : list event) : World := foldl step w evs.

(** The time that passes during a sequence of events. *)
Definition elapsed (evs : list event) : Z :=
  foldr (λ ev t, match ev with Advance ms => (Z.of_N ms + t)%Z | _ => t end) 0%Z evs.

(** A notification with the given id is in the list. *)
Definition present (i : string) (w : World) : Prop :=
  ∃ n, n ∈ notifications (ui w) ∧ id n = i.

End UIStore.

(** ** The query cache of TanStack Query

    The cache is a dependency of the repository; it is modelled by the
    data it holds per query key and by the documented behaviour of the
    four methods the hooks call. *)
Module QueryClient.
Import Js.

(** A component of a query key: a string, or an object (the filters)
    identified by its stable hash. *)
Inductive key_part : Type :=
| KString (s : string)
| KObject (hash : string).

#[export] Instance key_part_eq_dec : EqDecision key_part.
Proof. solve_decision. Defined.

#[export] Instance key_part_countable : Countable key_part.
Proof.
  apply (inj_countable'
    (λ p, match p with KString s => inl s | KObject h => inr h end)
    (λ x, match x with inl s => KString s | inr h => KObject h end)).
  by intros [].
Defined.

(** The cached data of every query, by key; [Undefined] is a query that
    holds no data yet. *)
Abbreviation cache := (gmap (list key_part) value).

(** [getQueryData(queryKey)]. *)
Definition getQueryData (queryKey : list key_part) (c : cache) : value :=
  default Undefined (c !! queryKey).

(** [setQueryData(queryKey, data)]: nothing is written when [data] is
    [undefined]. *)
Definition setQueryData (queryKey : list key_part) (data : value) (c : cache)
  : cache :=
  match data with
  | Undefined => c
  | _ => <[queryKey := data]> c
  end.

(** [getQueriesData({ queryKey })]: the [[key, data]] pairs of the queries
    whose key starts with [queryKey]. *)
Definition getQueriesData (queryKey : list key_part) (c : cache)
  : list (list key_part * value) :=
  map_to_list (filter (λ kv, queryKey `prefix_of` kv.1) c).

(** [removeQueries({ queryKey })]: the queries whose key starts with
    [queryKey] are removed; [clear()] removes every query. *)
Definition removeQueries (queryKey : list key_part) (c : cache) : cache :=
  filter (λ kv, ¬ queryKey `prefix_of` kv.1) c.

Definition clear (c : cache) : cache := ∅.

(** Code that reads and writes the cache and may throw; what was written
    before a throw stays written. *)
Definition eff (A : Type) : Type := cache → completion A * cache.

#[export] Instance eff_ret : MRet eff := λ A a c, (Normal a, c).
#[export] Instance eff_bind : MBind eff := λ A B f m c,
  match m c with
  | (Normal a, c') => f a c'
  | (Throw e, c') => (Throw e, c')
  end.

Definition lift {A} (m : completion A) : eff A := λ c, (m, c).
Definition read (queryKey : list key_part) : eff value :=
  λ c, (Normal (getQueryData queryKey c), c).
Definition read_all (queryKey : list key_part) : eff (list (list key_part * value)) :=
  λ c, (Normal (getQueriesData queryKey c), c).
Definition write (queryKey : list key_part) (data : value) : eff unit :=
  λ c, (Normal (), setQueryData queryKey data c).

(** [list.forEach(body)]. *)
Fixpoint forEach {A} (body : A → eff unit) (l : list A) : eff unit :=
  match l with
  | [] => mret ()
  | x :: l' => body x ;; forEach body l'
  end.

End QueryClient.

(** ** [src/hooks/queries/appointments.ts]: [useUpdateAppointmentStatus] *)
Module AppointmentHooks.
Import Js QueryClient.

Record UpdateAppointmentStatusData : Type := {
  appointment_id : string;
  status : string
}.

(** The value [onMutate] returns for the rollback. *)
Record MutationContext : Type := {
  previousPatientAppointments : list (list key_part * value);
  previousDoctorAppointments : list (list key_part * value);
  previousAppointment : value
}.

(** [queryKeys.appointmentDetails(id)] of [src/lib/query-keys.ts]. *)
Definition appointmentDetails (i : string) : list key_part :=
  [KString "appointments"; KString "detail"; KString i].

(** The local function [updateAppointmentStatus] of [onMutate]; [now] is
    the result of [new Date().toISOString()]. *)
Definition updateAppointmentStatus (statusData : UpdateAppointmentStatusData)
    (now : string) (appointment : value) : completion value :=
  i ← get appointment "id";
  if strict_eq_string i (appointment_id statusData) then
    mret (Obj (<["updatedAt" := Str now]>
              (<["status" := Str (if bool_decide (status statusData = "COMPLETE")
                                  then "COMPLETED" else "CANCELLED")]>
              (spread appointment))))
  else mret appointment.

(** The body of the two [forEach] loops of [onMutate]. *)
Definition update_list (statusData : UpdateAppointmentStatusData) (now : string)
    (entry : list key_part * value) : eff unit :=
  let '(queryKey, data) := entry in
  if ToBoolean data && typeof_object data && has_property "data" data then
    items ← lift (get data "data");
    mapped ← lift (Array_map (updateAppointmentStatus statusData now) items);
    write queryKey (Obj (<["data" := mapped]> (spread data)))
  else mret ().

(** [onMutate].  [cancelQueries] changes no cached data. *)
Definition onMutate (statusData : UpdateAppointmentStatusData) (now : string)
  : eff MutationContext :=
  previousPatientAppointments ← read_all [KString "appointments"; KString "patient"];
  previousDoctorAppointments ← read_all [KString "appointments"; KString "doctor"];
  forEach (update_list statusData now) previousPatientAppointments;;
  forEach (update_list statusData now) previousDoctorAppointments;;
  let appointmentDetailKey := appointmentDetails (appointment_id statusData) in
  existingAppointment ← read appointmentDetailKey;
  (if ToBoolean existingAppointment then
     updated ← lift (updateAppointmentStatus statusData now existingAppointment);
     write appointmentDetailKey updated
   else mret ());;
  mret {| previousPatientAppointments := previousPatientAppointments;
          previousDoctorAppointments := previousDoctorAppointments;
          previousAppointment := existingAppointment |}.

(** [onSuccess]; the two invalidations change no cached data. *)
Definition onSuccess (updatedAppointment : value)
    (statusData : UpdateAppointmentStatusData) : eff unit :=
  write (appointmentDetails (appointment_id statusData)) updatedAppointment.

(** [onError]; [context] is [None] when [onMutate] threw. *)
Definition onError (statusData : UpdateAppointmentStatusData)
    (context : option MutationContext) : eff unit :=
  match context with
  | Some ctx =>
      forEach (λ entry, write entry.1 entry.2) (previousPatientAppointments ctx);;
      forEach (λ entry, write entry.1 entry.2) (previousDoctorAppointments ctx);;
      if ToBoolean (previousAppointment ctx) then
        write (appointmentDetails (appointment_id statusData)) (previousAppointment ctx)
      else mret ()
  | None => mret ()
  end.

(** The life of one mutation, as the library runs it: [onMutate]; then
    the mutation function under the configured retry policy, while other
    code may write the cache ([meanwhile]); then [onSuccess] or [onError],
    and the completion of the mutation function is the mutation's.  The
    result also counts the invocations of the mutation function. *)
Definition execute (statusData : UpdateAppointmentStatusData) (now : string)
    (mutationFn : nat → completion value) (meanwhile : cache → cache)
    (fuel : nat) (c : cache) : option (completion value * nat * cache) :=
  match onMutate statusData now c with
  | (Throw e, c1) =>
      Some (Throw e, 0, (onError statusData None c1).2)
  | (Normal context, c1) =>
      match ReactQuery.run_mutation mutationFn fuel with
      | None => None
      | Some (Normal data, n) =>
          Some (Normal data, n, (onSuccess data statusData (meanwhile c1)).2)
      | Some (Throw e, n) =>
          Some (Throw e, n, (onError statusData (Some context) (meanwhile c1)).2)
      end
  end.

(** The body of the [forEach] loop of [onSuccess] of
    [useCreateAppointment]. *)
Definition add_to_list `{Runtime} (newAppointment : value)
    (entry : list key_part * value) : eff unit :=
  let '(queryKey, data) := entry in
  if ToBoolean data && typeof_object data && has_property "data" data then
    items ← lift (get data "data");
    listed ← lift (iterate items);
    pagination ← lift (get data "pagination");
    total ← lift (get pagination "total");
    total' ← lift (plus_one total);
    write queryKey
      (Obj (<["pagination" := Obj (<["total" := total']> (spread_all pagination))]>
           (<["data" := Arr (newAppointment :: listed)]> (spread data))))
  else mret ().

(** [onSuccess] of [useCreateAppointment]; the two invalidations change
    no cached data. *)
Definition createAppointment_onSuccess `{Runtime} (newAppointment : value)
  : eff unit :=
  patientAppointmentQueries ← read_all [KString "appointments"; KString "patient"];
  forEach (add_to_list newAppointment) patientAppointmentQueries.

End AppointmentHooks.

(** ** [cacheUtils] of [src/lib/react-query.ts] *)
Module CacheUtils.
Import Js QueryClient.

(** [removeAppointment]. *)
Definition removeAppointment (appointmentId : string) (c : cache) : cache :=
  removeQueries [KString "appointments"; KString "detail"; KString appointmentId] c.

(** [updateAppointmentInCache]: [setQueryData] with an updater function,
    which is applied to the cached data ([undefined] when there is none). *)
Definition updateAppointmentInCache (appointmentId : string)
    (updater : value → completion value) : eff unit :=
  old ← read [KString "appointments"; KString "detail"; KString appointmentId];
  data ← lift (updater old);
  write [KString "appointments"; KString "detail"; KString appointmentId] data.

End CacheUtils.

(** ** [src/hooks/queries/doctors.ts]: the pages of [useDoctorsInfinite] *)
Module DoctorHooks.
Import Js.

Section WithRuntime.
Context `{Runtime}.

Definition getNextPageParam (lastPage : value) : completion value :=
  pagination ← get lastPage "pagination";
  page ← get pagination "page";
  totalPages ← get pagination "totalPages";
  more ← less_than page totalPages;
  if more : bool then plus_one page else mret Undefined.

Definition getPreviousPageParam (firstPage : value) : completion value :=
  pagination ← get firstPage "pagination";
  page ← get pagination "page";
  less ← less_than (Num 1) page;
  if less : bool then n ← ToNumber page; mret (Num (n - 1)) else mret Undefined.

End WithRuntime.
End DoctorHooks.

(** ** [src/hooks/queries/auth.ts]: the session in the query cache *)
Module AuthHooks.
Import Js QueryClient AuthService.

(** What the hooks read and write: the query cache and [localStorage]. *)
Record Client : Type := {
  cache_of : cache;
  storage_of : LocalStorage
}.

(** [queryKeys.auth] and [queryKeys.currentUser()]. *)
Definition auth : list key_part := [KString "auth"].
Definition currentUser : list key_part := [KString "auth"; KString "current-user"].

Definition role_name (r : Role) : string :=
  match r with PATIENT => "PATIENT" | DOCTOR => "DOCTOR" end.

(** A [User] as the object the login service resolves with (the result
    of [transformUser]: [photo_url] is there, maybe [undefined]), and as
    the object [getUser] parses from [localStorage] (JSON drops a
    property that is [undefined]). *)
Definition user_object (u : User) : value :=
  object [("id", Str (id u)); ("name", Str (name u)); ("email", Str (email u));
          ("role", Str (role_name (role u)));
          ("photo_url", from_option Str Undefined (photo_url u))].

Definition parsed_user (u : User) : value :=
  object ([("id", Str (id u)); ("name", Str (name u)); ("email", Str (email u));
           ("role", Str (role_name (role u)))]
          ++ match photo_url u with
             | Some p => [("photo_url", Str p)]
             | None => []
             end).

(** [onSuccess] of [useLogin], [useRegisterPatient] and
    [useRegisterDoctor]; [invalidateQueries] changes no cached data. *)
Definition signed_in_onSuccess (user : User) (token : string) (cl : Client) : Client :=
  {| cache_of := setQueryData currentUser (user_object user) (cache_of cl);
     storage_of := setUser user (setToken token (storage_of cl)) |}.

(** [onError] of [useLogin]; the [onError] of the two registrations only
    logs. *)
Definition useLogin_onError (cl : Client) : Client :=
  {| cache_of := removeQueries auth (cache_of cl);
     storage_of := logout (storage_of cl) |}.

(** [useLogout]: the mutation function, then [onSuccess]. *)
Definition useLogout (cl : Client) : Client :=
  {| cache_of := removeQueries auth (clear (cache_of cl));
     storage_of := logout (storage_of cl) |}.

(** [useCurrentUser]: the user, or [null], and the client it leaves. *)
Definition useCurrentUser (cl : Client) : value * Client :=
  let cachedUser := getQueryData currentUser (cache_of cl) in
  if ToBoolean cachedUser then (cachedUser, cl)
  else
    match getUser (storage_of cl) with
    | Some storedUser =>
        (parsed_user storedUser,
         {| cache_of := setQueryData currentUser (parsed_user storedUser) (cache_of cl);
            storage_of := storage_of cl |})
    | None => (Null, cl)
    end.

(** [useIsAuthenticated]: [!!(user && token)]. *)
Definition useIsAuthenticated (cl : Client) : bool * Client :=
  let '(user, cl') := useCurrentUser cl in
  (ToBoolean user &&
   match getToken (storage_of cl') with
   | Some token => negb (bool_decide (token = ""))
   | None => false
   end, cl').

End AuthHooks.

(* ================================================================== *)
(** * Part II: the vocabulary of the statements *)
(* ================================================================== *)

(** ** The integers among the doubles *)
Module Doubles.

(** The numerator of a finite double with mantissa [m]. *)
Definition signed (s : bool) (m : positive) : Z := if s then Z.neg m else Z.pos m.

(** The integer a double holds, if it holds one (either zero holds 0). *)
Definition integer_of (x : float) : option Z :=
  match Prim2SF x with
  | S754_zero _ => Some 0%Z
  | S754_finite s m e =>
      if (0 <=? e)%Z then Some (signed s m * 2 ^ e)%Z
      else if (Z.pos m mod 2 ^ (- e) =? 0)%Z then Some (signed s m / 2 ^ (- e))%Z
      else None
  | _ => None
  end.

(** [c] is the ceiling of [x].  A double with an exponent that is not
    negative, an infinity, a zero and NaN are their own ceiling; the
    ceiling of [n / 2^k] is the double that holds the least integer not
    below it (which is [- ((- n) / 2^k)], the division rounding down). *)
Definition is_ceiling (x c : float) : Prop :=
  match Prim2SF x with
  | S754_finite s m e =>
      if (0 <=? e)%Z then c = x
      else integer_of c = Some (- ((- signed s m) / 2 ^ (- e)))%Z
  | _ => c = x
  end.

End Doubles.

(** ** Values that can be converted *)
Module Conversions.
Import Js.

(** The values [String()], [Number()] and the operators convert to a
    primitive value: every value but an object with an own property
    [toString], and an array that holds a value that is not converted. *)
Fixpoint convertible (v : value) : bool :=
  match v with
  | Arr items =>
      (fix all (l : list value) : bool :=
         match l with
         | [] => true
         | x :: l' => convertible x && all l'
         end) items
  | Obj fields => negb (bool_decide (is_Some (fields !! "toString")))
  | _ => true
  end.

Section WithRuntime.
Context `{Runtime}.

(** What [String(v)] returns, when it returns. *)
Fixpoint printed (v : value) : string :=
  match v with
  | Undefined => "undefined"
  | Null => "null"
  | Bool true => "true"
  | Bool false => "false"
  | Num n => NumberToString n
  | Str s => s
  | Arr items =>
      String.concat ","
        ((fix join (l : list value) : list string :=
            match l with
            | [] => []
            | x :: l' =>
                match x with
                | Undefined | Null => ""
                | _ => printed x
                end :: join l'
            end) items)
  | Obj _ => "[object Object]"
  end.

(** What [Number(v)] returns, when it returns. *)
Definition numeric (v : value) : float :=
  match v with
  | Undefined => PrimFloat.nan
  | Null => 0%float
  | Bool true => 1%float
  | Bool false => 0%float
  | Num n => n
  | Str s => StringToNumber s
  | Arr _ | Obj _ => StringToNumber (printed v)
  end.

(** What [a / b] gives, when it is evaluated. *)
Definition quotient (a b : value) : float :=
  PrimFloat.div (numeric a) (numeric b).

(** The strings an array joins: the conversion of its elements, and
    what it gives when it returns. *)
Definition element_string (x : value) : completion string :=
  match x with
  | Undefined | Null => mret ""
  | _ => ToString x
  end.

Definition printed_element (x : value) : string :=
  match x with
  | Undefined | Null => ""
  | _ => printed x
  end.

End WithRuntime.
End Conversions.

(** ** Normal forms and sample payloads of the response transformers *)
Module Normalized.
Import Js ResponseTransformers Conversions.

(** The items of [v] when it is an array, none otherwise. *)
Definition array_items (v : value) : list value :=
  match v with Arr items => items | _ => [] end.

(** [response.pagination || {}]. *)
Definition effective_pagination (response : value) : value :=
  or_else (get_opt response "pagination") (Obj ∅).

Section WithRuntime.
Context `{Runtime}.

(** The object literals the transformers return when they return, as
    functions of the payload, and the payloads on which every conversion
    of a transformer returns (the lemmas [transformUser_eq] and the like
    relate them to the code). *)
Definition user_convertible (user : value) : bool :=
  convertible (get_opt user "id")
  && convertible (or_else (get_opt user "name") (Str ""))
  && convertible (or_else (get_opt user "email") (Str ""))
  && (negb (ToBoolean (get_opt user "photo_url"))
      || convertible (get_opt user "photo_url")).

Definition doctor_convertible (doctor : value) : bool :=
  user_convertible doctor
  && convertible (or_else (get_opt doctor "specialization") (Str "")).

Definition appointment_convertible (a : value) : bool :=
  convertible (get_opt a "id")
  && convertible (or_else (get_opt a "doctorId") (get_opt a "doctor_id"))
  && convertible (or_else (get_opt a "patientId") (get_opt a "patient_id"))
  && convertible (get_opt a "date")
  && (negb (ToBoolean (get_opt a "doctor")) || doctor_convertible (get_opt a "doctor"))
  && (negb (ToBoolean (get_opt a "patient")) || user_convertible (get_opt a "patient"))
  && convertible (or_else (get_opt a "createdAt") (get_opt a "created_at"))
  && convertible (or_else (get_opt a "updatedAt") (get_opt a "updated_at")).

Definition specialization_convertible (specialization : value) : bool :=
  convertible (get_opt specialization "id")
  && convertible (or_else (get_opt specialization "name") (Str "")).

Definition pagination_convertible (pagination : value) : bool :=
  convertible (or_else (get_opt pagination "page") (Num 1))
  && convertible (or_else (get_opt pagination "limit") (Num 10))
  && convertible (or_else (get_opt pagination "total") (Num 0))
  && (negb (ToBoolean (get_opt pagination "totalPages"))
      || convertible (get_opt pagination "totalPages")).

Definition user_literal (user : value) : value :=
  object [
    ("id", Str (printed (get_opt user "id")));
    ("name", Str (printed (or_else (get_opt user "name") (Str ""))));
    ("email", Str (printed (or_else (get_opt user "email") (Str ""))));
    ("role", Str (if strict_eq_string (get_opt user "role") "DOCTOR"
                  then "DOCTOR" else "PATIENT"));
    ("photo_url", if ToBoolean (get_opt user "photo_url")
                  then Str (printed (get_opt user "photo_url")) else Undefined)
  ].

Definition doctor_literal (doctor : value) : value :=
  object [
    ("id", Str (printed (get_opt doctor "id")));
    ("name", Str (printed (or_else (get_opt doctor "name") (Str ""))));
    ("email", Str (printed (or_else (get_opt doctor "email") (Str ""))));
    ("role", Str "DOCTOR");
    ("photo_url", if ToBoolean (get_opt doctor "photo_url")
                  then Str (printed (get_opt doctor "photo_url")) else Undefined);
    ("specialization", Str (printed (or_else (get_opt doctor "specialization") (Str ""))))
  ].

Definition patient_literal (patient : value) : value :=
  object [
    ("id", Str (printed (get_opt patient "id")));
    ("name", Str (printed (or_else (get_opt patient "name") (Str ""))));
    ("email", Str (printed (or_else (get_opt patient "email") (Str ""))));
    ("role", Str "PATIENT");
    ("photo_url", if ToBoolean (get_opt patient "photo_url")
                  then Str (printed (get_opt patient "photo_url")) else Undefined)
  ].

Definition status_literal (status : value) : string :=
  if strict_eq_string status "COMPLETED" then "COMPLETED"
  else if strict_eq_string status "CANCELLED" then "CANCELLED"
  else "PENDING".

Definition appointment_literal (now_created now_updated : string) (a : value)
  : value :=
  object [
    ("id", Str (printed (get_opt a "id")));
    ("doctorId", Str (printed (or_else (get_opt a "doctorId") (get_opt a "doctor_id"))));
    ("patientId", Str (printed (or_else (get_opt a "patientId") (get_opt a "patient_id"))));
    ("date", Str (printed (get_opt a "date")));
    ("status", Str (status_literal (get_opt a "status")));
    ("doctor", if ToBoolean (get_opt a "doctor")
               then doctor_literal (get_opt a "doctor") else Undefined);
    ("patient", if ToBoolean (get_opt a "patient")
                then patient_literal (get_opt a "patient") else Undefined);
    ("createdAt", Str (printed (or_else (get_opt a "createdAt")
                                   (or_else (get_opt a "created_at") (Str now_created)))));
    ("updatedAt", Str (printed (or_else (get_opt a "updatedAt")
                                   (or_else (get_opt a "updated_at") (Str now_updated)))))
  ].

(** The coerced numeric fields of the pagination of a payload. *)
Definition coerced_page (response : value) : float :=
  numeric (or_else (get_opt (effective_pagination response) "page") (Num 1)).
Definition coerced_limit (response : value) : float :=
  numeric (or_else (get_opt (effective_pagination response) "limit") (Num 10)).
Definition coerced_total (response : value) : float :=
  numeric (or_else (get_opt (effective_pagination response) "total") (Num 0)).

Definition pagination_literal (pagination : value) : value :=
  object [
    ("page", Num (numeric (or_else (get_opt pagination "page") (Num 1))));
    ("limit", Num (numeric (or_else (get_opt pagination "limit") (Num 10))));
    ("total", Num (numeric (or_else (get_opt pagination "total") (Num 0))));
    ("totalPages",
      Num (numeric (or_else (get_opt pagination "totalPages")
        (Num (Math_ceil (quotient (or_else (get_opt pagination "total") (Num 0))
                             (or_else (get_opt pagination "limit") (Num 10))))))))
  ].

Definition paginated_literal (items : list value) (pagination : value) : value :=
  object [("data", Arr items); ("pagination", pagination_literal pagination)].

(** A normalized appointment that a second normalization leaves alone:
    its ids and timestamps are not the empty string, and neither is the
    photo of its doctor or patient. *)
Definition stable_appointment (y : value) : Prop :=
  get_opt y "doctorId" ≠ Str "" ∧
  get_opt y "patientId" ≠ Str "" ∧
  get_opt y "createdAt" ≠ Str "" ∧
  get_opt y "updatedAt" ≠ Str "" ∧
  get_opt (get_opt y "doctor") "photo_url" ≠ Str "" ∧
  get_opt (get_opt y "patient") "photo_url" ≠ Str "".

(** A normalized pagination block that a second normalization leaves
    alone: [page] and [limit] are truthy (neither zero nor NaN), [total]
    is truthy or zero, and [totalPages] is truthy or is the fallback
    ceil(total / limit). *)
Definition stable_pagination (p : value) : Prop :=
  ToBoolean (get_opt p "page") = true ∧
  ToBoolean (get_opt p "limit") = true ∧
  (ToBoolean (get_opt p "total") = true ∨ get_opt p "total" = Num 0) ∧
  (ToBoolean (get_opt p "totalPages") = true ∨
   get_opt p "totalPages" =
     Num (Math_ceil (quotient (get_opt p "total") (get_opt p "limit")))).

End WithRuntime.

(** Sample payloads. *)
Definition user_ann : value :=
  object [("id", Num 7); ("name", Str "Ann"); ("email", Null);
          ("role", Str "ADMIN"); ("photo_url", Str "ann.png")].

Definition normalized_ann : value :=
  object [("id", Str "7"); ("name", Str "Ann"); ("email", Str "");
          ("role", Str "PATIENT"); ("photo_url", Str "ann.png")].

Definition raw_appointment : value :=
  object [("id", Num 1); ("doctor_id", Str "doc-1"); ("patient_id", Str "patient-1");
          ("date", Str "2024-01-15"); ("status", Str "DONE");
          ("doctor", object [("id", Str "doc-1"); ("name", Str "Dr. Grey");
                             ("specialization", Str "Cardiology")]);
          ("created_at", Str "2024-01-01")].

Definition normalized_appointment : value :=
  object [("id", Str "1"); ("doctorId", Str "doc-1"); ("patientId", Str "patient-1");
          ("date", Str "2024-01-15"); ("status", Str "PENDING");
          ("doctor", object [("id", Str "doc-1"); ("name", Str "Dr. Grey");
                             ("email", Str ""); ("role", Str "DOCTOR");
                             ("photo_url", Undefined);
                             ("specialization", Str "Cardiology")]);
          ("patient", Undefined);
          ("createdAt", Str "2024-01-01");
          ("updatedAt", Str "2024-02-01T09:00:00.000Z")].

Definition raw_page : value :=
  object [("data", Arr [raw_appointment]);
          ("pagination", object [("page", Num 1); ("limit", Str "10");
                                 ("total", Num 25)])].

Definition normalized_page : value :=
  object [("data", Arr [normalized_appointment]);
          ("pagination", object [("page", Num 1); ("limit", Num 10);
                                 ("total", Num 25); ("totalPages", Num 3)])].

Definition reply_without_list : value := object [("data", Str "oops")].

(** A payload whose [page] cannot be converted. *)
Definition reply_with_odd_page : value :=
  object [("data", Str "oops");
          ("pagination", object [("page", object [("toString", Num 1)])])].

(** Payloads whose normal form is not a fixed point. *)
Definition user_with_empty_photo : value :=
  object [("id", Str "7"); ("name", Str "Ann"); ("photo_url", Arr [])].

Definition appointment_with_empty_doctor : value :=
  object [("id", Str "1"); ("doctor_id", Str ""); ("patient_id", Str "patient-1");
          ("date", Str "2024-01-15"); ("status", Str "PENDING");
          ("created_at", Str "2024-01-01"); ("updated_at", Str "2024-01-01")].

Definition page_zero : value :=
  object [("data", Arr []);
          ("pagination", object [("page", Str "0"); ("limit", Num 10);
                                 ("total", Num 0)])].

(** The two readings of the clock used in the examples. *)
Definition at_8 : string := "2024-02-01T08:00:00.000Z".
Definition at_9 : string := "2024-02-01T09:00:00.000Z".

End Normalized.

(** ** Failing operations *)
Module Failing.
Import Js.

(** The error [makeApiRequest] of [lib/api.ts] throws for an HTTP reply
    with the given status: the plain object [{message, status, code}]. *)
Definition api_error (status : float) : thrown :=
  Thrown None (object [("message", Str "Request failed");
                       ("status", Num status);
                       ("code", Undefined)]).

(** An error as axios raises it, before [lib/api.ts] normalizes it: an
    [Error] carrying the reply under [response]. *)
Definition axios_error (status : float) : thrown :=
  Thrown (Some Error) (object [("message", Str "Request failed");
                               ("response", object [("status", Num status)])]).

(** An operation that rejects with [e] at every invocation, and one that
    rejects [n] times and then resolves with [a]. *)
Definition always_fails {A} (e : thrown) : nat → completion A := λ _, Throw e.
Definition fails_then {A} (n : nat) (e : thrown) (a : A) : nat → completion A :=
  λ i, if bool_decide (i < n) then Throw e else Normal a.

End Failing.

(** ** Session states *)
Module Session.
Import AuthService AuthStore.

Definition signed_out : AuthState :=
  {| user := None; token := None; isAuthenticated := false;
     isLoading := false; error := None |}.

Definition signed_in (u : User) (t : string) : AuthState :=
  {| user := Some u; token := Some t; isAuthenticated := true;
     isLoading := false; error := None |}.

Definition john : User :=
  {| id := "1"; name := "John Doe"; email := "john@example.com";
     role := PATIENT; photo_url := None |}.

Definition fresh_start : World :=
  {| store := initial;
     storage := {| auth_token := None; user_data := None |} |}.

Definition persisted (t : string) (u : User) : World :=
  {| store := initial;
     storage := {| auth_token := Some t; user_data := Some u |} |}.

End Session.

(** ** Notifications over time *)
Module Lifetime.
Import UIStore.

(** The duration [addNotification] stores. *)
Definition effective_duration (n : NotificationData) : Z :=
  match data_duration n with Some d => d | None => 5000%Z end.

(** Events that put a notification with id [i] in the list, and events
    by which the program takes it out (a timer is not one). *)
Definition adds (i : string) (ev : event) : bool :=
  match ev with
  | AddNotification g _ => bool_decide (g = i)
  | _ => false
  end.

Definition removes (i : string) (ev : event) : bool :=
  match ev with
  | RemoveNotification j => bool_decide (j = i)
  | ClearNotifications => true
  | _ => false
  end.

(** Auto-dismissal: while the timer of the notification is pending the
    clock has not reached it; once it has fired the notification is gone. *)
Definition pending_or_gone (T : Timer) (w : World) : Prop :=
  (T ∈ timers w ∧ (now w < due T)%Z) ∨ ¬ present (target T) w.

(** Persistence: the notification is in the list and no timer targets it. *)
Definition persistent (i : string) (w : World) : Prop :=
  present i w ∧ ∀ x, x ∈ timers w → target x ≠ i.

Definition at_start : World := {| ui := initial; timers := []; now := 0 |}.

Definition saved (d : option Z) : NotificationData :=
  {| data_type := success; data_message := "Saved"; data_duration := d |}.

(** The events of the examples: time passes, another notification comes
    and goes. *)
Definition a_busy_second : list event :=
  [Advance 400; AddNotification "n2" (saved None); OpenModal "statusUpdate";
   RemoveNotification "n2"; Advance 600].

End Lifetime.

(** ** The optimistic step and its rollback *)
Module Rollback.
Import Js QueryClient AppointmentHooks.

Definition patientKey : list key_part := [KString "appointments"; KString "patient"].
Definition doctorKey : list key_part := [KString "appointments"; KString "doctor"].

(** The guard of the two loops of [onMutate]. *)
Definition is_paginated (data : value) : bool :=
  ToBoolean data && typeof_object data && has_property "data" data.

(** The cache entries [onMutate] rewrites: the patient and doctor lists
    that pass the guard, and the detail entry of the appointment when it
    holds a truthy value. *)
Definition touched (sd : UpdateAppointmentStatusData) (c : cache)
    (k : list key_part) : bool :=
  match c !! k with
  | Some v =>
      (bool_decide (patientKey `prefix_of` k) || bool_decide (doctorKey `prefix_of` k))
        && is_paginated v
      || bool_decide (k = appointmentDetails (appointment_id sd)) && ToBoolean v
  | None => false
  end.

(** The writes of a [forEach] over a snapshot. *)
Definition restore (l : list (list key_part * value)) (c : cache) : cache :=
  foldl (λ c e, setQueryData e.1 e.2 c) c l.

(** The detail step of [onMutate]. *)
Definition update_detail (sd : UpdateAppointmentStatusData) (now : string)
    (existingAppointment : value) : eff unit :=
  if ToBoolean existingAppointment then
    updated ← lift (updateAppointmentStatus sd now existingAppointment);
    write (appointmentDetails (appointment_id sd)) updated
  else mret ().

(** The cache [onError] leaves. *)
Definition rollback (sd : UpdateAppointmentStatusData) (ctx : MutationContext)
    (c : cache) : cache :=
  let c' := restore (previousDoctorAppointments ctx)
              (restore (previousPatientAppointments ctx) c) in
  if ToBoolean (previousAppointment ctx)
  then setQueryData (appointmentDetails (appointment_id sd)) (previousAppointment ctx) c'
  else c'.

(** A sample cache. *)
Definition appointment_1 (status updatedAt : string) : value :=
  object [("id", Str "1"); ("doctorId", Str "doc-1"); ("patientId", Str "patient-1");
          ("date", Str "2024-01-15"); ("status", Str status);
          ("createdAt", Str "2024-01-01"); ("updatedAt", Str updatedAt)].

Definition appointment_2 : value :=
  object [("id", Str "2"); ("doctorId", Str "doc-2"); ("patientId", Str "patient-1");
          ("date", Str "2024-01-20"); ("status", Str "PENDING");
          ("createdAt", Str "2024-01-02"); ("updatedAt", Str "2024-01-02")].

Definition page_of (appointments : list value) : value :=
  object [("data", Arr appointments);
          ("pagination", object [("page", Num 1); ("limit", Num 10);
                                 ("total", Num 2); ("totalPages", Num 1)])].

Definition patient_page_1 : list key_part :=
  [KString "appointments"; KString "patient"; KObject "{page:1}"].
Definition doctor_page_1 : list key_part :=
  [KString "appointments"; KString "doctor"; KObject "{page:1}"].

Definition cache_before : cache :=
  <[patient_page_1 := page_of [appointment_1 "PENDING" "2024-01-01"; appointment_2]]>
  (<[doctor_page_1 := page_of [appointment_1 "PENDING" "2024-01-01"]]>
  (<[appointmentDetails "1" := appointment_1 "PENDING" "2024-01-01"]>
  (<[[KString "doctors"; KString "list"] := Arr []]> ∅))).

Definition cache_optimistic : cache :=
  <[patient_page_1 := page_of [appointment_1 "COMPLETED" Normalized.at_9; appointment_2]]>
  (<[doctor_page_1 := page_of [appointment_1 "COMPLETED" Normalized.at_9]]>
  (<[appointmentDetails "1" := appointment_1 "COMPLETED" Normalized.at_9]>
  (<[[KString "doctors"; KString "list"] := Arr []]> ∅))).

Definition complete_1 : UpdateAppointmentStatusData :=
  {| appointment_id := "1"; status := "COMPLETE" |}.

Definition context_of_cache_before : MutationContext :=
  {| previousPatientAppointments :=
       [(patient_page_1, page_of [appointment_1 "PENDING" "2024-01-01"; appointment_2])];
     previousDoctorAppointments :=
       [(doctor_page_1, page_of [appointment_1 "PENDING" "2024-01-01"])];
     previousAppointment := appointment_1 "PENDING" "2024-01-01" |}.

End Rollback.

(** ** The interfaces of [src/types], as predicates on values

    A value has an interface when it holds every required property with
    a value of the declared type; an optional property may also be
    missing or [undefined]. *)
Module Declared.
Import Js.

Definition is_number (v : value) : bool :=
  match v with Num _ => true | _ => false end.

Definition is_boolean (v : value) : bool :=
  match v with Bool _ => true | _ => false end.

Definition optional (T : value → bool) (v : value) : bool :=
  match v with Undefined => true | _ => T v end.

Definition User (v : value) : bool :=
  typeof_string (get_opt v "id") && typeof_string (get_opt v "name")
  && typeof_string (get_opt v "email")
  && (strict_eq_string (get_opt v "role") "PATIENT"
      || strict_eq_string (get_opt v "role") "DOCTOR")
  && optional typeof_string (get_opt v "photo_url").

Definition Doctor (v : value) : bool :=
  User v && strict_eq_string (get_opt v "role") "DOCTOR"
  && typeof_string (get_opt v "specialization").

Definition Patient (v : value) : bool :=
  User v && strict_eq_string (get_opt v "role") "PATIENT".

Definition Appointment (v : value) : bool :=
  typeof_string (get_opt v "id") && typeof_string (get_opt v "doctorId")
  && typeof_string (get_opt v "patientId") && typeof_string (get_opt v "date")
  && (strict_eq_string (get_opt v "status") "PENDING"
      || strict_eq_string (get_opt v "status") "COMPLETED"
      || strict_eq_string (get_opt v "status") "CANCELLED")
  && optional Doctor (get_opt v "doctor")
  && optional Patient (get_opt v "patient")
  && typeof_string (get_opt v "createdAt")
  && typeof_string (get_opt v "updatedAt").

Definition Specialization (v : value) : bool :=
  typeof_string (get_opt v "id") && typeof_string (get_opt v "name").

Definition array_of (T : value → bool) (v : value) : bool :=
  match v with Arr items => forallb T items | _ => false end.

Definition PaginatedResponse (T : value → bool) (v : value) : bool :=
  array_of T (get_opt v "data")
  && is_number (get_opt (get_opt v "pagination") "page")
  && is_number (get_opt (get_opt v "pagination") "limit")
  && is_number (get_opt (get_opt v "pagination") "total")
  && is_number (get_opt (get_opt v "pagination") "totalPages").

Definition ApiResponse (T : value → bool) (v : value) : bool :=
  is_boolean (get_opt v "success") && T (get_opt v "data")
  && optional typeof_string (get_opt v "message").

Definition ApiError (v : value) : bool :=
  typeof_string (get_opt v "message") && is_number (get_opt v "status")
  && optional typeof_string (get_opt v "code").

End Declared.

(** ** Replies of the server, for the examples *)
Module Replies.
Import Js.

(** An envelope [{success, data, message}] around a user. *)
Definition envelope : value :=
  object [("success", Bool true); ("data", Normalized.user_ann);
          ("message", Str "ok")].

Definition normalized_envelope : value :=
  object [("success", Bool true); ("data", Normalized.user_ann);
          ("message", Str "ok")].

(** The body of a reply to [GET /doctors]: one doctor, sent with the
    role of a patient and a numeric id, and no pagination block. *)
Definition doctors_reply : value :=
  object [("success", Bool true);
          ("data", object [
             ("data", Arr [object [("id", Num 3); ("name", Str "Dr. Grey");
                                   ("role", Str "PATIENT");
                                   ("specialization", Str "Cardiology")]])])].

Definition specializations : value :=
  Arr [object [("id", Num 1); ("name", Str "Cardiology")];
       object [("id", Num 2)]].

Definition normalized_specializations : value :=
  Arr [object [("id", Str "1"); ("name", Str "Cardiology")];
       object [("id", Str "2"); ("name", Str "")]].

End Replies.

(** ** The schedule of [errorUtils.retry] *)
Module Retrying.
Import Js ErrorHandling.

(** An error [errorUtils.retry] retries after: none of the three kinds
    it gives up on. *)
Definition retryable (error : thrown) : bool :=
  negb (isAuthError error || isAuthorizationError error || isValidationError error).

(** The waits before the retries [from], ..., [from + n - 1]: the base
    delay times 2^from, 2^(from + 1), ... *)
Definition backoff (baseDelay : float) (from n : nat) : list float :=
  map (λ i, baseDelay * pow2 i)%float (seq from n).

(** The double the loop counter holds after [i] increments. *)
Definition counter (i : nat) : float := Nat.iter i (λ a, a + 1)%float 0%float.

(** [maxRetries] is the natural number [n], as the loop sees it: counting
    up from 0, the counter is below [maxRetries] before it was
    incremented [n] times, and equal to it then. *)
Definition counts (maxRetries : float) (n : nat) : bool :=
  forallb (λ i, PrimFloat.leb (counter i) maxRetries
                && negb (PrimFloat.eqb (counter i) maxRetries)) (seq 0 n)
  && PrimFloat.eqb (counter n) maxRetries.

(** The double of a natural number. *)
Definition float_of_nat (n : nat) : float := float_of_Z (Z.of_nat n).

(** The status [queryConfig.queries.retry] looks at. *)
Definition response_status (error : thrown) : value :=
  get_opt (get_opt (thrown_value error) "response") "status".

(** An operation that fails with a server error until it was invoked
    [n] times. *)
Definition flaky (n : nat) : nat → completion value :=
  Failing.fails_then n (Failing.api_error 500) (Str "data").

End Retrying.

(** ** The failures of the transport *)
Module Transport.
Import Js ErrorHandling AuthService Api Conversions.

(** The reply is a 401 and the request was not marked [_retry]. *)
Definition session_expired (error : AxiosError) : bool :=
  match response error with
  | Some r => PrimFloat.eqb (status r) 401 && negb (_retry error)
  | None => false
  end.

(** The message and the code the interceptor takes from a reply. *)
Definition reply_message (error : AxiosError) (r : AxiosResponse) : value :=
  or_else (get_opt (data r) "message")
    (or_else (Str (message error)) (Str "An unexpected error occurred")).

Definition reply_code (error : AxiosError) (r : AxiosResponse) : value :=
  or_else (get_opt (data r) "code") (from_option Str Undefined (code error)).

(** The failures whose message and code can be printed: every failure
    but a reply whose body holds, as [message] or [code], an object that
    is not converted (or an array of one). *)
Definition printable (error : AxiosError) : bool :=
  match response error with
  | None => true
  | Some r =>
      session_expired error
      || convertible (reply_message error r) && convertible (reply_code error r)
  end.

(** The three properties of the [ApiError] a failed request throws when
    the failure is printable (the lemma [makeApiRequest_inr] relates
    them to the code). *)
Definition failure_message `{Runtime} (error : AxiosError) : string :=
  match response error with
  | None => "Network connection failed. Please check your internet connection."
  | Some r =>
      if session_expired error then "Session expired. Please login again."
      else printed (reply_message error r)
  end.

Definition failure_status (error : AxiosError) : float :=
  match response error with
  | None => 0
  | Some r => if session_expired error then 401 else or_number (status r) 500
  end.

Definition failure_code `{Runtime} (error : AxiosError) : string :=
  match response error with
  | None => "NETWORK_ERROR"
  | Some r =>
      if session_expired error then "AUTH_ERROR"
      else printed (reply_code error r)
  end.

Definition failure `{Runtime} (error : AxiosError) : thrown :=
  Thrown None (object [
    ("message", Str (failure_message error));
    ("status", Num (failure_status error));
    ("code", Str (failure_code error))]).

(** What [makeApiRequest] throws when the message of the reply cannot
    be printed: [logError] throws the [TypeError] of the conversion in
    the interceptor, and [handleApiError] makes this object of it. *)
Definition unprintable_failure `{Runtime} : thrown :=
  Thrown None (object [
    ("message", Str ConversionErrorMessage);
    ("status", Num 500);
    ("code", Undefined)]).

(** Sample failures: no connection, and a reply with the given status. *)
Definition offline : AxiosError :=
  {| response := None; message := "Network Error"; code := Some "ERR_NETWORK";
     _retry := false |}.

Definition reply (status : float) (body : value) : AxiosError :=
  {| response := Some {| status := status; data := body |};
     message := "Request failed"; code := Some "ERR_BAD_REQUEST"; _retry := false |}.

Definition not_found : AxiosError :=
  reply 404 (object [("message", Str "Doctor not found")]).

Definition unauthorized : AxiosError :=
  reply 401 (object [("message", Str "Invalid token")]).

(** Replies whose [code], and whose [message], cannot be printed. *)
Definition odd_code : AxiosError :=
  reply 400 (object [("message", Str "bad");
                     ("code", object [("toString", Num 1)])]).

Definition odd_message : AxiosError :=
  reply 400 (object [("message", object [("toString", Num 1)])]).

Definition signed_in_storage : LocalStorage :=
  {| auth_token := Some "tok"; user_data := Some Session.john |}.

End Transport.

(** ** The session over time *)
Module Persistence.
Import AuthService AuthStore.

(** The events that leave the two [localStorage] keys of the service
    alone, and the events of the store itself (anything but a write by
    someone else). *)
Definition keeps_storage (ev : event) : bool :=
  match ev with
  | Begin _ | Rejected _ _ | ClearError | Initialize | Reload => true
  | _ => false
  end.

Definition own_event (ev : event) : bool :=
  match ev with
  | StorageWritten _ => false
  | _ => true
  end.

Definition run (w : World) (evs : list event) : World := foldl step w evs.

(** What happens to a session between two logins: an event of the store,
    or a call of [login] or of a registration whose request fails in the
    transport.  Such a call sets the loading flag, the interceptor of
    the transport does what it does to [localStorage], and the [catch]
    of the action keeps the error [makeApiRequest] threw. *)
Inductive happening : Type :=
| Passes (ev : event)
| Fails (c : call) (error : Api.AxiosError).

Definition happen `{Js.Runtime} (w : World) (h : happening) : World :=
  match h with
  | Passes ev => step w ev
  | Fails c error =>
      let request := Api.makeApiRequest (inr error) (storage w) in
      let pending := {| store := store (begin w); storage := request.2 |} in
      match request.1 with
      | Js.Throw e => rejected c e pending
      | Js.Normal _ => pending
      end
  end.

Definition play `{Js.Runtime} (w : World) (hs : list happening) : World :=
  foldl happen w hs.

(** What leaves the session in [localStorage] as it is: the start of a
    call, [clearError], [initialize], a page load, and a call that fails
    in the transport with anything but a 401 reply to a request not
    marked [_retry]. *)
Definition keeps_session (h : happening) : bool :=
  match h with
  | Passes (Begin _ | ClearError | Initialize | Reload) => true
  | Passes _ => false
  | Fails _ error => negb (Transport.session_expired error)
  end.

(** A login with a wrong password (a 400 reply), then a page load. *)
Definition a_wrong_password : list happening :=
  [Fails login (Transport.reply 400 (Js.object [("message", Js.Str "Invalid credentials")]));
   Passes ClearError; Passes Reload].

(** The events of the examples: a login that fails, and a page load. *)
Definition a_failed_login : list event :=
  [Begin login;
   Rejected login
     (Js.Thrown None (Js.object [("message", Js.Str "Invalid credentials")]));
   ClearError; Reload].

End Persistence.

(** ** The slices of the UI store *)
Module Slices.
Import UIStore.

(** The events of the notification slice of the store (the passing of
    time is one: it fires the timers); the others are the events of the
    loading flag and of the modals. *)
Definition about_notifications (ev : event) : bool :=
  match ev with
  | AddNotification _ _ | RemoveNotification _ | ClearNotifications | Advance _ => true
  | _ => false
  end.

(** A store with a notification on display and its timer pending. *)
Definition showing_one : World :=
  addNotification "n1" (Lifetime.saved None) Lifetime.at_start.

End Slices.

(** ** The optimistic status *)
Module Optimistic.
Import Js QueryClient AppointmentHooks.

(** The status the optimistic step writes. *)
Definition optimistic_status (sd : UpdateAppointmentStatusData) : string :=
  if bool_decide (status sd = "COMPLETE") then "COMPLETED" else "CANCELLED".

End Optimistic.

(** ** Paths into objects *)
Module Paths.
Import Js.



(** A nested object for the examples. *)
Definition settings : value :=
  object [("user", object [("name", Str "Ann"); ("age", Num 0); ("photo", Null);
                           ("tags", Arr [Str "new"; Str "vip"])])].

End Paths.

(** ** The clients of the authentication hooks *)
Module HookSession.
Import Js QueryClient AuthService AuthHooks.

(** A browser that was just loaded: nothing is cached. *)
Definition loaded (ls : LocalStorage) : Client := {| cache_of := ∅; storage_of := ls |}.

(** A client with a session and a cached list of doctors. *)
Definition busy : Client :=
  signed_in_onSuccess Session.john "tok"
    {| cache_of := <[[KString "doctors"; KString "list"] := Arr []]> ∅;
       storage_of := {| auth_token := None; user_data := None |} |}.

End HookSession.

(* ================================================================== *)
(** * Part III: the theorems *)
(* ================================================================== *)

(** ** [Math.ceil] *)
Module CeilingFacts.
Import Js Doubles.

Local Open Scope Z_scope.

Lemma digits2_pos_size (p : positive) : digits2_pos p = Pos.size p.
Proof. induction p; cbn; by f_equal. Qed.

Lemma iter_xO (p k : positive) : Z.pos (Pos.iter xO p k) = Z.pos p * 2 ^ Z.pos k.
Proof.
  induction k as [|k IH] using Pos.peano_ind.
  - cbn. lia.
  - rewrite Pos.iter_succ, Pos2Z.inj_xO, IH, Pos2Z.inj_succ, Z.pow_succ_r by lia. lia.
Qed.

Lemma size_iter_xO (p k : positive) :
  Pos.size (Pos.iter xO p k) = (Pos.size p + k)%positive.
Proof.
  induction k as [|k IH] using Pos.peano_ind.
  - cbn. lia.
  - rewrite Pos.iter_succ. cbn [Pos.size]. rewrite IH. lia.
Qed.

Lemma size_below (p : positive) (n : Z) :
  0 ≤ n → Z.pos p < 2 ^ n → Z.pos (Pos.size p) ≤ n.
Proof.
  intros Hn Hp. pose proof (Pos.size_le p) as Hle.
  apply Pos2Z.pos_le_pos in Hle. rewrite Pos2Z.inj_pow in Hle.
  destruct (decide (Z.pos (Pos.size p) ≤ n)) as [|Hgt]; [done|].
  assert (2 ^ (n + 1) ≤ 2 ^ Z.pos (Pos.size p)) by (apply Z.pow_le_mono_r; lia).
  rewrite Z.pow_add_r, Z.pow_1_r in * by lia. lia.
Qed.

(** The double of a natural number below 2^53 holds it. *)
Lemma Prim2SF_of_pos (p : positive) :
  Z.pos p < 2 ^ 53 →
  ∃ m e, binary_normalize prec emax (Z.pos p) 0 false = S754_finite false m e ∧
         e ≤ 0 ∧ Z.pos m = Z.pos p * 2 ^ (- e).
Proof.
  intros Hp. pose proof (size_below p 53 ltac:(lia) Hp) as Hsize.
  unfold binary_normalize, binary_round.
  rewrite digits2_pos_size, Z.add_0_r.
  assert (fexp prec emax (Z.pos (Pos.size p)) = Z.pos (Pos.size p) - 53) as ->.
  { unfold fexp, emin, prec, emax. lia. }
  unfold shl_align. rewrite Z.sub_0_r.
  destruct (Z.pos (Pos.size p) - 53) as [|q|k] eqn:Hk; [|lia|].
  - (* already 53 bits *)
    exists p, 0. unfold binary_round_aux, shr_fexp. cbn [Zdigits2 shr_record_of_loc].
    rewrite digits2_pos_size.
    assert (fexp prec emax (Z.pos (Pos.size p) + 0) - 0 = 0) as ->.
    { unfold fexp, emin, prec, emax. lia. }
    cbn [shr shr_m loc_of_shr_record round_nearest_even Zdigits2 shr_record_of_loc].
    rewrite digits2_pos_size.
    assert (fexp prec emax (Z.pos (Pos.size p) + 0) - 0 = 0) as ->.
    { unfold fexp, emin, prec, emax. lia. }
    cbn. split; [done|]. lia.
  - exists (Pos.iter xO p k), (Z.neg k).
    unfold binary_round_aux, shr_fexp. cbn [Zdigits2 shr_record_of_loc].
    rewrite digits2_pos_size, size_iter_xO.
    assert (fexp prec emax (Z.pos (Pos.size p + k) + Z.neg k) - Z.neg k = 0) as ->.
    { unfold fexp, emin, prec, emax. lia. }
    cbn [shr shr_m loc_of_shr_record round_nearest_even Zdigits2 shr_record_of_loc].
    rewrite digits2_pos_size, size_iter_xO.
    assert (fexp prec emax (Z.pos (Pos.size p + k) + Z.neg k) - Z.neg k = 0) as ->.
    { unfold fexp, emin, prec, emax. lia. }
    cbn [shr shr_m]. split.
    + assert ((Z.neg k <=? emax - prec) = true) as ->; [|done].
      unfold emax, prec. apply Z.leb_le. lia.
    + split; [lia|]. by rewrite iter_xO.
Qed.

Lemma integer_of_float_of_Z (z : Z) :
  0 ≤ z < 2 ^ 53 → integer_of (float_of_Z z) = Some z.
Proof.
  intros Hz. unfold integer_of, float_of_Z. rewrite of_uint63_spec.
  assert (Uint63Axioms.to_Z (Uint63.of_Z z) = z) as ->.
  { change Uint63Axioms.to_Z with Uint63.to_Z. rewrite Uint63.of_Z_spec.
    apply Z.mod_small. change Uint63.wB with (2 ^ 63). 
    assert (2 ^ 53 < 2 ^ 63) by (apply Z.pow_lt_mono_r; lia). lia. }
  destruct z as [|p|p]; [done| |lia].
  destruct (Prim2SF_of_pos p) as (m & e & -> & He & Hm); [lia|].
  unfold signed. destruct (Z.leb_spec 0 e) as [Hle|Hlt].
  - assert (e = 0) as -> by lia. f_equal. cbn in Hm. lia.
  - rewrite Hm, Z.mod_mul by lia. cbn [Z.eqb]. f_equal.
    apply Z.div_mul. lia.
Qed.

Lemma integer_of_opp (c : float) (z : Z) :
  integer_of c = Some z → integer_of (- c) = Some (- z).
Proof.
  unfold integer_of. rewrite FloatAxioms.opp_spec.
  destruct (Prim2SF c) as [s|s| |s m e]; cbn [SFopp]; try done.
  - by intros [= <-].
  - destruct (Z.leb_spec 0 e) as [He|He].
    + intros [= <-]. f_equal. unfold signed. destruct s; cbn [negb]; lia.
    + assert (0 < 2 ^ (- e)) as Hd by (apply Z.pow_pos_nonneg; lia).
      destruct (_ =? 0) eqn:Hr; [|done]. intros [= <-]. f_equal.
      apply Z.eqb_eq in Hr. apply Z.mod_divide in Hr as [k Hk]; [|lia].
      assert (signed (negb s) m = - signed s m) as -> by (by destruct s).
      assert (signed s m = (if s then - k else k) * 2 ^ (- e)) as ->.
      { unfold signed. destruct s; lia. }
      rewrite <- Z.mul_opp_l, !Z.div_mul by lia. done.
Qed.

(** [Math.ceil] computes the ceiling. *)
Lemma Math_ceil_is_ceiling (x : float) : is_ceiling x (Math_ceil x).
Proof.
  unfold is_ceiling, Math_ceil.
  pose proof (Prim2SF_valid x) as Hvalid.
  destruct (Prim2SF x) as [s|s| |s m e]; try done.
  destruct (Z.leb_spec 0 e) as [He|He]; [done|].
  cbn [valid_binary] in Hvalid. unfold bounded, canonical_mantissa in Hvalid.
  apply andb_true_iff in Hvalid as [Hcanonical _].
  apply Z.eqb_eq in Hcanonical. rewrite digits2_pos_size in Hcanonical.
  assert (Z.pos (Pos.size m) ≤ 53) as Hsize.
  { unfold fexp, prec in Hcanonical. lia. }
  assert (Z.pos m < 2 ^ 53) as Hm.
  { pose proof (Pos.size_gt m) as Hgt. apply Pos2Z.pos_lt_pos in Hgt.
    rewrite Pos2Z.inj_pow in Hgt.
    assert (2 ^ Z.pos (Pos.size m) ≤ 2 ^ 53) by (apply Z.pow_le_mono_r; lia). lia. }
  set (d := 2 ^ (- e)).
  assert (2 ≤ d) as Hd.
  { unfold d. change 2 with (2 ^ 1) at 1. apply Z.pow_le_mono_r; lia. }
  pose proof (Z.div_mod (Z.pos m) d ltac:(lia)) as Hdiv.
  pose proof (Z.mod_pos_bound (Z.pos m) d ltac:(lia)) as Hmod.
  assert (0 ≤ Z.pos m / d) as Hq by (apply Z.div_pos; lia).
  assert (Z.pos m / d < 2 ^ 52) as Hq'.
  { apply Z.div_lt_upper_bound; [lia|].
    replace (2 ^ 53) with (2 * 2 ^ 52) in Hm by done. nia. }
  assert (2 ^ 52 < 2 ^ 53) as H52 by done.
  destruct s; unfold signed.
  - (* negative: - floor (m / d) *)
    rewrite (integer_of_opp _ (Z.pos m / d)) by (apply integer_of_float_of_Z; lia).
    repeat (f_equal; try lia).
  - rewrite integer_of_float_of_Z by (destruct (_ =? 0); lia).
    f_equal. destruct (Z.eqb_spec (Z.pos m mod d) 0) as [Hr|Hr].
    + symmetry. apply Z.opp_inj. rewrite Z.opp_involutive.
      symmetry. apply (Z.div_unique _ _ _ 0); [lia|]. lia.
    + symmetry. apply Z.opp_inj. rewrite Z.opp_involutive.
      symmetry. apply (Z.div_unique _ _ _ (d - Z.pos m mod d)); [lia|]. lia.
Qed.

End CeilingFacts.

(** ** The conversions *)
Module ConversionFacts.
Import Js Conversions.

(** Induction on values, with the items of an array. *)
Lemma value_items_ind (P : value → Prop) :
  P Undefined → P Null → (∀ b, P (Bool b)) → (∀ n, P (Num n)) → (∀ s, P (Str s)) →
  (∀ items, Forall P items → P (Arr items)) →
  (∀ fields, P (Obj fields)) →
  ∀ v, P v.
Proof.
  intros HU HN HB HNum HS HA HO. fix IH 1.
  intros [| |b|n|s|items|fields]; [done|done|done|done|done| |done].
  apply HA. induction items as [|x items IHitems]; constructor; [apply IH|exact IHitems].
Qed.

Lemma convertible_Arr (items : list value) :
  convertible (Arr items) = forallb convertible items.
Proof.
  cbn [convertible]. induction items as [|x items IH]; [done|].
  cbn [forallb]. by rewrite <- IH.
Qed.

Section WithRuntime.
Context `{Runtime}.

Lemma ToString_Arr (items : list value) :
  ToString (Arr items) = String.concat "," <$> mapM element_string items.
Proof.
  reflexivity.
Qed.

Lemma printed_Arr (items : list value) :
  printed (Arr items) = String.concat "," (map printed_element items).
Proof.
  reflexivity.
Qed.

(** A conversion returns on the convertible values, and only on them. *)
Lemma ToString_eq (v : value) :
  ToString v =
    if convertible v then Normal (printed v) else throw_conversion_TypeError.
Proof.
  induction v as [| |[]| | |items IH|fields] using value_items_ind; try reflexivity.
  - rewrite ToString_Arr, printed_Arr, convertible_Arr.
    assert (mapM element_string items =
            if forallb convertible items
            then Normal (map printed_element items)
            else throw_conversion_TypeError) as ->; [|by destruct (forallb _ _)].
    induction IH as [|x items Hx _ IHitems]; [reflexivity|].
    cbn [mapM forallb map]. rewrite IHitems.
    assert (element_string x =
            if convertible x then Normal (printed_element x)
            else throw_conversion_TypeError) as ->
      by (destruct x; try reflexivity; exact Hx).
    destruct (convertible x); [|reflexivity].
    by destruct (forallb convertible items).
  - cbn. by destruct (bool_decide _).
Qed.

Lemma String_eq (v : value) :
  String_ v =
    if convertible v then Normal (printed v) else throw_conversion_TypeError.
Proof. apply ToString_eq. Qed.

Lemma ToNumber_eq (v : value) :
  ToNumber v =
    if convertible v then Normal (numeric v) else throw_conversion_TypeError.
Proof.
  destruct v as [| |[]| | |items|fields]; try reflexivity;
    unfold ToNumber, numeric; rewrite ToString_eq; by destruct (convertible _).
Qed.

Lemma Number_eq (v : value) :
  Number_ v =
    if convertible v then Normal (numeric v) else throw_conversion_TypeError.
Proof. apply ToNumber_eq. Qed.

Lemma div_eq (a b : value) :
  div a b =
    if convertible a && convertible b then Normal (quotient a b)
    else throw_conversion_TypeError.
Proof.
  unfold div. rewrite !ToNumber_eq.
  destruct (convertible a); [|done]. by destruct (convertible b).
Qed.

Lemma String_if_eq (cond : bool) (v : value) :
  ResponseTransformers.String_if cond v =
    if negb cond || convertible v
    then Normal (if cond then Str (printed v) else Undefined)
    else throw_conversion_TypeError.
Proof.
  unfold ResponseTransformers.String_if. destruct cond; [|done].
  rewrite String_eq. by destruct (convertible v).
Qed.

End WithRuntime.

End ConversionFacts.

(** ** The response transformers *)
Module NormalizerFacts.
Import Js ResponseTransformers Doubles Conversions Normalized ConversionFacts.

Lemma get_truthy (v : value) (k : string) :
  ToBoolean v = true → get v k = Normal (get_opt v k).
Proof. by destruct v. Qed.

Lemma get_defined (v : value) (k : string) :
  nullish v = false → get v k = Normal (get_opt v k).
Proof. by destruct v. Qed.

Lemma or_truthy (a b : value) : ToBoolean a = true → or_else a b = a.
Proof. unfold or_else. by intros ->. Qed.

Lemma or_falsy (a b : value) : ToBoolean a = false → or_else a b = b.
Proof. unfold or_else. by intros ->. Qed.

Lemma or_truthy_r (a b : value) : ToBoolean b = true → ToBoolean (or_else a b) = true.
Proof. unfold or_else. by destruct (ToBoolean a) eqn:E. Qed.

Lemma or_string_nonempty (s : string) (b : value) : s ≠ "" → or_else (Str s) b = Str s.
Proof. intros Hs. unfold or_else. cbn. by rewrite bool_decide_eq_false_2. Qed.

Lemma or_nonempty_string (s : string) (b : value) :
  Str s ≠ Str "" → or_else (Str s) b = Str s.
Proof. intros Hs. apply or_string_nonempty. congruence. Qed.

Lemma or_string_default (s : string) : or_else (Str s) (Str "") = Str s.
Proof. unfold or_else; cbn. case_bool_decide; by subst. Qed.

Lemma mapM_Normal_id (f : value → completion value) (l : list value) :
  Forall (λ y, f y = Normal y) l → mapM f l = Normal l.
Proof.
  induction 1 as [|y l Hy _ IH]; [done|]. cbn. rewrite Hy. cbn. by rewrite IH.
Qed.

Section WithRuntime.
Context `{Runtime}.

(** *** The transformers return their literals *)

Lemma transformUser_eq (user : value) :
  transformUser user =
    if nullish user then throw_TypeError
    else if user_convertible user then Normal (user_literal user)
    else throw_conversion_TypeError.
Proof.
  destruct (nullish user) eqn:Hn; [by destruct user|].
  unfold transformUser, user_convertible. rewrite !(get_defined user) by done.
  cbn [mbind completion_bind]. rewrite !String_eq, String_if_eq.
  destruct (convertible (get_opt user "id")); [|done].
  destruct (convertible (or_else (get_opt user "name") _)); [|done].
  destruct (convertible (or_else (get_opt user "email") _)); [|done].
  by destruct (negb _ || convertible _).
Qed.

Lemma transformDoctor_eq (doctor : value) :
  transformDoctor doctor =
    if nullish doctor then throw_TypeError
    else if doctor_convertible doctor then Normal (doctor_literal doctor)
    else throw_conversion_TypeError.
Proof.
  unfold transformDoctor, doctor_convertible. rewrite transformUser_eq.
  destruct (nullish doctor) eqn:Hn; [done|].
  destruct (user_convertible doctor); [|done].
  cbn [mbind completion_bind]. rewrite get_defined by done.
  cbn [mbind completion_bind]. rewrite String_eq.
  by destruct (convertible _).
Qed.

Lemma transformPatient_eq (patient : value) :
  transformPatient patient =
    if nullish patient then throw_TypeError
    else if user_convertible patient then Normal (patient_literal patient)
    else throw_conversion_TypeError.
Proof.
  unfold transformPatient. rewrite transformUser_eq.
  destruct (nullish patient); [done|]. by destruct (user_convertible patient).
Qed.

Lemma truthy_not_nullish (v : value) : ToBoolean v = true → nullish v = false.
Proof. by destruct v. Qed.

Lemma convertible_or_now (a b : value) (now : string) :
  convertible (or_else a (or_else b (Str now))) = convertible (or_else a b).
Proof.
  unfold or_else. destruct (ToBoolean a); [done|].
  destruct (ToBoolean b) eqn:Hb; [done|]. by destruct b.
Qed.

Lemma nested_eq (t : value → completion value) (ok : value → bool)
    (literal : value → value) (v : value) :
  (∀ v, t v = if nullish v then throw_TypeError
              else if ok v then Normal (literal v)
              else throw_conversion_TypeError) →
  (if ToBoolean v then t v else mret Undefined) =
    if negb (ToBoolean v) || ok v
    then Normal (if ToBoolean v then literal v else Undefined)
    else throw_conversion_TypeError.
Proof.
  intros Ht. destruct (ToBoolean v) eqn:Hv; [|done].
  rewrite Ht, (truthy_not_nullish v) by done. by destruct (ok v).
Qed.

Lemma transformAppointment_eq (now1 now2 : string) (a : value) :
  transformAppointment now1 now2 a =
    if nullish a then throw_TypeError
    else if appointment_convertible a then Normal (appointment_literal now1 now2 a)
    else throw_conversion_TypeError.
Proof.
  destruct (nullish a) eqn:Hn; [by destruct a|].
  unfold transformAppointment, appointment_convertible.
  rewrite !(get_defined a) by done.
  cbn [mbind completion_bind]. rewrite !String_eq.
  rewrite (nested_eq _ _ _ _ transformDoctor_eq), (nested_eq _ _ _ _ transformPatient_eq).
  rewrite !convertible_or_now.
  destruct (convertible (get_opt a "id")); [|done].
  destruct (convertible (or_else (get_opt a "doctorId") _)); [|done].
  destruct (convertible (or_else (get_opt a "patientId") _)); [|done].
  destruct (convertible (get_opt a "date")); [|done].
  destruct (negb _ || doctor_convertible _); [|done].
  destruct (negb _ || user_convertible _); [|done].
  destruct (convertible (or_else (get_opt a "createdAt") _)); [|done].
  by destruct (convertible (or_else (get_opt a "updatedAt") _)).
Qed.

Lemma Array_map_data (f : value → completion value) (d : value) :
  Array_map f (if Array_isArray d then d else Arr []) = Arr <$> mapM f (array_items d).
Proof. by destruct d. Qed.

Lemma transformPaginatedResponse_eq (response : value) (f : value → completion value) :
  nullish response = false →
  transformPaginatedResponse response f =
    items ← mapM f (array_items (get_opt response "data"));
    if pagination_convertible (effective_pagination response)
    then mret (paginated_literal items (effective_pagination response))
    else throw_conversion_TypeError.
Proof.
  intros Hn. unfold transformPaginatedResponse, pagination_convertible.
  rewrite !(get_defined response) by done. cbn [mbind completion_bind].
  fold (effective_pagination response).
  assert (ToBoolean (effective_pagination response) = true) as Hpg
    by by apply or_truthy_r.
  rewrite !(get_truthy (effective_pagination response)) by done.
  rewrite Array_map_data. destruct (mapM f _) as [items|e]; [|done].
  cbn [fmap completion_fmap mbind completion_bind].
  rewrite !Number_eq, div_eq.
  destruct (convertible (or_else (get_opt _ "page") _)); [|done].
  destruct (convertible (or_else (get_opt _ "limit") _)); [|done].
  destruct (convertible (or_else (get_opt _ "total") _)); [|done].
  cbn [mbind completion_bind andb].
  unfold paginated_literal, pagination_literal.
  destruct (ToBoolean (get_opt _ "totalPages")) eqn:Htp.
  - rewrite (or_truthy _ _ Htp). cbn [negb orb].
    by destruct (convertible (get_opt _ "totalPages")).
  - rewrite (or_falsy _ _ Htp). reflexivity.
Qed.

Lemma transformPaginatedResponse_throws (response : value) (f : value → completion value) :
  nullish response = true →
  transformPaginatedResponse response f = throw_TypeError.
Proof. by destruct response. Qed.

(** *** The fields of the literals *)

Lemma user_literal_fields (user : value) :
  get_opt (user_literal user) "id" = Str (printed (get_opt user "id")) ∧
  get_opt (user_literal user) "name" =
    Str (printed (or_else (get_opt user "name") (Str ""))) ∧
  get_opt (user_literal user) "email" =
    Str (printed (or_else (get_opt user "email") (Str ""))) ∧
  get_opt (user_literal user) "role" =
    Str (if strict_eq_string (get_opt user "role") "DOCTOR"
         then "DOCTOR" else "PATIENT") ∧
  get_opt (user_literal user) "photo_url" =
    (if ToBoolean (get_opt user "photo_url")
     then Str (printed (get_opt user "photo_url")) else Undefined).
Proof. repeat split; reflexivity. Qed.

Lemma doctor_literal_fields (d : value) :
  get_opt (doctor_literal d) "id" = Str (printed (get_opt d "id")) ∧
  get_opt (doctor_literal d) "name" =
    Str (printed (or_else (get_opt d "name") (Str ""))) ∧
  get_opt (doctor_literal d) "email" =
    Str (printed (or_else (get_opt d "email") (Str ""))) ∧
  get_opt (doctor_literal d) "photo_url" =
    (if ToBoolean (get_opt d "photo_url")
     then Str (printed (get_opt d "photo_url")) else Undefined) ∧
  get_opt (doctor_literal d) "specialization" =
    Str (printed (or_else (get_opt d "specialization") (Str ""))).
Proof. repeat split; reflexivity. Qed.

Lemma patient_literal_fields (d : value) :
  get_opt (patient_literal d) "id" = Str (printed (get_opt d "id")) ∧
  get_opt (patient_literal d) "name" =
    Str (printed (or_else (get_opt d "name") (Str ""))) ∧
  get_opt (patient_literal d) "email" =
    Str (printed (or_else (get_opt d "email") (Str ""))) ∧
  get_opt (patient_literal d) "photo_url" =
    (if ToBoolean (get_opt d "photo_url")
     then Str (printed (get_opt d "photo_url")) else Undefined).
Proof. repeat split; reflexivity. Qed.

Lemma appointment_literal_fields (now1 now2 : string) (a : value) :
  get_opt (appointment_literal now1 now2 a) "id" = Str (printed (get_opt a "id")) ∧
  get_opt (appointment_literal now1 now2 a) "doctorId" =
    Str (printed (or_else (get_opt a "doctorId") (get_opt a "doctor_id"))) ∧
  get_opt (appointment_literal now1 now2 a) "doctor_id" = Undefined ∧
  get_opt (appointment_literal now1 now2 a) "patientId" =
    Str (printed (or_else (get_opt a "patientId") (get_opt a "patient_id"))) ∧
  get_opt (appointment_literal now1 now2 a) "patient_id" = Undefined ∧
  get_opt (appointment_literal now1 now2 a) "date" = Str (printed (get_opt a "date")) ∧
  get_opt (appointment_literal now1 now2 a) "status" =
    Str (status_literal (get_opt a "status")) ∧
  get_opt (appointment_literal now1 now2 a) "doctor" =
    (if ToBoolean (get_opt a "doctor")
     then doctor_literal (get_opt a "doctor") else Undefined) ∧
  get_opt (appointment_literal now1 now2 a) "patient" =
    (if ToBoolean (get_opt a "patient")
     then patient_literal (get_opt a "patient") else Undefined) ∧
  get_opt (appointment_literal now1 now2 a) "createdAt" =
    Str (printed (or_else (get_opt a "createdAt")
                     (or_else (get_opt a "created_at") (Str now1)))) ∧
  get_opt (appointment_literal now1 now2 a) "created_at" = Undefined ∧
  get_opt (appointment_literal now1 now2 a) "updatedAt" =
    Str (printed (or_else (get_opt a "updatedAt")
                     (or_else (get_opt a "updated_at") (Str now2)))) ∧
  get_opt (appointment_literal now1 now2 a) "updated_at" = Undefined.
Proof. repeat split; reflexivity. Qed.

Lemma pagination_literal_fields (p : value) :
  get_opt (pagination_literal p) "page" =
    Num (numeric (or_else (get_opt p "page") (Num 1))) ∧
  get_opt (pagination_literal p) "limit" =
    Num (numeric (or_else (get_opt p "limit") (Num 10))) ∧
  get_opt (pagination_literal p) "total" =
    Num (numeric (or_else (get_opt p "total") (Num 0))) ∧
  get_opt (pagination_literal p) "totalPages" =
    Num (numeric (or_else (get_opt p "totalPages")
        (Num (Math_ceil (quotient (or_else (get_opt p "total") (Num 0))
                             (or_else (get_opt p "limit") (Num 10))))))).
Proof. repeat split; reflexivity. Qed.

(** *** A second normalization *)

Lemma photo_url_stable (p : value) :
  (if ToBoolean p then Str (printed p) else Undefined) ≠ Str "" →
  (if ToBoolean (if ToBoolean p then Str (printed p) else Undefined)
   then Str (printed (if ToBoolean p then Str (printed p) else Undefined))
   else Undefined) = (if ToBoolean p then Str (printed p) else Undefined).
Proof.
  destruct (ToBoolean p); [|done]. intros Hp. cbn.
  case_bool_decide; [congruence|done].
Qed.

Lemma user_literal_idem (x : value) :
  get_opt (user_literal x) "photo_url" ≠ Str "" →
  user_literal (user_literal x) = user_literal x.
Proof.
  destruct (user_literal_fields x) as (Hid & Hname & Hemail & Hrole & Hphoto).
  intros Hp. unfold user_literal at 1.
  rewrite Hid, Hname, Hemail, Hrole. rewrite Hphoto in Hp |- *.
  rewrite !or_string_default, photo_url_stable by done.
  cbn [printed ToString]. unfold user_literal. repeat f_equal.
  by destruct (strict_eq_string _ _).
Qed.

Lemma doctor_literal_idem (d : value) :
  get_opt (doctor_literal d) "photo_url" ≠ Str "" →
  doctor_literal (doctor_literal d) = doctor_literal d.
Proof.
  destruct (doctor_literal_fields d) as (Hid & Hname & Hemail & Hphoto & Hspec).
  intros Hp. unfold doctor_literal at 1.
  rewrite Hid, Hname, Hemail, Hspec. rewrite Hphoto in Hp |- *.
  rewrite !or_string_default, photo_url_stable by done. reflexivity.
Qed.

Lemma patient_literal_idem (d : value) :
  get_opt (patient_literal d) "photo_url" ≠ Str "" →
  patient_literal (patient_literal d) = patient_literal d.
Proof.
  destruct (patient_literal_fields d) as (Hid & Hname & Hemail & Hphoto).
  intros Hp. unfold patient_literal at 1.
  rewrite Hid, Hname, Hemail. rewrite Hphoto in Hp |- *.
  rewrite !or_string_default, photo_url_stable by done. reflexivity.
Qed.

Lemma status_literal_idem (v : value) :
  status_literal (Str (status_literal v)) = status_literal v.
Proof.
  unfold status_literal.
  destruct (strict_eq_string v "COMPLETED"); [done|].
  by destruct (strict_eq_string v "CANCELLED").
Qed.

Lemma nested_doctor_stable (d : value) :
  get_opt (if ToBoolean d then doctor_literal d else Undefined) "photo_url" ≠ Str "" →
  (if ToBoolean (if ToBoolean d then doctor_literal d else Undefined)
   then doctor_literal (if ToBoolean d then doctor_literal d else Undefined)
   else Undefined) = (if ToBoolean d then doctor_literal d else Undefined).
Proof.
  destruct (ToBoolean d); [|done]. intros Hp. cbn. by rewrite doctor_literal_idem.
Qed.

Lemma nested_patient_stable (d : value) :
  get_opt (if ToBoolean d then patient_literal d else Undefined) "photo_url" ≠ Str "" →
  (if ToBoolean (if ToBoolean d then patient_literal d else Undefined)
   then patient_literal (if ToBoolean d then patient_literal d else Undefined)
   else Undefined) = (if ToBoolean d then patient_literal d else Undefined).
Proof.
  destruct (ToBoolean d); [|done]. intros Hp. cbn. by rewrite patient_literal_idem.
Qed.

Lemma appointment_literal_idem (now1 now2 now1' now2' : string) (a : value) :
  stable_appointment (appointment_literal now1 now2 a) →
  appointment_literal now1' now2' (appointment_literal now1 now2 a) =
  appointment_literal now1 now2 a.
Proof.
  destruct (appointment_literal_fields now1 now2 a)
    as (Hid & Hd & Hd' & Hp & Hp' & Hdate & Hst & Hdoc & Hpat & Hc & Hc' & Hu & Hu').
  unfold stable_appointment. rewrite Hd, Hp, Hc, Hu, Hdoc, Hpat.
  intros (Sd & Sp & Sc & Su & Sdoc & Spat).
  unfold appointment_literal at 1.
  rewrite Hid, Hd, Hd', Hp, Hp', Hdate, Hst, Hdoc, Hpat, Hc, Hc', Hu, Hu'.
  rewrite !or_nonempty_string by done.
  rewrite status_literal_idem, nested_doctor_stable, nested_patient_stable by done.
  reflexivity.
Qed.

Lemma or_total_stable (t : float) :
  ToBoolean (Num t) = true ∨ Num t = Num 0 → or_else (Num t) (Num 0) = Num t.
Proof. intros [Ht | Ht]; [by apply or_truthy|]. by rewrite Ht. Qed.

Lemma or_number_stable (n c : float) :
  ToBoolean (Num n) = true ∨ Num n = Num c → numeric (or_else (Num n) (Num c)) = n.
Proof.
  intros [Hn | Hn]; [by rewrite or_truthy|].
  unfold or_else. destruct (ToBoolean _); [done|]. by injection Hn as ->.
Qed.

Lemma pagination_literal_idem (p : value) :
  stable_pagination (pagination_literal p) →
  pagination_literal (pagination_literal p) = pagination_literal p.
Proof.
  destruct (pagination_literal_fields p) as (Hpage & Hlimit & Htotal & Htp).
  unfold stable_pagination. rewrite Hpage, Hlimit, Htotal, Htp.
  intros (Sp & Sl & St & Stp).
  unfold pagination_literal at 1. rewrite Hpage, Hlimit, Htotal, Htp.
  rewrite (or_truthy _ _ Sp), (or_truthy _ _ Sl), (or_total_stable _ St).
  rewrite (or_number_stable _ _ Stp). reflexivity.
Qed.

(** *** The literals can be converted *)

Lemma convertible_or_Str (s : string) (b : value) :
  convertible b = true → convertible (or_else (Str s) b) = true.
Proof. intros Hb. unfold or_else. by destruct (ToBoolean _). Qed.

Lemma convertible_or_Num (n m : float) : convertible (or_else (Num n) (Num m)) = true.
Proof. unfold or_else. by destruct (ToBoolean _). Qed.

Lemma convertible_photo (p : value) :
  negb (ToBoolean (if ToBoolean p then Str (printed p) else Undefined))
  || convertible (if ToBoolean p then Str (printed p) else Undefined) = true.
Proof. destruct (ToBoolean p); [apply orb_true_r|done]. Qed.

Lemma user_literal_convertible (x : value) : user_convertible (user_literal x) = true.
Proof.
  destruct (user_literal_fields x) as (Hid & Hname & Hemail & Hrole & Hphoto).
  unfold user_convertible. rewrite Hid, Hname, Hemail, Hphoto.
  by rewrite !convertible_or_Str, convertible_photo.
Qed.

Lemma doctor_literal_convertible (x : value) :
  doctor_convertible (doctor_literal x) = true.
Proof.
  destruct (doctor_literal_fields x) as (Hid & Hname & Hemail & Hphoto & Hspec).
  unfold doctor_convertible, user_convertible. rewrite Hid, Hname, Hemail, Hphoto, Hspec.
  by rewrite !convertible_or_Str, convertible_photo.
Qed.

Lemma patient_literal_convertible (x : value) :
  user_convertible (patient_literal x) = true.
Proof.
  destruct (patient_literal_fields x) as (Hid & Hname & Hemail & Hphoto).
  unfold user_convertible. rewrite Hid, Hname, Hemail, Hphoto.
  by rewrite !convertible_or_Str, convertible_photo.
Qed.

Lemma nested_convertible (ok : value → bool) (literal : value → value) (d : value) :
  (∀ x, ok (literal x) = true) →
  negb (ToBoolean (if ToBoolean d then literal d else Undefined))
  || ok (if ToBoolean d then literal d else Undefined) = true.
Proof. intros Hok. destruct (ToBoolean d); [|done]. by rewrite Hok, orb_true_r. Qed.

Lemma appointment_literal_convertible (now1 now2 : string) (a : value) :
  appointment_convertible (appointment_literal now1 now2 a) = true.
Proof.
  destruct (appointment_literal_fields now1 now2 a)
    as (Hid & Hd & Hd' & Hp & Hp' & Hdate & Hst & Hdoc & Hpat & Hc & Hc' & Hu & Hu').
  unfold appointment_convertible.
  rewrite Hid, Hd, Hd', Hp, Hp', Hdate, Hdoc, Hpat, Hc, Hc', Hu, Hu'.
  rewrite (nested_convertible _ _ _ doctor_literal_convertible).
  rewrite (nested_convertible _ _ _ patient_literal_convertible).
  by rewrite !convertible_or_Str.
Qed.

Lemma pagination_literal_convertible (p : value) :
  pagination_convertible (pagination_literal p) = true.
Proof.
  destruct (pagination_literal_fields p) as (Hpage & Hlimit & Htotal & Htp).
  unfold pagination_convertible. rewrite Hpage, Hlimit, Htotal, Htp.
  by rewrite !convertible_or_Num, orb_true_r.
Qed.

Lemma transformUser_returned (x y : value) :
  transformUser x = Normal y →
  nullish x = false ∧ user_convertible x = true ∧ y = user_literal x.
Proof.
  rewrite transformUser_eq. destruct (nullish x); [done|].
  destruct (user_convertible x); [|done]. by intros [= <-].
Qed.

Lemma transformAppointment_returned (now1 now2 : string) (x y : value) :
  transformAppointment now1 now2 x = Normal y →
  nullish x = false ∧ appointment_convertible x = true ∧
  y = appointment_literal now1 now2 x.
Proof.
  rewrite transformAppointment_eq. destruct (nullish x); [done|].
  destruct (appointment_convertible x); [|done]. by intros [= <-].
Qed.

Lemma transformPaginatedResponse_returned (f : value → completion value) (x y : value) :
  transformPaginatedResponse x f = Normal y →
  nullish x = false ∧
  pagination_convertible (effective_pagination x) = true ∧
  ∃ items, mapM f (array_items (get_opt x "data")) = Normal items ∧
           y = paginated_literal items (effective_pagination x).
Proof.
  intros Hx. destruct (nullish x) eqn:Hn;
    [by rewrite transformPaginatedResponse_throws in Hx|].
  rewrite transformPaginatedResponse_eq in Hx by done.
  destruct (mapM f _) as [items|] eqn:Hitems; [|done].
  cbn [mbind completion_bind] in Hx.
  destruct (pagination_convertible _); [|done].
  injection Hx as <-. eauto.
Qed.

Lemma transformUser_idem (x y : value) :
  transformUser x = Normal y → get_opt y "photo_url" ≠ Str "" →
  transformUser y = Normal y.
Proof.
  intros (_ & _ & ->)%transformUser_returned Hp.
  rewrite transformUser_eq, user_literal_convertible. cbn [nullish user_literal object].
  by rewrite user_literal_idem.
Qed.

Lemma transformAppointment_idem (now1 now2 now1' now2' : string) (x y : value) :
  transformAppointment now1 now2 x = Normal y → stable_appointment y →
  transformAppointment now1' now2' y = Normal y.
Proof.
  intros (_ & _ & ->)%transformAppointment_returned Hs.
  rewrite transformAppointment_eq, appointment_literal_convertible.
  cbn [nullish appointment_literal object]. by rewrite appointment_literal_idem.
Qed.

Lemma transformPaginatedResponse_idem (f : value → completion value) (x y : value) :
  transformPaginatedResponse x f = Normal y →
  stable_pagination (get_opt y "pagination") →
  (∀ item, item ∈ array_items (get_opt y "data") → f item = Normal item) →
  transformPaginatedResponse y f = Normal y.
Proof.
  intros (_ & _ & items & Hitems & ->)%transformPaginatedResponse_returned Hs Hf.
  rewrite transformPaginatedResponse_eq by done.
  change (get_opt (paginated_literal _ _) "data") with (Arr items) in *.
  change (get_opt (paginated_literal items ?p) "pagination")
    with (pagination_literal p) in *.
  cbn [array_items] in *.
  rewrite mapM_Normal_id by (by apply Forall_forall).
  unfold effective_pagination.
  change (get_opt (paginated_literal items ?p) "pagination")
    with (pagination_literal p).
  rewrite (or_truthy (pagination_literal _)) by done.
  rewrite pagination_literal_convertible.
  cbn [mbind completion_bind mret completion_ret].
  unfold paginated_literal. by rewrite pagination_literal_idem.
Qed.

(** *** The claims *)

(** C6, as amended: each normalizer maps its own output to itself when
    that output is stable.  For [transformUser]: the photo is not the
    empty string.  For [transformAppointment]: [doctorId], [patientId],
    [createdAt] and [updatedAt] are not the empty string, and neither is
    the photo of the nested doctor or patient; the clock may read anything
    at the second call.  For [transformPaginatedResponse]: [page] and
    [limit] are neither zero nor NaN, [total] is truthy or zero,
    [totalPages] is truthy or is ceil(total / limit), and the item
    transformer maps each item of the output to itself. *)
Theorem normalizers_idempotent_on_stable_output :
  (∀ x y,
     transformUser x = Normal y →
     get_opt y "photo_url" ≠ Str "" →
     transformUser y = Normal y) ∧
  (∀ now1 now2 now1' now2' x y,
     transformAppointment now1 now2 x = Normal y →
     stable_appointment y →
     transformAppointment now1' now2' y = Normal y) ∧
  (∀ f x y,
     transformPaginatedResponse x f = Normal y →
     stable_pagination (get_opt y "pagination") →
     (∀ item, item ∈ array_items (get_opt y "data") → f item = Normal item) →
     transformPaginatedResponse y f = Normal y).
Proof.
  split; [exact transformUser_idem|].
  split; [exact transformAppointment_idem|exact transformPaginatedResponse_idem].
Qed.

(** C7: when the pagination of a payload has no [totalPages] and the
    normalizer returns, [total] and [limit] of the result are the
    numbers [Number()] makes of [pagination.total || 0] and of
    [pagination.limit || 10], and [totalPages] is [Math.ceil] of their
    quotient, which is its ceiling: the least integer not below it.
    The normalizer does return, with the coerced [page], [limit] and
    [total], when the payload is not null or undefined, its [page],
    [limit] and [total] can be converted and the item transformer
    returns on every item. *)
Theorem totalPages_fallback (response : value) (f : value → completion value) :
  get_opt (effective_pagination response) "totalPages" = Undefined →
  (∀ out, transformPaginatedResponse response f = Normal out →
     Number_ (or_else (get_opt (effective_pagination response) "total") (Num 0))
       = Normal (coerced_total response) ∧
     Number_ (or_else (get_opt (effective_pagination response) "limit") (Num 10))
       = Normal (coerced_limit response) ∧
     get_opt (get_opt out "pagination") "total" = Num (coerced_total response) ∧
     get_opt (get_opt out "pagination") "limit" = Num (coerced_limit response) ∧
     get_opt (get_opt out "pagination") "totalPages" =
       Num (Math_ceil (PrimFloat.div (coerced_total response)
                                     (coerced_limit response)))) ∧
  is_ceiling (PrimFloat.div (coerced_total response) (coerced_limit response))
    (Math_ceil (PrimFloat.div (coerced_total response) (coerced_limit response))) ∧
  (nullish response = false →
   pagination_convertible (effective_pagination response) = true →
   transformPaginatedResponse response f =
     items ← mapM f (array_items (get_opt response "data"));
     mret (object [
       ("data", Arr items);
       ("pagination", object [
          ("page", Num (coerced_page response));
          ("limit", Num (coerced_limit response));
          ("total", Num (coerced_total response));
          ("totalPages",
            Num (Math_ceil (PrimFloat.div (coerced_total response)
                                          (coerced_limit response))))])])).
Proof.
  intros Htp. split; [|split].
  - intros out (Hn & Hok & items & _ & ->)%transformPaginatedResponse_returned.
    unfold pagination_convertible in Hok.
    apply andb_true_iff in Hok as [Hok _].
    apply andb_true_iff in Hok as [Hok Htotal].
    apply andb_true_iff in Hok as [_ Hlimit].
    rewrite !Number_eq, Htotal, Hlimit.
    change (get_opt (paginated_literal items ?p) "pagination")
      with (pagination_literal p).
    destruct (pagination_literal_fields (effective_pagination response))
      as (_ & -> & -> & ->).
    rewrite Htp. done.
  - apply CeilingFacts.Math_ceil_is_ceiling.
  - intros Hn Hok. rewrite transformPaginatedResponse_eq, Hok by done.
    unfold paginated_literal, pagination_literal. rewrite Htp. reflexivity.
Qed.

(** C9, as amended: a payload whose [data] is not an array is normalized
    to an empty [data] list whenever the normalizer returns, and it
    returns when the four numbers of the pagination can be converted; a
    payload with no [pagination] gets page 1, limit 10, total 0 and
    totalPages 0 (the call then fails only when the item transformer
    does).  A payload is a value whose properties can be read: not null
    or undefined. *)
Theorem transformPaginatedResponse_defaults :
  (∀ response f,
     nullish response = false →
     Array_isArray (get_opt response "data") = false →
     pagination_convertible (effective_pagination response) = true →
     ∃ pagination,
       transformPaginatedResponse response f =
         Normal (object [("data", Arr []); ("pagination", pagination)])) ∧
  (∀ response f out,
     Array_isArray (get_opt response "data") = false →
     transformPaginatedResponse response f = Normal out →
     get_opt out "data" = Arr []) ∧
  (∀ response f,
     nullish response = false →
     get_opt response "pagination" = Undefined →
     transformPaginatedResponse response f =
       items ← mapM f (array_items (get_opt response "data"));
       mret (object [
         ("data", Arr items);
         ("pagination", object [
            ("page", Num 1); ("limit", Num 10); ("total", Num 0);
            ("totalPages", Num 0)])])).
Proof.
  split; [|split].
  - intros response f Hn Hd Hok. eexists.
    rewrite transformPaginatedResponse_eq, Hok by done.
    destruct (get_opt response "data"); try discriminate Hd; reflexivity.
  - intros response f out Hd
      (_ & _ & items & Hitems & ->)%transformPaginatedResponse_returned.
    destruct (get_opt response "data"); try discriminate Hd;
      by injection Hitems as <-.
  - intros response f Hn Hp.
    rewrite transformPaginatedResponse_eq by done.
    unfold effective_pagination. rewrite Hp. reflexivity.
Qed.

(** C10: [transformUser] keeps the role "DOCTOR" and maps every other
    role (missing, null, or any other value) to "PATIENT": whenever it
    returns, the role of the normalized user is one of the two.  It
    returns on every payload that is not null or undefined and whose
    [id], [name], [email] and [photo_url] can be converted. *)
Theorem transformUser_role (user : value) :
  (nullish user = false → user_convertible user = true →
   ∃ out, transformUser user = Normal out) ∧
  (∀ out, transformUser user = Normal out →
     (get_opt user "role" = Str "DOCTOR" → get_opt out "role" = Str "DOCTOR") ∧
     (get_opt user "role" ≠ Str "DOCTOR" → get_opt out "role" = Str "PATIENT") ∧
     (get_opt out "role" = Str "DOCTOR" ∨ get_opt out "role" = Str "PATIENT")).
Proof.
  split.
  { intros Hn Hok. exists (user_literal user). by rewrite transformUser_eq, Hn, Hok. }
  intros out (_ & _ & ->)%transformUser_returned.
  destruct (user_literal_fields user) as (_ & _ & _ & -> & _).
  split; [by intros ->|]. split.
  - intros Hr. destruct (get_opt user "role") as [| | | |s| |]; try done.
    cbn. case_bool_decide; [congruence|done].
  - destruct (strict_eq_string _ _); [by left|by right].
Qed.

End WithRuntime.

(** *** Examples, on the reference runtime *)
Import RefRuntime.

Example transformUser_ann : transformUser user_ann = Normal normalized_ann.
Proof. reflexivity. Qed.

Example transformAppointment_raw_appointment :
  transformAppointment at_8 at_9 raw_appointment = Normal normalized_appointment.
Proof. reflexivity. Qed.

Example transformPaginatedResponse_raw_page :
  transformPaginatedResponse raw_page (transformAppointment at_8 at_9) =
  Normal normalized_page.
Proof. reflexivity. Qed.

Example Math_ceil_samples :
  Math_ceil 2.5 = 3%float ∧ Math_ceil 3 = 3%float ∧ Math_ceil 0 = 0%float ∧
  Math_ceil (-2.5) = (-2)%float ∧ Math_ceil PrimFloat.nan = PrimFloat.nan.
Proof. repeat split; reflexivity. Qed.

Lemma normalizers_idempotent_witness :
  transformUser normalized_ann = Normal normalized_ann ∧
  transformAppointment "2024-03-01T00:00:00.000Z" "2024-03-01T00:00:01.000Z"
      normalized_appointment = Normal normalized_appointment ∧
  transformPaginatedResponse normalized_page (transformAppointment at_8 at_9) =
    Normal normalized_page.
Proof.
  split; [|split].
  - apply (proj1 normalizers_idempotent_on_stable_output user_ann).
    + reflexivity.
    + vm_compute. discriminate.
  - apply (proj1 (proj2 normalizers_idempotent_on_stable_output)
             at_8 at_9 _ _ raw_appointment).
    + reflexivity.
    + vm_compute. repeat split; discriminate.
  - apply (proj2 (proj2 normalizers_idempotent_on_stable_output)
             (transformAppointment at_8 at_9) raw_page).
    + reflexivity.
    + vm_compute. repeat split; (by left) || (by right).
    + intros item [->|[]%elem_of_nil]%elem_of_cons. reflexivity.
Defined.

(** C6, the counterexample: three payloads whose normal form is not
    normalized to itself.  A photo given as the empty array becomes the
    empty string and then [undefined]; an empty [doctor_id] becomes the
    empty [doctorId] and then "undefined"; the page "0" becomes 0 and
    then 1. *)
Lemma normalizers_not_idempotent :
  (∃ y, transformUser user_with_empty_photo = Normal y ∧
        get_opt y "photo_url" = Str "" ∧
        transformUser y ≠ Normal y) ∧
  (∃ y, transformAppointment at_8 at_9 appointment_with_empty_doctor = Normal y ∧
        get_opt y "doctorId" = Str "" ∧
        transformAppointment at_8 at_9 y ≠ Normal y) ∧
  (∃ y, transformPaginatedResponse page_zero transformUser = Normal y ∧
        get_opt (get_opt y "pagination") "page" = Num 0 ∧
        transformPaginatedResponse y transformUser ≠ Normal y).
Proof.
  split; [|split]; eexists; (split; [reflexivity|]);
    (split; [reflexivity|]); intros Heq.
  - apply (f_equal (λ r, match r with
                         | Normal v => get_opt v "photo_url"
                         | Throw _ => Null
                         end)) in Heq.
    vm_compute in Heq. discriminate Heq.
  - apply (f_equal (λ r, match r with
                         | Normal v => get_opt v "doctorId"
                         | Throw _ => Null
                         end)) in Heq.
    vm_compute in Heq. discriminate Heq.
  - apply (f_equal (λ r, match r with
                         | Normal v => get_opt (get_opt v "pagination") "page"
                         | Throw _ => Null
                         end)) in Heq.
    vm_compute in Heq. discriminate Heq.
Qed.

Lemma totalPages_fallback_witness :
  get_opt (get_opt normalized_page "pagination") "totalPages" =
    Num (Math_ceil (PrimFloat.div (coerced_total raw_page) (coerced_limit raw_page))) ∧
  Math_ceil (PrimFloat.div (coerced_total raw_page) (coerced_limit raw_page)) = 3%float.
Proof.
  split; [|reflexivity].
  apply (proj1 (totalPages_fallback raw_page (transformAppointment at_8 at_9)
                  eq_refl) normalized_page).
  reflexivity.
Defined.

(** C9, the counterexample: the [data] of this payload is not an array,
    and the normalizer fails on it, whatever the item transformer:
    [Number()] throws a [TypeError] on its [page], an object with an own
    property [toString] that is not a function. *)
Lemma transformPaginatedResponse_fails_without_list :
  Array_isArray (get_opt reply_with_odd_page "data") = false ∧
  ∀ f, transformPaginatedResponse reply_with_odd_page f = Throw conversion_TypeError.
Proof. split; reflexivity. Qed.

Lemma transformPaginatedResponse_defaults_witness :
  (∃ pagination,
     transformPaginatedResponse reply_without_list transformUser =
       Normal (object [("data", Arr []); ("pagination", pagination)])) ∧
  transformPaginatedResponse reply_without_list transformUser =
    items ← mapM transformUser (array_items (get_opt reply_without_list "data"));
    mret (object [
      ("data", Arr items);
      ("pagination", object [
         ("page", Num 1); ("limit", Num 10); ("total", Num 0);
         ("totalPages", Num 0)])]).
Proof.
  split.
  - apply (proj1 transformPaginatedResponse_defaults reply_without_list transformUser);
      reflexivity.
  - apply (proj2 (proj2 transformPaginatedResponse_defaults)
             reply_without_list transformUser); reflexivity.
Defined.

Lemma transformUser_role_witness :
  (∃ out, transformUser user_ann = Normal out) ∧
  get_opt normalized_ann "role" = Str "PATIENT".
Proof.
  split.
  - apply (proj1 (transformUser_role user_ann)); reflexivity.
  - apply (proj2 (transformUser_role user_ann) normalized_ann); [reflexivity|].
    discriminate.
Defined.

End NormalizerFacts.

(** ** The retry policies *)
Module RetryFacts.
Import Js ErrorHandling ReactQuery Failing.

(** An error with no truthy [response.status] is retried by the query
    policy until it has failed three times, whatever its [status]. *)
Lemma queries_retry_without_response `{Runtime} (failureCount : nat) (error : thrown) :
  ToBoolean (get_opt (get_opt (thrown_value error) "response") "status") = false →
  queries_retry failureCount error = Normal (bool_decide (failureCount < 3)).
Proof. unfold queries_retry. by intros ->. Qed.

Lemma run_query_always_fails `{Runtime} {A} (error : thrown) (fuel : nat) :
  ToBoolean (get_opt (get_opt (thrown_value error) "response") "status") = false →
  4 ≤ fuel →
  run_query (always_fails (A:=A) error) fuel = Some (Throw error, 4).
Proof.
  intros He Hfuel. unfold run_query.
  do 4 (destruct fuel as [|fuel]; [lia|]).
  cbn. by rewrite !queries_retry_without_response.
Qed.

(** The errors the transport of this repository throws carry no
    [response]. *)
Lemma api_error_without_response (status : float) :
  get_opt (get_opt (thrown_value (api_error status)) "response") "status" = Undefined.
Proof. reflexivity. Qed.

(** C2, the code at the inputs of the claim.  A query function that
    always rejects with the error the transport throws for a 404,
    [{message, status: 404, code}], is invoked 4 times under
    [queryConfig.queries.retry] (as it is for any status), and 4 times
    under [errorUtils.retry]; only a raw axios error, whose status sits
    under [response], is not retried.  A query function that always
    rejects with a 500 is invoked 4 times in either shape, and one that
    rejects three times and then resolves is invoked 4 times too. *)
Theorem query_retry_policy `{Runtime} :
  run_query (always_fails (A:=value) (api_error 404)) 4
    = Some (Throw (api_error 404), 4) ∧
  (∀ status, run_query (always_fails (A:=value) (api_error status)) 4
               = Some (Throw (api_error status), 4)) ∧
  invocations <$> retry (always_fails (A:=value) (api_error 404)) 3 1000 4 = Some 4 ∧
  run_query (always_fails (A:=value) (axios_error 404)) 4
    = Some (Throw (axios_error 404), 1) ∧
  run_query (always_fails (A:=value) (api_error 500)) 4
    = Some (Throw (api_error 500), 4) ∧
  run_query (always_fails (A:=value) (axios_error 500)) 4
    = Some (Throw (axios_error 500), 4) ∧
  run_query (fails_then 3 (api_error 500) (Str "data")) 4
    = Some (Normal (Str "data"), 4).
Proof.
  split; [reflexivity|]. split; [|repeat split; reflexivity].
  intros status. by apply run_query_always_fails.
Qed.

(** The assertions of the repository's test of the query policy. *)
Example queries_retry_as_tested `{Runtime} :
  queries_retry 1 (axios_error 400) = Normal false ∧
  queries_retry 1 (axios_error 404) = Normal false ∧
  queries_retry 1 (axios_error 500) = Normal true ∧
  queries_retry 2 (axios_error 500) = Normal true ∧
  queries_retry 3 (axios_error 500) = Normal false ∧
  queries_retry 1 (Thrown None (object [("code", Str "NETWORK_ERROR")])) = Normal true.
Proof. repeat split; reflexivity. Qed.

(** The classes of [lib/error-handling.ts] are told apart by
    [instanceof] or by their status. *)
Example error_kinds :
  isAuthError (Thrown (Some AuthenticationError)
                 (object [("message", Str "Session expired"); ("status", Num 401)]))
    = true ∧
  isAuthError (api_error 401) = true ∧
  isAuthorizationError (api_error 403) = true ∧
  isValidationError (api_error 400) = true ∧
  isValidationError (api_error 404) = false.
Proof. repeat split; reflexivity. Qed.

Example errorUtils_retry_samples :
  retry (always_fails (A:=value) (api_error 500)) 3 1000 4
    = Some (Run (Throw (api_error 500)) 4 [1000; 2000; 4000]%float) ∧
  retry (always_fails (A:=value) (api_error 400)) 3 1000 4
    = Some (Run (Throw (api_error 400)) 1 []) ∧
  retry (always_fails (A:=value) (api_error 401)) 3 1000 4
    = Some (Run (Throw (api_error 401)) 1 []) ∧
  retry (always_fails (A:=value) (api_error 403)) 3 1000 4
    = Some (Run (Throw (api_error 403)) 1 []).
Proof. repeat split; reflexivity. Qed.

Lemma run_mutation_cases {A} (mutationFn : nat → completion A) (fuel : nat) :
  2 ≤ fuel →
  run_mutation mutationFn fuel =
    match mutationFn 0 with
    | Normal a => Some (Normal a, 1)
    | Throw _ =>
        match mutationFn 1 with
        | Normal a => Some (Normal a, 2)
        | Throw e => Some (Throw e, 2)
        end
    end.
Proof.
  intros Hfuel. do 2 (destruct fuel as [|fuel]; [lia|]).
  unfold run_mutation. cbn. destruct (mutationFn 0); [done|].
  by destruct (mutationFn 1).
Qed.

(** C4, as amended: a mutation function is invoked at most twice; it is
    invoked once when its first invocation resolves, and a second time
    when its first invocation rejects, whatever the error, the second
    completion being the mutation's. *)
Theorem mutation_retried_once_whatever_the_error {A}
    (mutationFn : nat → completion A) :
  (∀ fuel, 2 ≤ fuel →
     ∃ r n, run_mutation mutationFn fuel = Some (r, n) ∧ n ≤ 2) ∧
  (∀ fuel a, 2 ≤ fuel → mutationFn 0 = Normal a →
     run_mutation mutationFn fuel = Some (Normal a, 1)) ∧
  (∀ fuel e, 2 ≤ fuel → mutationFn 0 = Throw e →
     run_mutation mutationFn fuel = Some (mutationFn 1, 2)).
Proof.
  split; [|split].
  - intros fuel Hfuel. rewrite run_mutation_cases by done.
    destruct (mutationFn 0); [eauto|]. destruct (mutationFn 1); eauto.
  - intros fuel a Hfuel Ha. by rewrite run_mutation_cases, Ha.
  - intros fuel e Hfuel He. rewrite run_mutation_cases, He by done.
    by destruct (mutationFn 1).
Qed.

Lemma mutation_retried_once_witness :
  run_mutation (always_fails (A:=value) (api_error 500)) 2
    = Some (Throw (api_error 500), 2).
Proof.
  apply (proj2 (proj2 (mutation_retried_once_whatever_the_error
           (always_fails (A:=value) (api_error 500)))) 2 (api_error 500)).
  - lia.
  - reflexivity.
Defined.

(** C4, the counterexample: a mutation function that always rejects with
    a validation error (status 400) is invoked twice. *)
Lemma validation_error_is_retried :
  isValidationError (api_error 400) = true ∧
  run_mutation (always_fails (A:=value) (api_error 400)) 2
    = Some (Throw (api_error 400), 2).
Proof. split; reflexivity. Qed.

End RetryFacts.

(** ** The session store *)
Module SessionFacts.
Import AuthService AuthStore Session.

Lemma initialize_cases (w : World) :
  (∃ t u, getToken (storage w) = Some t ∧ t ≠ "" ∧
          getUser (storage w) = Some u ∧
          store (initialize w) = signed_in u t) ∨
  ((getToken (storage w) = None ∨ getToken (storage w) = Some "" ∨
    getUser (storage w) = None) ∧
   store (initialize w) = signed_out).
Proof.
  unfold initialize, token_and_user.
  destruct (getToken (storage w)) as [t|]; [|right; by eauto].
  destruct (getUser (storage w)) as [u|]; [|right; by eauto].
  case_bool_decide as Ht; [right; subst; by eauto|left; by eauto 10].
Qed.

(** The login scenario: the store is loading while the service is
    awaited, then signed in; a rejection leaves it signed out with the
    message of the error. *)
Example login_scenario :
  isLoading (store (step fresh_start (Begin login))) = true ∧
  store (step (step fresh_start (Begin login)) (Fulfilled login john "tok"))
    = signed_in john "tok" ∧
  storage (step (step fresh_start (Begin login)) (Fulfilled login john "tok"))
    = {| auth_token := Some "tok"; user_data := Some john |} ∧
  store (step (step fresh_start (Begin login))
          (Rejected login (Js.Thrown (Some Js.Error)
             (Js.object [("message", Js.Str "Invalid credentials")]))))
    = {| user := None; token := None; isAuthenticated := false;
         isLoading := false; error := Some "Invalid credentials" |} ∧
  store (step (step (step fresh_start (Begin login))
                (Fulfilled login john "tok")) Logout) = signed_out.
Proof. repeat split; reflexivity. Qed.

(** C3, as amended: in every reachable state of the session store the
    authenticated flag is true exactly when the token is not null; so it
    is true whenever both the user and the token are not null. *)
Theorem authenticated_iff_token (w : World) :
  reachable w →
  (isAuthenticated (store w) = true ↔ token (store w) ≠ None) ∧
  (user (store w) ≠ None ∧ token (store w) ≠ None →
   isAuthenticated (store w) = true).
Proof.
  intros Hw.
  assert (isAuthenticated (store w) = true ↔ token (store w) ≠ None) as Hinv.
  { induction Hw as [ls|w ev _ IH]; [done|].
    destruct ev; cbn; try done.
    destruct (initialize_cases w) as [(t & u & _ & _ & _ & ->)|[_ ->]]; done. }
  split; [done|]. intros [_ Ht]. by apply Hinv.
Qed.

Lemma authenticated_iff_token_witness :
  isAuthenticated (store (step (step fresh_start (SetUser john)) (SetToken "tok")))
    = true ↔
  token (store (step (step fresh_start (SetUser john)) (SetToken "tok"))) ≠ None.
Proof.
  apply (authenticated_iff_token
           (step (step fresh_start (SetUser john)) (SetToken "tok"))).
  do 2 apply reachable_step. apply reachable_initial.
Defined.

(** C3, the counterexample: [setToken] on the initial state gives a
    reachable state that is authenticated and has no user. *)
Lemma setToken_authenticates_without_user :
  reachable (step fresh_start (SetToken "tok")) ∧
  isAuthenticated (store (step fresh_start (SetToken "tok"))) = true ∧
  user (store (step fresh_start (SetToken "tok"))) = None ∧
  ¬ (isAuthenticated (store (step fresh_start (SetToken "tok"))) = true ↔
     user (store (step fresh_start (SetToken "tok"))) ≠ None ∧
     token (store (step fresh_start (SetToken "tok"))) ≠ None).
Proof.
  split; [apply reachable_step, reachable_initial|].
  split; [done|]. split; [done|]. cbn. intros [Hauth _].
  by destruct (Hauth eq_refl) as [Huser _].
Qed.

(** C5, as amended: [initialize] leaves the store signed out when the
    persisted token or the persisted user is missing, and also when the
    persisted token is the empty string; with a persisted user and a
    persisted token that is not empty it leaves the store authenticated,
    with exactly that user and that token. *)
Theorem initialize_rehydrates (w : World) :
  (getToken (storage w) = None ∨ getUser (storage w) = None →
   store (initialize w) = signed_out) ∧
  (getToken (storage w) = Some "" → store (initialize w) = signed_out) ∧
  (∀ t u, getToken (storage w) = Some t → t ≠ "" →
          getUser (storage w) = Some u →
          store (initialize w) = signed_in u t).
Proof.
  destruct (initialize_cases w) as [(t & u & Ht & Hne & Hu & ->)|[H ->]].
  - split; [intros [?|?]; congruence|]. split; [congruence|].
    intros t' u' Ht' _ Hu'. congruence.
  - split; [done|]. split; [done|]. intros t u Ht Hne Hu.
    destruct H as [?|[?|?]]; congruence.
Qed.

Lemma initialize_rehydrates_witness :
  store (initialize (persisted "tok" john)) = signed_in john "tok".
Proof.
  apply (proj2 (proj2 (initialize_rehydrates (persisted "tok" john)))).
  - reflexivity.
  - discriminate.
  - reflexivity.
Defined.

(** C5, the counterexample: with a persisted user and a persisted token
    that is the empty string, [initialize] leaves the store signed out. *)
Lemma initialize_empty_token_signed_out :
  getToken (storage (persisted "" john)) = Some "" ∧
  getUser (storage (persisted "" john)) = Some john ∧
  store (initialize (persisted "" john)) = signed_out.
Proof. done. Qed.

End SessionFacts.

(** ** The notifications of the UI store *)
Module NotificationFacts.
Import UIStore Lifetime.

Lemma elem_of_schedule (t x : Timer) (q : list Timer) :
  x ∈ schedule t q ↔ x = t ∨ x ∈ q.
Proof.
  induction q as [|t' q IH]; cbn.
  - rewrite list_elem_of_singleton, elem_of_nil. tauto.
  - destruct (due t <? due t')%Z.
    + by rewrite elem_of_cons.
    + rewrite !elem_of_cons, IH. tauto.
Qed.

Lemma present_with_ui (i : string) (f : UIState → UIState) (w : World) :
  notifications (f (ui w)) = notifications (ui w) →
  present i (with_ui f w) ↔ present i w.
Proof. unfold present. cbn. by intros ->. Qed.

Lemma present_removeNotification (i j : string) (w : World) :
  present i (with_ui (removeNotification j) w) ↔ present i w ∧ i ≠ j.
Proof.
  unfold present. cbn. split.
  - intros (n & [Hj Hn]%list_elem_of_filter & <-). eauto.
  - intros [(n & Hn & <-) Hij]. exists n. split; [|done].
    by apply list_elem_of_filter.
Qed.

Lemma present_fire (i : string) (fired : list Timer) (s : UIState) :
  (∃ n, n ∈ notifications (foldl (λ s x, removeNotification (target x) s) s fired)
        ∧ id n = i) ↔
  (∃ n, n ∈ notifications s ∧ id n = i) ∧ i ∉ target <$> fired.
Proof.
  revert s. induction fired as [|x fired IH]; intros s; cbn.
  - rewrite elem_of_nil. tauto.
  - rewrite IH. rewrite not_elem_of_cons. cbn. split.
    + intros [(n & [Hx Hn]%list_elem_of_filter & <-) Hf]. eauto.
    + intros [(n & Hn & <-) [Hx Hf]]. split; [|done].
      exists n. split; [|done]. by apply list_elem_of_filter.
Qed.

Lemma now_addNotification (g : string) (n : NotificationData) (w : World) :
  now (addNotification g n w) = now w.
Proof. unfold addNotification. by destruct (_ && _). Qed.

Lemma notifications_addNotification (g : string) (n : NotificationData) (w : World) :
  notifications (ui (addNotification g n w)) =
  notifications (ui w) ++
    [{| id := g; type := data_type n; message := data_message n;
        duration := Some (effective_duration n) |}].
Proof. unfold addNotification. by destruct (_ && _). Qed.

Lemma present_addNotification (i g : string) (n : NotificationData) (w : World) :
  present i (addNotification g n w) ↔ present i w ∨ i = g.
Proof.
  unfold present. rewrite notifications_addNotification. split.
  - intros (x & [Hx| ->%list_elem_of_singleton]%elem_of_app & <-);
      [left; eauto|by right].
  - intros [(x & Hx & <-)| ->].
    + exists x. split; [|done]. apply elem_of_app. by left.
    + eexists. split;
        [apply elem_of_app; right; by apply list_elem_of_singleton|done].
Qed.

Lemma timers_addNotification (g : string) (n : NotificationData) (w : World)
    (x : Timer) :
  x ∈ timers (addNotification g n w) ↔
  x ∈ timers w ∨
  ((0 < effective_duration n)%Z ∧
   x = {| due := (now w + effective_duration n)%Z; target := g |}).
Proof.
  unfold addNotification. fold (effective_duration n).
  destruct (negb (effective_duration n =? 0)%Z && (0 <? effective_duration n)%Z)
    eqn:Hd; cbn.
  - rewrite elem_of_schedule. apply andb_true_iff in Hd as [_ Hd%Z.ltb_lt]. tauto.
  - split; [tauto|]. intros [?|[Hpos _]]; [done|].
    apply andb_false_iff in Hd as [Hd|Hd%Z.ltb_ge]; [|lia].
    apply negb_false_iff, Z.eqb_eq in Hd. lia.
Qed.

Lemma present_advance (i : string) (ms : N) (w : World) :
  present i (advance ms w) ↔
  present i w ∧
  ∀ x, x ∈ timers w → (due x ≤ now w + Z.of_N ms)%Z → target x ≠ i.
Proof.
  unfold present, advance. cbn. rewrite present_fire.
  split; intros [Hp Hf]; (split; [done|]).
  - intros x Hx Hdue <-. apply Hf, list_elem_of_fmap. exists x. split; [done|].
    by apply list_elem_of_filter.
  - intros (x & -> & [Hdue Hx]%list_elem_of_filter)%list_elem_of_fmap.
    by eapply Hf.
Qed.

Lemma timers_advance (ms : N) (w : World) (x : Timer) :
  x ∈ timers (advance ms w) ↔ x ∈ timers w ∧ (now w + Z.of_N ms < due x)%Z.
Proof.
  unfold advance. cbn. rewrite list_elem_of_filter.
  split; intros [? ?]; split; done || lia.
Qed.

Lemma elapsed_cons (ev : event) (evs : list event) :
  elapsed (ev :: evs) =
  match ev with Advance ms => (Z.of_N ms + elapsed evs)%Z | _ => elapsed evs end.
Proof. done. Qed.

Lemma now_step (w : World) (ev : event) :
  now (step w ev) =
  match ev with Advance ms => (now w + Z.of_N ms)%Z | _ => now w end.
Proof. destruct ev; cbn; by rewrite ?now_addNotification. Qed.

Lemma run_cons (w : World) (ev : event) (evs : list event) :
  run w (ev :: evs) = run (step w ev) evs.
Proof. done. Qed.

Lemma now_run (w : World) (evs : list event) :
  now (run w evs) = (now w + elapsed evs)%Z.
Proof.
  revert w. induction evs as [|ev evs IH]; intros w; [cbn; lia|].
  rewrite run_cons, IH, now_step, (elapsed_cons ev evs). destruct ev; lia.
Qed.

Lemma step_pending_or_gone (T : Timer) (w : World) (ev : event) :
  adds (target T) ev = false →
  pending_or_gone T w → pending_or_gone T (step w ev).
Proof.
  intros Hev Hinv. destruct ev as [b|g n|j| |m|m|m| |ms]; cbn [step].
  1, 5, 6, 7, 8:
    (destruct Hinv as [Hp|Hg]; [by left|right; by rewrite present_with_ui]).
  - cbn in Hev. apply bool_decide_eq_false in Hev.
    destruct Hinv as [[HT Hnow]|Hg].
    + left. rewrite now_addNotification. split; [|done].
      apply timers_addNotification. by left.
    + right. rewrite present_addNotification. intros [?|?]; [done|congruence].
  - destruct Hinv as [Hp|Hg]; [by left|right].
    rewrite present_removeNotification. tauto.
  - destruct Hinv as [Hp|Hg]; [by left|right].
    unfold present. cbn. intros (n & Hn & _). by apply elem_of_nil in Hn.
  - destruct Hinv as [[HT Hnow]|Hg].
    + destruct (decide (due T ≤ now w + Z.of_N ms)%Z) as [Hdue|Hdue].
      * right. rewrite present_advance. intros [_ Hf]. by apply (Hf T).
      * left. split; [apply timers_advance; split; [done|lia]|cbn; lia].
    + right. rewrite present_advance. tauto.
Qed.

Lemma run_pending_or_gone (T : Timer) (w : World) (evs : list event) :
  Forall (λ ev, adds (target T) ev = false) evs →
  pending_or_gone T w → pending_or_gone T (run w evs).
Proof.
  intros Hevs. revert w.
  induction Hevs as [|ev evs Hev _ IH]; intros w Hinv; [done|].
  rewrite run_cons. by apply IH, step_pending_or_gone.
Qed.

Lemma step_persistent (i : string) (w : World) (ev : event) :
  adds i ev = false → removes i ev = false →
  persistent i w → persistent i (step w ev).
Proof.
  intros Ha Hr [Hp Ht]. destruct ev as [b|g n|j| |m|m|m| |ms]; cbn [step].
  1, 5, 6, 7, 8: (split; [by rewrite present_with_ui|done]).
  - cbn in Ha. apply bool_decide_eq_false in Ha. split.
    + apply present_addNotification. by left.
    + intros x [Hx|[_ ->]]%timers_addNotification; [by apply Ht|done].
  - cbn in Hr. apply bool_decide_eq_false in Hr. split; [|done].
    apply present_removeNotification. split; [done|congruence].
  - discriminate Hr.
  - split.
    + apply present_advance. split; [done|]. intros x Hx _. by apply Ht.
    + intros x [Hx _]%timers_advance. by apply Ht.
Qed.

Lemma run_persistent (i : string) (w : World) (evs : list event) :
  Forall (λ ev, adds i ev = false ∧ removes i ev = false) evs →
  persistent i w → persistent i (run w evs).
Proof.
  intros Hevs. revert w.
  induction Hevs as [|ev evs [Ha Hr] _ IH]; intros w Hinv; [done|].
  rewrite run_cons. by apply IH, step_persistent.
Qed.

(** C8: [addNotification] appends the notification under the generated
    id, with its duration or 5000 when it has none, so it is present when
    the call returns.  With a positive duration D it is absent after any
    run of events that lasts D ms or more and generates the same id for no
    other notification.  With duration 0, and no pending timer for its id,
    it stays present through any run of events that neither generates
    its id again nor removes it ([removeNotification] of its id,
    [clearNotifications]), however long; [removeNotification] of its id
    makes it absent. *)
Theorem notification_lifetime (w : World) (g : string) (n : NotificationData) :
  (data_duration n = None → effective_duration n = 5000%Z) ∧
  notifications (ui (addNotification g n w)) =
    notifications (ui w) ++
      [{| id := g; type := data_type n; message := data_message n;
          duration := Some (effective_duration n) |}] ∧
  present g (addNotification g n w) ∧
  ((0 < effective_duration n)%Z →
   ∀ evs, Forall (λ ev, adds g ev = false) evs →
          (effective_duration n ≤ elapsed evs)%Z →
          ¬ present g (run (addNotification g n w) evs)) ∧
  (effective_duration n = 0%Z →
   (∀ x, x ∈ timers w → target x ≠ g) →
   ∀ evs, Forall (λ ev, adds g ev = false ∧ removes g ev = false) evs →
          present g (run (addNotification g n w) evs)) ∧
  (∀ w', ¬ present g (step w' (RemoveNotification g))).
Proof.
  split; [unfold effective_duration; by intros ->|].
  split; [apply notifications_addNotification|].
  assert (present g (addNotification g n w)) as Hp
    by (apply present_addNotification; by right).
  split; [done|]. split; [|split].
  - intros Hd evs Hevs Hel.
    set (T := {| due := (now w + effective_duration n)%Z; target := g |}).
    assert (pending_or_gone T (run (addNotification g n w) evs))
      as [[_ Hnow]|Hgone]; [|by (rewrite now_run, now_addNotification in Hnow;
                                  cbn in Hnow; lia)|done].
    apply run_pending_or_gone; [done|]. left. split.
    + apply timers_addNotification. by right.
    + rewrite now_addNotification. cbn. lia.
  - intros Hd Hfresh evs Hevs.
    apply (run_persistent g _ evs Hevs). split; [done|].
    intros x [Hx|[Hpos _]]%timers_addNotification; [by apply Hfresh|lia].
  - intros w'. cbn. rewrite present_removeNotification. tauto.
Qed.

Example auto_dismissal_samples :
  notifications (ui (addNotification "n1" (saved (Some 1000%Z)) at_start)) ≠ [] ∧
  notifications (ui (run (addNotification "n1" (saved (Some 1000%Z)) at_start)
                         [Advance 999])) ≠ [] ∧
  notifications (ui (run (addNotification "n1" (saved (Some 1000%Z)) at_start)
                         [Advance 1000])) = [] ∧
  notifications (ui (run (addNotification "n1" (saved None) at_start)
                         [Advance 4999])) ≠ [] ∧
  notifications (ui (run (addNotification "n1" (saved None) at_start)
                         [Advance 5000])) = [] ∧
  notifications (ui (run (addNotification "n1" (saved (Some 0%Z)) at_start)
                         [Advance 10000])) ≠ [].
Proof. repeat split; vm_compute; congruence. Qed.

Lemma notification_lifetime_witness :
  ¬ present "n1" (run (addNotification "n1" (saved (Some 1000%Z)) at_start)
                      a_busy_second) ∧
  present "n1" (run (addNotification "n1" (saved (Some 0%Z)) at_start)
                    a_busy_second).
Proof.
  split.
  - apply (proj1 (proj2 (proj2 (proj2
             (notification_lifetime at_start "n1" (saved (Some 1000%Z))))))).
    + reflexivity.
    + repeat constructor.
    + vm_compute. discriminate.
  - apply (proj1 (proj2 (proj2 (proj2 (proj2
             (notification_lifetime at_start "n1" (saved (Some 0%Z)))))))).
    + reflexivity.
    + intros x Hx. by apply elem_of_nil in Hx.
    + repeat constructor.
Defined.

End NotificationFacts.

(** ** The optimistic status update and its rollback *)
Module RollbackFacts.
Import Js QueryClient AppointmentHooks Rollback Failing.

(** *** Writing a snapshot back *)

Lemma forEach_cons {A} (body : A → eff unit) (x : A) (l : list A) (c : cache) :
  forEach body (x :: l) c =
    match body x c with
    | (Normal _, c1) => forEach body l c1
    | (Throw e, c1) => (Throw e, c1)
    end.
Proof. done. Qed.

Lemma forEach_write (l : list (list key_part * value)) (c : cache) :
  forEach (λ entry, write entry.1 entry.2) l c = (Normal (), restore l c).
Proof.
  revert c. induction l as [|e l IH]; intros c; [done|].
  rewrite forEach_cons. apply IH.
Qed.

Lemma setQueryData_lookup_ne (k k' : list key_part) (v : value) (c : cache) :
  k ≠ k' → setQueryData k v c !! k' = c !! k'.
Proof. intros Hk. destruct v; cbn; by rewrite ?lookup_insert_ne. Qed.

Lemma setQueryData_lookup_eq (k : list key_part) (v : value) (c : cache) :
  v ≠ Undefined → setQueryData k v c !! k = Some v.
Proof. intros Hv. destruct v; cbn; by rewrite ?lookup_insert_eq. Qed.

Lemma restore_cons (k : list key_part) (v : value)
    (l : list (list key_part * value)) (c : cache) :
  restore ((k, v) :: l) c = restore l (setQueryData k v c).
Proof. done. Qed.

Lemma restore_lookup_notin (l : list (list key_part * value)) (c : cache)
    (k : list key_part) :
  k ∉ l.*1 → restore l c !! k = c !! k.
Proof.
  revert c. induction l as [|[k' v] l IH]; intros c Hk; [done|].
  rewrite fmap_cons in Hk. apply not_elem_of_cons in Hk as [Hne Hk].
  rewrite restore_cons, IH by done. by apply setQueryData_lookup_ne.
Qed.

Lemma restore_lookup_in (l : list (list key_part * value)) (c : cache)
    (k : list key_part) (v : value) :
  NoDup l.*1 → (k, v) ∈ l → v ≠ Undefined → restore l c !! k = Some v.
Proof.
  revert c. induction l as [|[k' v'] l IH]; intros c Hnd Hin Hv;
    [by apply elem_of_nil in Hin|].
  rewrite fmap_cons in Hnd. apply NoDup_cons in Hnd as [Hk' Hnd].
  rewrite restore_cons.
  apply elem_of_cons in Hin as [[= <- <-]|Hin].
  - rewrite restore_lookup_notin by done. by apply setQueryData_lookup_eq.
  - by apply IH.
Qed.

Lemma restore_lookup_undefined (l : list (list key_part * value)) (c : cache)
    (k : list key_part) :
  NoDup l.*1 → (k, Undefined) ∈ l → restore l c !! k = c !! k.
Proof.
  revert c. induction l as [|[k' v'] l IH]; intros c Hnd Hin;
    [by apply elem_of_nil in Hin|].
  rewrite fmap_cons in Hnd. apply NoDup_cons in Hnd as [Hk' Hnd].
  rewrite restore_cons.
  apply elem_of_cons in Hin as [[= <- <-]|Hin].
  - by rewrite restore_lookup_notin.
  - rewrite IH by done. apply setQueryData_lookup_ne. intros ->.
    apply Hk'. apply list_elem_of_fmap. by exists (k, Undefined).
Qed.

Lemma restore_lookup_either (l : list (list key_part * value)) (c c2 : cache)
    (k : list key_part) :
  NoDup l.*1 → (∀ v, (k, v) ∈ l → c !! k = Some v) →
  restore l c2 !! k = c2 !! k ∨ restore l c2 !! k = c !! k.
Proof.
  intros Hnd Hl. destruct (decide (k ∈ l.*1)) as [Hin|Hnin].
  - apply list_elem_of_fmap in Hin as ([k' v] & -> & Hin). cbn in *.
    destruct v; try (right; rewrite (Hl _ Hin); by apply restore_lookup_in).
    left. by apply restore_lookup_undefined.
  - left. by apply restore_lookup_notin.
Qed.

Lemma elem_of_getQueriesData (prefix : list key_part) (c : cache)
    (k : list key_part) (v : value) :
  (k, v) ∈ getQueriesData prefix c ↔ c !! k = Some v ∧ prefix `prefix_of` k.
Proof.
  unfold getQueriesData. rewrite elem_of_map_to_list.
  by rewrite map_lookup_filter_Some.
Qed.

Lemma NoDup_getQueriesData (prefix : list key_part) (c : cache) :
  NoDup (getQueriesData prefix c).*1.
Proof. apply NoDup_fst_map_to_list. Qed.

Lemma onError_eq (sd : UpdateAppointmentStatusData) (ctx : MutationContext)
    (c : cache) :
  onError sd (Some ctx) c = (Normal (), rollback sd ctx c).
Proof.
  unfold onError, rollback, mbind, eff_bind. rewrite !forEach_write.
  by destruct (ToBoolean _).
Qed.

(** *** What the optimistic step writes *)

Lemma is_paginated_defined (v : value) : is_paginated v = true → v ≠ Undefined.
Proof. by intros H ->. Qed.

Lemma truthy_defined (v : value) : ToBoolean v = true → v ≠ Undefined.
Proof. by intros H ->. Qed.

Lemma update_list_frame (sd : UpdateAppointmentStatusData) (now : string)
    (k : list key_part) (v : value) (c : cache) (r : completion unit)
    (c' : cache) :
  update_list sd now (k, v) c = (r, c') →
  (∀ k' : list key_part, k' ≠ k → c' !! k' = c !! k') ∧
  (is_paginated v = false → c' = c).
Proof.
  unfold update_list. fold (is_paginated v).
  destruct (is_paginated v).
  - unfold mbind, eff_bind, lift, write.
    destruct (get v "data") as [items|e]; [|by intros [= <- <-]].
    destruct (Array_map _ items) as [mapped|e]; [|by intros [= <- <-]].
    intros [= <- <-]. split; [|done].
    intros k' Hk. by apply lookup_insert_ne.
  - by intros [= <- <-].
Qed.

Lemma forEach_update_list_frame (sd : UpdateAppointmentStatusData) (now : string)
    (l : list (list key_part * value)) (c : cache) (r : completion unit)
    (c' : cache) (k : list key_part) :
  forEach (update_list sd now) l c = (r, c') →
  (∀ v, (k, v) ∈ l → is_paginated v = false) →
  c' !! k = c !! k.
Proof.
  revert c. induction l as [|[k0 v0] l IH]; intros c Hrun Hk.
  { by injection Hrun as <- <-. }
  rewrite forEach_cons in Hrun.
  destruct (update_list sd now (k0, v0) c) as [r0 c0] eqn:H0.
  apply update_list_frame in H0 as [Hne Hsame].
  assert (c0 !! k = c !! k) as Hc0.
  { destruct (decide (k = k0)) as [->|Hkk]; [|by apply Hne].
    rewrite Hsame; [done|]. apply Hk, elem_of_cons. by left. }
  destruct r0 as [[]|e].
  - rewrite <- Hc0. apply IH; [done|].
    intros v Hv. apply Hk, elem_of_cons. by right.
  - by injection Hrun as <- <-.
Qed.

Lemma onMutate_eq (sd : UpdateAppointmentStatusData) (now : string) (c : cache) :
  onMutate sd now c =
    match forEach (update_list sd now) (getQueriesData patientKey c) c with
    | (Throw e, cP) => (Throw e, cP)
    | (Normal _, cP) =>
        match forEach (update_list sd now) (getQueriesData doctorKey c) cP with
        | (Throw e, cD) => (Throw e, cD)
        | (Normal _, cD) =>
            match update_detail sd now
                    (getQueryData (appointmentDetails (appointment_id sd)) cD) cD with
            | (Throw e, c1) => (Throw e, c1)
            | (Normal _, c1) =>
                (Normal
                   {| previousPatientAppointments := getQueriesData patientKey c;
                      previousDoctorAppointments := getQueriesData doctorKey c;
                      previousAppointment :=
                        getQueryData (appointmentDetails (appointment_id sd)) cD |},
                 c1)
            end
        end
    end.
Proof. reflexivity. Qed.

Lemma updateAppointmentStatus_truthy (sd : UpdateAppointmentStatusData)
    (now : string) (a : value) :
  ToBoolean a = true →
  ∃ u, updateAppointmentStatus sd now a = Normal u ∧ ToBoolean u = true.
Proof.
  intros Ha. unfold updateAppointmentStatus.
  rewrite (NormalizerFacts.get_truthy a) by done. cbn.
  destruct (strict_eq_string _ _); eauto.
Qed.

Lemma update_detail_spec (sd : UpdateAppointmentStatusData) (now : string)
    (existing : value) (c : cache) :
  (ToBoolean existing = false ∧ update_detail sd now existing c = (Normal (), c)) ∨
  (ToBoolean existing = true ∧ ∃ u, u ≠ Undefined ∧
     update_detail sd now existing c =
       (Normal (), <[appointmentDetails (appointment_id sd) := u]> c)).
Proof.
  unfold update_detail. destruct (ToBoolean existing) eqn:He; [right|by left].
  split; [done|].
  destruct (updateAppointmentStatus_truthy sd now existing He) as (u & Hu & Htu).
  exists u. split; [by apply truthy_defined|].
  unfold mbind, eff_bind, lift, write. rewrite Hu. by destruct u.
Qed.

Lemma prefix_patient_doctor (k : list key_part) :
  patientKey `prefix_of` k → doctorKey `prefix_of` k → False.
Proof. intros [k1 ->] [k2 Hk]. discriminate Hk. Qed.

Lemma prefix_patient_detail (i : string) :
  ¬ patientKey `prefix_of` appointmentDetails i.
Proof. intros [k Hk]. discriminate Hk. Qed.

Lemma prefix_doctor_detail (i : string) :
  ¬ doctorKey `prefix_of` appointmentDetails i.
Proof. intros [k Hk]. discriminate Hk. Qed.

Lemma touched_false_patient (sd : UpdateAppointmentStatusData) (c : cache)
    (k : list key_part) (v : value) :
  touched sd c k = false → (k, v) ∈ getQueriesData patientKey c →
  is_paginated v = false.
Proof.
  unfold touched. intros Ht [Hv Hp]%elem_of_getQueriesData. rewrite Hv in Ht.
  rewrite (bool_decide_eq_true_2 _ Hp) in Ht. cbn in Ht.
  by destruct (is_paginated v).
Qed.

Lemma touched_false_doctor (sd : UpdateAppointmentStatusData) (c : cache)
    (k : list key_part) (v : value) :
  touched sd c k = false → (k, v) ∈ getQueriesData doctorKey c →
  is_paginated v = false.
Proof.
  unfold touched. intros Ht [Hv Hp]%elem_of_getQueriesData. rewrite Hv in Ht.
  rewrite (bool_decide_eq_true_2 (doctorKey `prefix_of` k) Hp) in Ht.
  rewrite orb_true_r in Ht. cbn in Ht.
  by destruct (is_paginated v).
Qed.

Lemma not_in_snapshot_detail (prefix : list key_part) (c : cache) (i : string)
    (v : value) :
  ¬ prefix `prefix_of` appointmentDetails i →
  (appointmentDetails i, v) ∈ getQueriesData prefix c → is_paginated v = false.
Proof. by intros Hp [_ ?]%elem_of_getQueriesData. Qed.

(** When [onMutate] reads the detail entry, it is still the one of the
    cache it started from. *)
Lemma detail_after_lists (sd : UpdateAppointmentStatusData) (now : string)
    (c cP cD : cache) (rP rD : completion unit) :
  forEach (update_list sd now) (getQueriesData patientKey c) c = (rP, cP) →
  forEach (update_list sd now) (getQueriesData doctorKey c) cP = (rD, cD) →
  getQueryData (appointmentDetails (appointment_id sd)) cD =
  getQueryData (appointmentDetails (appointment_id sd)) c.
Proof.
  intros HP HD. unfold getQueryData.
  rewrite (forEach_update_list_frame _ _ _ _ _ _ _ HD),
          (forEach_update_list_frame _ _ _ _ _ _ _ HP); [done| |].
  - intros v. apply not_in_snapshot_detail, prefix_patient_detail.
  - intros v. apply not_in_snapshot_detail, prefix_doctor_detail.
Qed.

Lemma onMutate_frame (sd : UpdateAppointmentStatusData) (now : string) (c : cache)
    (r : completion MutationContext) (c1 : cache) (k : list key_part) :
  onMutate sd now c = (r, c1) → touched sd c k = false → c1 !! k = c !! k.
Proof.
  rewrite onMutate_eq. intros Hrun Ht.
  destruct (forEach _ (getQueriesData patientKey c) c) as [rP cP] eqn:HP.
  assert (cP !! k = c !! k) as HcP.
  { eapply forEach_update_list_frame; [done|].
    intros v. exact (touched_false_patient sd c k v Ht). }
  destruct rP as [[]|e]; [|by injection Hrun as <- <-].
  destruct (forEach _ (getQueriesData doctorKey c) cP) as [rD cD] eqn:HD.
  assert (cD !! k = c !! k) as HcD.
  { rewrite <- HcP. eapply forEach_update_list_frame; [done|].
    intros v. exact (touched_false_doctor sd c k v Ht). }
  destruct rD as [[]|e]; [|by injection Hrun as <- <-].
  rewrite (detail_after_lists _ _ _ _ _ _ _ HP HD) in Hrun.
  set (d := appointmentDetails (appointment_id sd)) in *.
  destruct (update_detail_spec sd now (getQueryData d c) cD)
    as [[Hf Hd]|[Htr (u & Hu & Hd)]];
    rewrite Hd in Hrun; injection Hrun as <- <-; [done|].
  rewrite lookup_insert_ne; [done|]. intros <-.
  unfold touched in Ht. unfold getQueryData in Htr. fold d in Ht.
  destruct (c !! d) as [v|]; [|done]. cbn in Htr. rewrite Htr in Ht.
  rewrite (bool_decide_eq_true_2 (d = d)) in Ht by done.
  by rewrite orb_true_r in Ht.
Qed.

Lemma onMutate_context (sd : UpdateAppointmentStatusData) (now : string)
    (c : cache) (ctx : MutationContext) (c1 : cache) :
  onMutate sd now c = (Normal ctx, c1) →
  previousPatientAppointments ctx = getQueriesData patientKey c ∧
  previousDoctorAppointments ctx = getQueriesData doctorKey c ∧
  previousAppointment ctx = getQueryData (appointmentDetails (appointment_id sd)) c.
Proof.
  rewrite onMutate_eq. intros Hrun.
  destruct (forEach _ (getQueriesData patientKey c) c)
    as [[[]|e] cP] eqn:HP; [|done].
  destruct (forEach _ (getQueriesData doctorKey c) cP)
    as [[[]|e] cD] eqn:HD; [|done].
  rewrite (detail_after_lists _ _ _ _ _ _ _ HP HD) in Hrun.
  destruct (update_detail _ _ _ _) as [[[]|e] c'']; [|done].
  by injection Hrun as <- <-.
Qed.

(** *** The rollback *)

Lemma rollback_touched (sd : UpdateAppointmentStatusData) (now : string)
    (c : cache) (ctx : MutationContext) (c1 c2 : cache) (k : list key_part) :
  onMutate sd now c = (Normal ctx, c1) → touched sd c k = true →
  rollback sd ctx c2 !! k = c !! k.
Proof.
  intros (HP & HD & HA)%onMutate_context Ht. unfold rollback. rewrite HP, HD, HA.
  set (d := appointmentDetails (appointment_id sd)).
  unfold touched in Ht. fold d in Ht. unfold getQueryData.
  destruct (c !! k) as [v|] eqn:Hv; [|done].
  destruct (decide (k = d)) as [->|Hkd].
  - rewrite (bool_decide_eq_false_2 (patientKey `prefix_of` d)) in Ht
      by apply prefix_patient_detail.
    rewrite (bool_decide_eq_false_2 (doctorKey `prefix_of` d)) in Ht
      by apply prefix_doctor_detail.
    rewrite (bool_decide_eq_true_2 (d = d)) in Ht by done. cbn in Ht.
    rewrite Hv. cbn. rewrite Ht.
    rewrite setQueryData_lookup_eq; [done|by apply truthy_defined].
  - rewrite (bool_decide_eq_false_2 (k = d)) in Ht by done.
    rewrite andb_false_l, orb_false_r in Ht.
    apply andb_true_iff in Ht as [Hpre Hpag].
    assert (∀ c' : cache,
              (if ToBoolean (default Undefined (c !! d))
               then setQueryData d (default Undefined (c !! d)) c'
               else c') !! k = c' !! k) as Hdetail.
    { intros c'. destruct (ToBoolean _); [|done]. by apply setQueryData_lookup_ne. }
    rewrite Hdetail. apply is_paginated_defined in Hpag.
    apply orb_true_iff in Hpre as [Hpre|Hpre]; apply bool_decide_eq_true_1 in Hpre.
    + rewrite restore_lookup_notin.
      * apply restore_lookup_in; [apply NoDup_getQueriesData| |done].
        by apply elem_of_getQueriesData.
      * intros ([k' v'] & -> & [_ Hpre']%elem_of_getQueriesData)%list_elem_of_fmap.
        by eapply prefix_patient_doctor.
    + apply restore_lookup_in; [apply NoDup_getQueriesData| |done].
      by apply elem_of_getQueriesData.
Qed.

Lemma rollback_untouched (sd : UpdateAppointmentStatusData) (now : string)
    (c : cache) (ctx : MutationContext) (c1 c2 : cache) (k : list key_part) :
  onMutate sd now c = (Normal ctx, c1) → c2 !! k = c !! k →
  rollback sd ctx c2 !! k = c !! k.
Proof.
  intros (HP & HD & HA)%onMutate_context Hk. unfold rollback. rewrite HP, HD, HA.
  set (d := appointmentDetails (appointment_id sd)).
  assert (restore (getQueriesData doctorKey c)
            (restore (getQueriesData patientKey c) c2) !! k = c !! k) as Hlists.
  { destruct (restore_lookup_either (getQueriesData doctorKey c) c
               (restore (getQueriesData patientKey c) c2) k) as [-> | ->];
      [apply NoDup_getQueriesData
      |by intros v [? _]%elem_of_getQueriesData| |done].
    destruct (restore_lookup_either (getQueriesData patientKey c) c c2 k)
      as [-> | ->];
      [apply NoDup_getQueriesData
      |by intros v [? _]%elem_of_getQueriesData|done|done]. }
  unfold getQueryData.
  destruct (ToBoolean (default Undefined (c !! d))) eqn:Htr; [|done].
  destruct (decide (k = d)) as [->|Hkd]; [|by rewrite setQueryData_lookup_ne].
  rewrite setQueryData_lookup_eq by by apply truthy_defined.
  destruct (c !! d); [done|discriminate Htr].
Qed.

Lemma rollback_restores_snapshot (sd : UpdateAppointmentStatusData) (now : string)
    (c c1 : cache) (ctx : MutationContext) :
  onMutate sd now c = (Normal ctx, c1) →
  (∀ k, touched sd c k = false → c1 !! k = c !! k) ∧
  (∀ (meanwhile : cache → cache) k, touched sd c k = true →
     (onError sd (Some ctx) (meanwhile c1)).2 !! k = c !! k) ∧
  (onError sd (Some ctx) c1).2 = c.
Proof.
  intros Hrun. split; [|split].
  - intros k Ht. by eapply onMutate_frame.
  - intros meanwhile k Ht. rewrite onError_eq. by eapply rollback_touched.
  - rewrite onError_eq. apply map_eq. intros k. cbn.
    destruct (touched sd c k) eqn:Ht; [by eapply rollback_touched|].
    eapply rollback_untouched; [done|]. by eapply onMutate_frame.
Qed.

(** C1: let the optimistic step [onMutate] run on the cache [c] and
    return, and let the mutation function fail (after its retry).  Then
    the optimistic step changed no entry outside the touched ones (the
    patient and doctor appointment lists and the detail entry of the
    appointment); whatever other code wrote to the cache while the
    request was pending, every touched entry holds after [onError] the
    value it had in [c]; and when nothing else wrote to the cache, the
    whole cache is [c] again.  The mutation ends with the error of the
    mutation function. *)
Theorem optimistic_update_rolled_back (sd : UpdateAppointmentStatusData)
    (now : string) (c c1 : cache) (ctx : MutationContext)
    (mutationFn : nat → completion value) (fuel n : nat) (e : thrown) :
  onMutate sd now c = (Normal ctx, c1) →
  ReactQuery.run_mutation mutationFn fuel = Some (Throw e, n) →
  (∀ k, touched sd c k = false → c1 !! k = c !! k) ∧
  (∀ meanwhile : cache → cache, ∃ c3 : cache,
     execute sd now mutationFn meanwhile fuel c = Some (Throw e, n, c3) ∧
     ∀ k, touched sd c k = true → c3 !! k = c !! k) ∧
  execute sd now mutationFn (λ c', c') fuel c = Some (Throw e, n, c).
Proof.
  intros Hrun Hfn.
  destruct (rollback_restores_snapshot sd now c c1 ctx Hrun)
    as (Hframe & Hback & Hall).
  split; [done|]. unfold execute. rewrite Hrun, Hfn. split.
  - intros meanwhile. eexists. split; [done|]. intros k Hk. by apply Hback.
  - by rewrite Hall.
Qed.

(** The sample cache: the optimistic step marks appointment 1 completed
    in the three entries that hold it. *)
Example onMutate_cache_before :
  onMutate complete_1 Normalized.at_9 cache_before =
  (Normal context_of_cache_before, cache_optimistic).
Proof. reflexivity. Qed.

Example touched_cache_before :
  touched complete_1 cache_before patient_page_1 = true ∧
  touched complete_1 cache_before doctor_page_1 = true ∧
  touched complete_1 cache_before (appointmentDetails "1") = true ∧
  touched complete_1 cache_before [KString "doctors"; KString "list"] = false.
Proof. repeat split; reflexivity. Qed.

(** When the request succeeds, the detail entry holds the reply of the
    server and the lists keep the optimistic state (until refetched). *)
Example execute_succeeds :
  execute complete_1 Normalized.at_9
    (λ _, Normal (appointment_1 "COMPLETED" "2024-02-01T09:00:01.000Z"))
    (λ c', c') 2 cache_before
  = Some (Normal (appointment_1 "COMPLETED" "2024-02-01T09:00:01.000Z"), 1,
          <[appointmentDetails "1" := appointment_1 "COMPLETED" "2024-02-01T09:00:01.000Z"]>
            cache_optimistic).
Proof. reflexivity. Qed.

Lemma optimistic_update_rolled_back_witness :
  execute complete_1 Normalized.at_9 (always_fails (api_error 500)) (λ c', c') 2
    cache_before
  = Some (Throw (api_error 500), 2, cache_before).
Proof.
  apply (optimistic_update_rolled_back complete_1 Normalized.at_9
           cache_before cache_optimistic context_of_cache_before
           (always_fails (api_error 500)) 2 2 (api_error 500)).
  - reflexivity.
  - reflexivity.
Defined.

End RollbackFacts.

(** ** The normalizers and the declared types *)
Module TransformerFacts.
Import Js ResponseTransformers Services Conversions Normalized Declared Replies.
Import ConversionFacts NormalizerFacts.

Lemma mapM_Normal {A B} (f : A → completion B) (l : list A) (ys : list B) :
  mapM f l = Normal ys ↔ Forall2 (λ x y, f x = Normal y) l ys.
Proof.
  revert ys. induction l as [|x l IH]; intros ys; cbn.
  - split; [intros [= <-]; constructor|by inversion 1].
  - split.
    + destruct (f x) as [y|e] eqn:Hx; [|done]. cbn.
      destruct (mapM f l) as [k|e] eqn:Hl; [|done]. cbn.
      intros [= <-]. constructor; [done|]. by apply IH.
    + inversion 1 as [|? y ? k Hy Hk]; subst. rewrite Hy. cbn.
      apply IH in Hk. by rewrite Hk.
Qed.

Lemma forallb_Forall2 {A B} (R : A → B → Prop) (T : B → bool) (l : list A)
    (ys : list B) :
  (∀ x y, R x y → T y = true) → Forall2 R l ys → forallb T ys = true.
Proof.
  intros HT. induction 1 as [|x y l ys Hxy _ IH]; [done|].
  cbn. by rewrite (HT _ _ Hxy), IH.
Qed.

Section WithRuntime.
Context `{Runtime}.

Lemma transformSpecialization_eq (s : value) :
  transformSpecialization s =
    if nullish s then throw_TypeError
    else if specialization_convertible s
    then Normal (object [
      ("id", Str (printed (get_opt s "id")));
      ("name", Str (printed (or_else (get_opt s "name") (Str ""))))])
    else throw_conversion_TypeError.
Proof.
  destruct (nullish s) eqn:Hn; [by destruct s|].
  unfold transformSpecialization, specialization_convertible.
  rewrite !(get_defined s) by done. cbn [mbind completion_bind].
  rewrite !String_eq. destruct (convertible (get_opt s "id")); [|done].
  by destruct (convertible (or_else _ _)).
Qed.

Lemma transformApiResponse_eq (response : value)
    (t : option (value → completion value)) :
  transformApiResponse response t =
    if nullish response then throw_TypeError
    else
      data ← match t with
             | Some f => f (get_opt response "data")
             | None => mret (get_opt response "data")
             end;
      if negb (ToBoolean (get_opt response "message"))
         || convertible (get_opt response "message")
      then mret (object [
        ("success", Bool (strict_neq_false (get_opt response "success")));
        ("data", data);
        ("message", if ToBoolean (get_opt response "message")
                    then Str (printed (get_opt response "message"))
                    else Undefined)])
      else throw_conversion_TypeError.
Proof.
  destruct (nullish response) eqn:Hn; [by destruct response|].
  unfold transformApiResponse. rewrite !(get_defined response) by done.
  cbn [mbind completion_bind]. rewrite String_if_eq.
  destruct t as [f|]; [destruct (f _); [|done]|];
    cbn [mbind completion_bind mret completion_ret];
    by destruct (negb _ || convertible _).
Qed.

Lemma transformApiResponse_Normal (response : value)
    (t : option (value → completion value)) (out : value) :
  transformApiResponse response t = Normal out →
  ∃ data,
    match t with
    | Some f => f (get_opt response "data") = Normal data
    | None => data = get_opt response "data"
    end ∧
    out = object [
      ("success", Bool (strict_neq_false (get_opt response "success")));
      ("data", data);
      ("message", if ToBoolean (get_opt response "message")
                  then Str (printed (get_opt response "message"))
                  else Undefined)].
Proof.
  rewrite transformApiResponse_eq. destruct (nullish response); [done|].
  destruct t as [f|].
  - destruct (f _) as [data|e]; [|done]. cbn [mbind completion_bind].
    destruct (negb _ || convertible _); [|done]. intros [= <-]. by exists data.
  - cbn [mbind completion_bind mret completion_ret].
    destruct (negb _ || convertible _); [|done]. intros [= <-]. by eexists.
Qed.

Lemma transformPaginatedResponse_Normal (response : value)
    (f : value → completion value) (out : value) :
  transformPaginatedResponse response f = Normal out ↔
  nullish response = false ∧
  pagination_convertible (effective_pagination response) = true ∧
  ∃ ys, Forall2 (λ x y, f x = Normal y) (array_items (get_opt response "data")) ys ∧
        out = paginated_literal ys (effective_pagination response).
Proof.
  split.
  - intros (Hn & Hok & ys & Hys & ->)%transformPaginatedResponse_returned.
    split; [done|]. split; [done|]. exists ys. split; [by apply mapM_Normal|done].
  - intros (Hn & Hok & ys & Hys%mapM_Normal & ->).
    by rewrite transformPaginatedResponse_eq, Hys, Hok.
Qed.

Lemma transformArray_Normal (items : value) (f : value → completion value)
    (out : value) :
  transformArray items f = Normal out ↔
  ∃ ys, out = Arr ys ∧ Forall2 (λ x y, f x = Normal y) (array_items items) ys.
Proof.
  assert (transformArray items f = Arr <$> mapM f (array_items items)) as ->
    by by destruct items.
  split.
  - destruct (mapM f _) as [ys|e] eqn:Hys; [|done]. cbn. intros [= <-].
    exists ys. split; [done|by apply mapM_Normal].
  - intros (ys & -> & Hys%mapM_Normal). by rewrite Hys.
Qed.

(** *** The literals have the declared types *)

Lemma User_user_literal (x : value) : User (user_literal x) = true.
Proof.
  unfold User. destruct (user_literal_fields x) as (-> & -> & -> & -> & ->).
  cbn. by destruct (strict_eq_string _ "DOCTOR"), (ToBoolean _).
Qed.

Lemma Doctor_doctor_literal (x : value) : Doctor (doctor_literal x) = true.
Proof.
  unfold Doctor, User.
  destruct (doctor_literal_fields x) as (-> & -> & -> & -> & ->).
  change (get_opt (doctor_literal x) "role") with (Str "DOCTOR").
  cbn. by destruct (ToBoolean _).
Qed.

Lemma Patient_patient_literal (x : value) : Patient (patient_literal x) = true.
Proof.
  unfold Patient, User.
  destruct (patient_literal_fields x) as (-> & -> & -> & ->).
  change (get_opt (patient_literal x) "role") with (Str "PATIENT").
  cbn. by destruct (ToBoolean _).
Qed.

Lemma Appointment_appointment_literal (now1 now2 : string) (x : value) :
  Appointment (appointment_literal now1 now2 x) = true.
Proof.
  unfold Appointment.
  destruct (appointment_literal_fields now1 now2 x)
    as (-> & -> & _ & -> & _ & -> & -> & -> & -> & -> & _ & -> & _).
  assert (optional Doctor (if ToBoolean (get_opt x "doctor")
                           then doctor_literal (get_opt x "doctor") else Undefined)
          = true) as ->.
  { destruct (ToBoolean _); [|done]. apply Doctor_doctor_literal. }
  assert (optional Patient (if ToBoolean (get_opt x "patient")
                            then patient_literal (get_opt x "patient") else Undefined)
          = true) as ->.
  { destruct (ToBoolean _); [|done]. apply Patient_patient_literal. }
  unfold status_literal. cbn.
  destruct (strict_eq_string _ "COMPLETED"); [done|].
  by destruct (strict_eq_string _ "CANCELLED").
Qed.

Lemma transformUser_User (x y : value) :
  transformUser x = Normal y → User y = true.
Proof.
  rewrite transformUser_eq. destruct (nullish x); [done|].
  destruct (user_convertible x); [|done]. intros [= <-]. apply User_user_literal.
Qed.

Lemma transformDoctor_Doctor (x y : value) :
  transformDoctor x = Normal y → Doctor y = true.
Proof.
  rewrite transformDoctor_eq. destruct (nullish x); [done|].
  destruct (doctor_convertible x); [|done]. intros [= <-]. apply Doctor_doctor_literal.
Qed.

Lemma transformPatient_Patient (x y : value) :
  transformPatient x = Normal y → Patient y = true.
Proof.
  rewrite transformPatient_eq. destruct (nullish x); [done|].
  destruct (user_convertible x); [|done]. intros [= <-]. apply Patient_patient_literal.
Qed.

Lemma transformAppointment_Appointment (now1 now2 : string) (x y : value) :
  transformAppointment now1 now2 x = Normal y → Appointment y = true.
Proof.
  rewrite transformAppointment_eq. destruct (nullish x); [done|].
  destruct (appointment_convertible x); [|done]. intros [= <-]. apply Appointment_appointment_literal.
Qed.

Lemma transformSpecialization_Specialization (x y : value) :
  transformSpecialization x = Normal y → Specialization y = true.
Proof.
  rewrite transformSpecialization_eq. destruct (nullish x); [done|].
  destruct (specialization_convertible x); [|done]. by intros [= <-].
Qed.

Lemma transformPaginatedResponse_PaginatedResponse (T : value → bool)
    (f : value → completion value) (x y : value) :
  (∀ a b, f a = Normal b → T b = true) →
  transformPaginatedResponse x f = Normal y → PaginatedResponse T y = true.
Proof.
  intros Hf (_ & _ & ys & Hys & ->)%transformPaginatedResponse_Normal.
  unfold PaginatedResponse.
  change (get_opt (paginated_literal ys ?p) "data") with (Arr ys).
  change (get_opt (paginated_literal ys ?p) "pagination")
    with (pagination_literal p).
  destruct (pagination_literal_fields (effective_pagination x))
    as (-> & -> & -> & ->).
  cbn. by rewrite (forallb_Forall2 _ T _ _ Hf Hys).
Qed.

Lemma transformArray_array_of (T : value → bool) (f : value → completion value)
    (x y : value) :
  (∀ a b, f a = Normal b → T b = true) →
  transformArray x f = Normal y → array_of T y = true.
Proof.
  intros Hf (ys & -> & Hys)%transformArray_Normal.
  cbn. by rewrite (forallb_Forall2 _ T _ _ Hf Hys).
Qed.

(** X1: whatever the payload, when a normalizer returns, its result has
    the type the source declares for it: [transformUser] a [User],
    [transformDoctor] a [Doctor] (with the role "DOCTOR"),
    [transformPatient] a [Patient], [transformAppointment] an
    [Appointment] (one of the three statuses, a nested [Doctor] and
    [Patient] or none), [transformSpecialization] a [Specialization];
    [transformPaginatedResponse], [transformArray] and
    [transformApiResponse] return a [PaginatedResponse], an array and an
    [ApiResponse] of items of type [T] when the item transformer returns
    a [T]. *)
Theorem normalizers_return_their_declared_types :
  (∀ x y, transformUser x = Normal y → User y = true) ∧
  (∀ x y, transformDoctor x = Normal y → Doctor y = true) ∧
  (∀ x y, transformPatient x = Normal y → Patient y = true) ∧
  (∀ now1 now2 x y,
     transformAppointment now1 now2 x = Normal y → Appointment y = true) ∧
  (∀ x y, transformSpecialization x = Normal y → Specialization y = true) ∧
  (∀ (T : value → bool) (f : value → completion value) x y,
     (∀ a b, f a = Normal b → T b = true) →
     transformPaginatedResponse x f = Normal y → PaginatedResponse T y = true) ∧
  (∀ (T : value → bool) (f : value → completion value) x y,
     (∀ a b, f a = Normal b → T b = true) →
     transformArray x f = Normal y → array_of T y = true) ∧
  (∀ (T : value → bool) (f : value → completion value) x y,
     (∀ a b, f a = Normal b → T b = true) →
     transformApiResponse x (Some f) = Normal y → ApiResponse T y = true).
Proof.
  split; [exact transformUser_User|].
  split; [exact transformDoctor_Doctor|].
  split; [exact transformPatient_Patient|].
  split; [exact transformAppointment_Appointment|].
  split; [exact transformSpecialization_Specialization|].
  split; [exact transformPaginatedResponse_PaginatedResponse|].
  split; [exact transformArray_array_of|].
  intros T f x y Hf (data & Hdata & ->)%transformApiResponse_Normal.
  unfold ApiResponse.
  change (get_opt (object ?l) "data") with data.
  rewrite (Hf _ _ Hdata). cbn. by destruct (ToBoolean _).
Qed.

(** X2: each of the five item normalizers throws a [TypeError] when its
    argument is [null] or [undefined], or when one of the values it hands
    to [String()] is an object with an own property [toString] (or an
    array that holds one); it returns on every other argument, however
    malformed.  The values handed to [String()] are the defaulted
    properties of the payload, a [photo_url] only when it is truthy, and
    for an appointment the same properties of its doctor and patient
    when these are truthy. *)
Theorem normalizers_throw_TypeError_or_return (now1 now2 : string) (v : value) :
  Forall (λ t : completion value * bool,
            match t.1 with
            | Normal _ => nullish v = false ∧ t.2 = true
            | Throw e =>
                (nullish v = true ∨ t.2 = false) ∧
                ErrorHandling.instanceof e TypeError = true
            end)
    [(transformUser v, user_convertible v);
     (transformDoctor v, doctor_convertible v);
     (transformPatient v, user_convertible v);
     (transformSpecialization v, specialization_convertible v);
     (transformAppointment now1 now2 v, appointment_convertible v)].
Proof.
  rewrite transformUser_eq, transformDoctor_eq, transformPatient_eq,
    transformSpecialization_eq, transformAppointment_eq.
  destruct (nullish v); [repeat constructor; by left|].
  repeat constructor; cbn [fst snd];
    match goal with
    | |- context [if ?ok then _ else _] => destruct ok
    end; try done; split; (by right) || done.
Qed.

(** X3: [transformSpecialization] is idempotent: normalizing its result
    again gives the same result, for every argument. *)
Theorem transformSpecialization_idempotent (s : value) :
  transformSpecialization s ≫= transformSpecialization = transformSpecialization s.
Proof.
  rewrite (transformSpecialization_eq s). destruct (nullish s); [done|].
  destruct (specialization_convertible s); [|done].
  cbn [mbind completion_bind]. rewrite transformSpecialization_eq.
  cbn [nullish object]. unfold specialization_convertible, object.
  change (get_opt (Obj (list_to_map ?l)) "id") with (Str (printed (get_opt s "id"))).
  change (get_opt (Obj (list_to_map ?l)) "name")
    with (Str (printed (or_else (get_opt s "name") (Str "")))).
  rewrite convertible_or_Str by done. by rewrite or_string_default.
Qed.

(** X4: the list normalizers keep every item, in order.
    [transformArray] returns exactly when the transformer returns on
    every item of the array (on no item, when the argument is not an
    array), with the array of the results; [transformPaginatedResponse]
    returns exactly when the payload is not [null] or [undefined], the
    four numbers of its pagination can be converted and the transformer
    returns on every item of [data], with the results as [data]; so the
    lists have the length of the input and [total] is never recomputed
    from them. *)
Theorem list_normalizers_keep_items (f : value → completion value) (x out : value) :
  (transformArray x f = Normal out ↔
   ∃ ys, out = Arr ys ∧ Forall2 (λ a b, f a = Normal b) (array_items x) ys) ∧
  (transformPaginatedResponse x f = Normal out ↔
   nullish x = false ∧
   pagination_convertible (effective_pagination x) = true ∧
   ∃ ys, Forall2 (λ a b, f a = Normal b) (array_items (get_opt x "data")) ys ∧
         out = paginated_literal ys (effective_pagination x)) ∧
  (transformArray x f = Normal out →
   length (array_items out) = length (array_items x)) ∧
  (transformPaginatedResponse x f = Normal out →
   length (array_items (get_opt out "data"))
   = length (array_items (get_opt x "data"))).
Proof.
  split; [apply transformArray_Normal|].
  split; [apply transformPaginatedResponse_Normal|]. split.
  - intros (ys & -> & Hys)%transformArray_Normal. cbn.
    symmetry. by eapply Forall2_length.
  - intros (_ & _ & ys & Hys & ->)%transformPaginatedResponse_Normal.
    change (get_opt (paginated_literal ys ?p) "data") with (Arr ys). cbn.
    symmetry. by eapply Forall2_length.
Qed.

(** X5: the envelope [transformApiResponse] returns has [success] false
    exactly when the payload has [success] equal to the boolean [false]
    (and true otherwise: missing, [null], 0 and "false" all count as
    success); without a data transformer [data] is passed through as it
    is; and normalizing the result again, without a data transformer,
    changes nothing unless its [message] is the empty string. *)
Theorem transformApiResponse_envelope (response : value)
    (t : option (value → completion value)) (out : value) :
  transformApiResponse response t = Normal out →
  (get_opt out "success" = Bool false ↔ get_opt response "success" = Bool false) ∧
  (get_opt out "success" ≠ Bool false → get_opt out "success" = Bool true) ∧
  (t = None → get_opt out "data" = get_opt response "data") ∧
  (get_opt out "message" ≠ Str "" → transformApiResponse out None = Normal out).
Proof.
  intros (data & Hdata & ->)%transformApiResponse_Normal.
  change (get_opt (object ?l) "success")
    with (Bool (strict_neq_false (get_opt response "success"))).
  change (get_opt (object ?l) "data") with data.
  change (get_opt (object ?l) "message")
    with (if ToBoolean (get_opt response "message")
          then Str (printed (get_opt response "message")) else Undefined).
  split; [|split; [|split]].
  - destruct (get_opt response "success") as [| |[]| | | |]; cbn; split; congruence.
  - by destruct (strict_neq_false _).
  - by intros ->.
  - intros Hm. rewrite transformApiResponse_eq.
    cbn [nullish object mbind completion_bind mret completion_ret].
    change (get_opt (object ?l) "success")
      with (Bool (strict_neq_false (get_opt response "success"))).
    change (get_opt (object ?l) "data") with data.
    change (get_opt (object ?l) "message")
      with (if ToBoolean (get_opt response "message")
            then Str (printed (get_opt response "message")) else Undefined).
    rewrite convertible_photo, photo_url_stable by done.
    by destruct (get_opt response "success") as [| |[]| | | |].
Qed.

(** X6: when a service call resolves, its result has the declared type,
    whatever the server sent: [login] (and the two registrations) a
    [User], [getDoctors] a page of [Doctor]s, [getSpecializations] an
    array of [Specialization]s, [getDoctorById] a [Doctor], and the
    appointment services an [Appointment]. *)
Theorem services_return_their_declared_types :
  (∀ response user token, login response = Normal (user, token) → User user = true) ∧
  (∀ response out,
     getDoctors response = Normal out → PaginatedResponse Doctor out = true) ∧
  (∀ response out,
     getSpecializations response = Normal out → array_of Specialization out = true) ∧
  (∀ response out, getDoctorById response = Normal out → Doctor out = true) ∧
  (∀ now1 now2 response out,
     appointment_of now1 now2 response = Normal out → Appointment out = true).
Proof.
  split; [|split; [|split; [|split]]].
  - intros response user token. unfold login.
    destruct (get response "data") as [data|e]; [|done]. cbn.
    destruct (get data "user") as [u|e]; [|done]. cbn.
    destruct (transformUser u) as [u'|e] eqn:Hu; [|done]. cbn.
    destruct (get data "token") as [tok|e]; [|done]. cbn.
    destruct (String_ tok) as [tok'|e]; [|done]. cbn.
    intros [= <- _]. by eapply transformUser_User.
  - intros response out. unfold getDoctors.
    destruct (get response "data") as [data|e]; [|done]. cbn.
    apply transformPaginatedResponse_PaginatedResponse, transformDoctor_Doctor.
  - intros response out. unfold getSpecializations.
    destruct (get response "data") as [data|e]; [|done]. cbn.
    apply transformArray_array_of, transformSpecialization_Specialization.
  - intros response out. unfold getDoctorById.
    destruct (get response "data") as [data|e]; [|done]. cbn.
    apply transformDoctor_Doctor.
  - intros now1 now2 response out. unfold appointment_of.
    destruct (get response "data") as [data|e]; [|done]. cbn.
    apply transformAppointment_Appointment.
Qed.

End WithRuntime.

(** *** Examples and witnesses, on the reference runtime *)
Import RefRuntime.

Example getSpecializations_sample :
  transformArray specializations transformSpecialization
    = Normal normalized_specializations ∧
  transformArray (Str "none") transformSpecialization = Normal (Arr []).
Proof. split; reflexivity. Qed.

Lemma normalizers_return_their_declared_types_witness :
  User normalized_ann = true ∧
  Appointment normalized_appointment = true ∧
  PaginatedResponse Appointment normalized_page = true.
Proof.
  split; [|split].
  - apply (proj1 normalizers_return_their_declared_types user_ann). reflexivity.
  - apply (proj1 (proj2 (proj2 (proj2 normalizers_return_their_declared_types)))
             at_8 at_9 raw_appointment).
    reflexivity.
  - apply (proj1 (proj2 (proj2 (proj2 (proj2 (proj2
             normalizers_return_their_declared_types)))))
             Appointment (transformAppointment at_8 at_9) raw_page).
    + intros a b.
      apply (proj1 (proj2 (proj2 (proj2 normalizers_return_their_declared_types)))).
    + reflexivity.
Defined.

Lemma list_normalizers_keep_items_witness :
  length (array_items normalized_specializations) = length (array_items specializations).
Proof.
  apply (proj1 (proj2 (proj2 (list_normalizers_keep_items
           transformSpecialization specializations normalized_specializations)))).
  reflexivity.
Defined.

Lemma transformApiResponse_envelope_witness :
  transformApiResponse normalized_envelope None = Normal normalized_envelope.
Proof.
  apply (proj2 (proj2 (proj2
           (transformApiResponse_envelope envelope None normalized_envelope eq_refl)))).
  vm_compute. discriminate.
Defined.

Lemma services_return_their_declared_types_witness :
  ∃ out, getDoctors doctors_reply = Normal out ∧
         PaginatedResponse Doctor out = true.
Proof.
  eexists. split; [reflexivity|].
  apply (proj1 (proj2 services_return_their_declared_types) doctors_reply).
  reflexivity.
Defined.
End TransformerFacts.

(** ** The retry loops *)
Module RetryLoopFacts.
Import Js ErrorHandling ReactQuery Conversions Retrying Failing ConversionFacts.

Lemma backoff_S (d : float) (from n : nat) :
  backoff d from (S n) = (d * pow2 from)%float :: backoff d (S from) n.
Proof. done. Qed.

Lemma backoff_snoc (d : float) (from n : nat) :
  backoff d from (S n) = backoff d from n ++ [(d * pow2 (from + n))%float].
Proof. unfold backoff. by rewrite seq_S, map_app. Qed.

Lemma eqb_leb (x y : float) : PrimFloat.eqb x y = true → PrimFloat.leb x y = true.
Proof.
  rewrite FloatAxioms.eqb_spec, FloatAxioms.leb_spec. unfold SFeqb, SFleb.
  by destruct (SFcompare _ _) as [[]|].
Qed.

Lemma counts_spec (m : float) (n : nat) :
  counts m n = true →
  (∀ i, i < n → PrimFloat.leb (counter i) m = true ∧
                PrimFloat.eqb (counter i) m = false) ∧
  PrimFloat.leb (counter n) m = true ∧ PrimFloat.eqb (counter n) m = true.
Proof.
  unfold counts. intros [Hbelow Hn]%andb_true_iff. split.
  - intros i Hi. rewrite forallb_forall in Hbelow.
    assert (In i (seq 0 n)) as Hin by (apply in_seq; lia).
    apply Hbelow, andb_true_iff in Hin as [Hle Hne].
    by apply negb_true_iff in Hne.
  - split; [by apply eqb_leb|done].
Qed.

(** The doubles of the natural numbers up to 100 count as themselves. *)
Lemma small_naturals_count (n : nat) : n ≤ 100 → counts (float_of_nat n) n = true.
Proof.
  intros Hn.
  assert (forallb (λ n, counts (float_of_nat n) n) (seq 0 101) = true) as Hall
    by (vm_compute; reflexivity).
  rewrite forallb_forall in Hall. apply Hall, in_seq. lia.
Qed.

(** The loop of [errorUtils.retry], from any iteration on, when
    [maxRetries] is a natural number. *)
Lemma retry_from_spec {A} (fn : nat → completion A) (m d : float) (n : nat)
    (fuel invoked : nat) (lastError : thrown) (waited : list float) :
  counts m n = true → invoked ≤ n → n - invoked < fuel →
  ∃ r, retry_from fn m d (counter invoked) invoked lastError waited fuel = Some r ∧
    invoked < invocations r ≤ S n ∧
    outcome r = fn (invocations r - 1) ∧
    delays r = waited ++ backoff d invoked (invocations r - 1 - invoked) ∧
    (∀ i, invoked ≤ i < invocations r - 1 → ∃ e, fn i = Throw e ∧ retryable e = true) ∧
    (∀ e, outcome r = Throw e → invocations r ≤ n → retryable e = false).
Proof.
  intros [Hbelow [Hlen Heqn]]%counts_spec.
  revert invoked lastError waited.
  induction fuel as [|fuel IH]; intros invoked lastError waited Hle Hfuel; [lia|].
  cbn [retry_from].
  assert (PrimFloat.leb (counter invoked) m = true) as ->.
  { destruct (decide (invoked = n)) as [->|Hne]; [done|]. apply Hbelow. lia. }
  assert (∀ c : completion A, fn invoked = c →
    (∀ e, c = Throw e → S invoked ≤ n → retryable e = false) →
    ∃ r, Some (Run c (S invoked) waited) = Some r ∧
      invoked < invocations r ≤ S n ∧
      outcome r = fn (invocations r - 1) ∧
      delays r = waited ++ backoff d invoked (invocations r - 1 - invoked) ∧
      (∀ i, invoked ≤ i < invocations r - 1 →
         ∃ e, fn i = Throw e ∧ retryable e = true) ∧
      (∀ e, outcome r = Throw e → invocations r ≤ n → retryable e = false)) as Hstop.
  { intros c Hc Hwhy. eexists. split; [done|]. cbn.
    replace (invoked - 0) with invoked by lia.
    replace (invoked - invoked) with 0 by lia.
    rewrite Hc, app_nil_r. split; [lia|]. split; [done|]. split; [done|].
    split; [intros i Hi; lia|done]. }
  destruct (fn invoked) as [a|error] eqn:Hfn.
  { by apply Hstop. }
  unfold retryable in *.
  destruct (isAuthError error || isAuthorizationError error) eqn:Hauth.
  { apply Hstop; [done|]. intros e [= <-] _. by rewrite Hauth. }
  destruct (isValidationError error) eqn:Hval.
  { apply Hstop; [done|]. intros e [= <-] _. by rewrite Hauth, Hval. }
  destruct (PrimFloat.eqb (counter invoked) m) eqn:Hlast.
  { apply Hstop; [done|]. intros e _ Hmore.
    destruct (Hbelow invoked) as [_ Hne]; [lia|]. congruence. }
  assert (invoked ≠ n) as Hne by (intros ->; congruence).
  change (counter invoked + 1)%float with (counter (S invoked)).
  destruct (IH (S invoked) error (waited ++ [(d * pow2 invoked)%float]))
    as (r & -> & Hinv & Hout & Hdel & Hbefore & Hwhy); [lia|lia|].
  exists r. split; [done|]. split; [lia|]. split; [done|]. split; [|split].
  - rewrite Hdel, <- app_assoc. f_equal.
    replace (invocations r - 1 - invoked) with (S (invocations r - 1 - S invoked))
      by lia.
    by rewrite backoff_S.
  - intros i Hi. destruct (decide (i = invoked)) as [->|Hni].
    + exists error. split; [done|]. by rewrite Hauth, Hval.
    + apply Hbefore. lia.
  - done.
Qed.

(** More fuel does not change the result of a run. *)
Lemma retry_from_more_fuel {A} (fn : nat → completion A) (m d attempt : float)
    (fuel fuel' invoked : nat) (lastError : thrown) (waited : list float) (r : run A) :
  retry_from fn m d attempt invoked lastError waited fuel = Some r →
  fuel ≤ fuel' →
  retry_from fn m d attempt invoked lastError waited fuel' = Some r.
Proof.
  revert fuel' attempt invoked lastError waited.
  induction fuel as [|fuel IH]; intros fuel' attempt invoked lastError waited Hr Hle;
    [done|].
  destruct fuel' as [|fuel']; [lia|]. cbn [retry_from] in *.
  destruct (PrimFloat.leb attempt m); [|done].
  destruct (fn invoked) as [a|error]; [done|].
  destruct (isAuthError error || isAuthorizationError error); [done|].
  destruct (isValidationError error); [done|].
  destruct (PrimFloat.eqb attempt m); [done|].
  apply IH; [done|lia].
Qed.

(** X7: how often [errorUtils.retry] invokes the operation.  When
    [maxRetries] is a natural number (as the doubles of the naturals up
    to 100 are, the default 3 among them), the operation is invoked at
    least once and at most [maxRetries + 1] times, and the outcome is
    the outcome of the last invocation (never the [lastError] thrown
    after the loop: that statement is not reached); every invocation
    before the last one threw an error that is neither an
    authentication, an authorization nor a validation error, and when
    the last one throws before the retries are used up, its error is one
    of those three kinds.  When [maxRetries] is negative or NaN, the
    operation is never invoked and [undefined] is thrown. *)
Theorem retry_invocations {A} (fn : nat → completion A) (maxRetries baseDelay : float) :
  (∀ n fuel, counts maxRetries n = true → n < fuel →
     ∃ r, retry fn maxRetries baseDelay fuel = Some r ∧
       1 ≤ invocations r ≤ n + 1 ∧
       outcome r = fn (invocations r - 1) ∧
       (∀ i, i < invocations r - 1 → ∃ e, fn i = Throw e ∧ retryable e = true) ∧
       (∀ e, outcome r = Throw e → invocations r ≤ n → retryable e = false)) ∧
  (∀ n, n ≤ 100 → counts (float_of_nat n) n = true) ∧
  (∀ fuel, PrimFloat.leb 0 maxRetries = false → 0 < fuel →
     retry fn maxRetries baseDelay fuel = Some (Run (Throw (Thrown None Undefined)) 0 [])).
Proof.
  split; [|split].
  - intros n fuel Hn Hfuel.
    destruct (retry_from_spec fn maxRetries baseDelay n fuel 0
                (Thrown None Undefined) [] Hn)
      as (r & Hr & Hinv & Hout & _ & Hbefore & Hwhy); [lia|lia|].
    exists r. split; [done|]. split; [lia|]. split; [done|]. split; [|done].
    intros i Hi. apply Hbefore. lia.
  - apply small_naturals_count.
  - intros [|fuel] Hneg Hfuel; [lia|]. unfold retry. cbn [retry_from].
    by rewrite Hneg.
Qed.

(** X8: the waits of [errorUtils.retry].  When [maxRetries] is a natural
    number, the loop waits once before each invocation but the first,
    so at most [maxRetries] times, and the i-th wait (from 0) is
    [baseDelay * 2^i]: the base delay, twice, four times the base
    delay, ... *)
Theorem retry_backoff {A} (fn : nat → completion A) (maxRetries baseDelay : float)
    (n fuel : nat) (r : run A) :
  counts maxRetries n = true →
  retry fn maxRetries baseDelay fuel = Some r →
  delays r = backoff baseDelay 0 (invocations r - 1) ∧
  length (delays r) = invocations r - 1 ∧
  length (delays r) ≤ n.
Proof.
  intros Hn Hr.
  destruct (retry_from_spec fn maxRetries baseDelay n (fuel + S n) 0
              (Thrown None Undefined) [] Hn)
    as (r' & Hr' & Hinv & _ & Hdel & _ & _); [lia|lia|].
  apply (retry_from_more_fuel _ _ _ _ _ (fuel + S n)) in Hr; [|lia].
  change (counter 0) with 0%float in Hr'. rewrite Hr' in Hr. injection Hr as ->.
  rewrite Nat.sub_0_r in Hdel. cbn [app] in Hdel.
  split; [done|]. rewrite Hdel. unfold backoff. rewrite length_map, length_seq.
  split; [done|lia].
Qed.

(** *** The retry loop of the queries *)

Lemma queries_retry_eq `{Runtime} (failureCount : nat) (error : thrown) :
  queries_retry failureCount error =
    if ToBoolean (response_status error) then
      if convertible (response_status error) then
        Normal (if PrimFloat.leb 400 (numeric (response_status error))
                   && PrimFloat.ltb (numeric (response_status error)) 500
                then false else bool_decide (failureCount < 3))
      else throw_conversion_TypeError
    else Normal (bool_decide (failureCount < 3)).
Proof.
  unfold queries_retry, and_then, ge, lt. fold (response_status error).
  destruct (ToBoolean (response_status error)); [|done].
  rewrite !ToNumber_eq. destruct (convertible (response_status error)); [|done].
  cbn [mbind completion_bind mret completion_ret].
  by destruct (PrimFloat.leb 400 _).
Qed.

Lemma queries_retry_below_3 `{Runtime} (failureCount : nat) (error : thrown) :
  queries_retry failureCount error = Normal true → failureCount < 3.
Proof.
  rewrite queries_retry_eq. destruct (ToBoolean _).
  - destruct (convertible _); [|done]. destruct (_ && _); [done|].
    by intros [= ?%bool_decide_eq_true].
  - by intros [= ?%bool_decide_eq_true].
Qed.

Lemma queries_retry_returns `{Runtime} (failureCount : nat) (error : thrown) :
  convertible (response_status error) = true →
  ∃ b, queries_retry failureCount error = Normal b.
Proof.
  intros Hok. rewrite queries_retry_eq, Hok. destruct (ToBoolean _); eauto.
Qed.

Lemma retryer_queries_spec `{Runtime} {A} (fn : nat → completion A)
    (fuel failureCount : nat) :
  (∀ i e, fn i = Throw e → convertible (response_status e) = true) →
  failureCount ≤ 3 → 4 ≤ failureCount + fuel →
  ∃ r n, retryer (RetryFn queries_retry) fn failureCount fuel = Some (r, n) ∧
    failureCount < n ≤ 4 ∧ r = fn (n - 1) ∧
    (∀ i, failureCount ≤ i < n - 1 →
       ∃ e, fn i = Throw e ∧ queries_retry i e = Normal true) ∧
    (∀ e, r = Throw e → queries_retry (n - 1) e = Normal false).
Proof.
  intros Hok.
  revert failureCount. induction fuel as [|fuel IH]; intros failureCount Hle Hfuel;
    [lia|].
  cbn [retryer shouldRetry].
  destruct (fn failureCount) as [a|error] eqn:Hfn.
  { exists (Normal a), (S failureCount). cbn.
    replace (failureCount - 0) with failureCount by lia.
    repeat split; try done; lia. }
  destruct (queries_retry_returns failureCount error (Hok _ _ Hfn)) as [[] Hretry];
    rewrite Hretry.
  - pose proof (queries_retry_below_3 _ _ Hretry).
    destruct (IH (S failureCount)) as (r & n & -> & Hn & Hr & Hbefore & Hlast);
      [lia|lia|].
    exists r, n. repeat split; try done; try lia.
    intros i Hi. destruct (decide (i = failureCount)) as [->|Hne]; [by eauto|].
    apply Hbefore. lia.
  - exists (Throw error), (S failureCount). cbn.
    replace (failureCount - 0) with failureCount by lia.
    repeat split; try done; try lia. by intros e [= <-].
Qed.

(** X9: under [queryConfig.queries.retry] the retry loop of a query
    ends, as long as the errors of the query function carry no
    [response.status] that cannot be converted to a number: the query
    function is invoked at least once and at most 4 times, the result of
    the query is the result of its last invocation, every earlier
    invocation threw an error the policy retries, and an error the query
    ends with is one the policy does not retry at that failure count.
    On an error whose [response.status] is an object that cannot be
    converted, the policy throws, and the query then never settles. *)
Theorem run_query_ends `{Runtime} {A} (queryFn : nat → completion A) :
  (∀ fuel,
     4 ≤ fuel →
     (∀ i e, queryFn i = Throw e → convertible (response_status e) = true) →
     ∃ r n, run_query queryFn fuel = Some (r, n) ∧
       1 ≤ n ≤ 4 ∧ r = queryFn (n - 1) ∧
       (∀ i, i < n - 1 → ∃ e, queryFn i = Throw e ∧ queries_retry i e = Normal true) ∧
       (∀ e, r = Throw e → queries_retry (n - 1) e = Normal false)) ∧
  (∀ fuel e,
     queryFn 0 = Throw e →
     ToBoolean (response_status e) = true →
     convertible (response_status e) = false →
     run_query queryFn fuel = None).
Proof.
  split.
  - intros fuel Hfuel Hok.
    destruct (retryer_queries_spec queryFn fuel 0 Hok)
      as (r & n & Hrun & Hn & Hr & Hb & Hl); [lia|lia|].
    exists r, n. repeat split; try done; try lia. intros i Hi. apply Hb. lia.
  - intros [|fuel] e He Hs Hc; [done|]. unfold run_query. cbn [retryer shouldRetry].
    by rewrite He, queries_retry_eq, Hs, Hc.
Qed.

(** *** Examples and witnesses *)
Import RefRuntime.

Example retry_then_success :
  retry (flaky 2) 3 1000 4 = Some (Run (Normal (Str "data")) 3 [1000; 2000]%float).
Proof. reflexivity. Qed.

(** With 2.5 retries the operation is invoked three times; the loop then
    waits a third time before its test fails, and [lastError] is
    thrown. *)
Example retry_with_a_fraction :
  retry (always_fails (A:=value) (api_error 500)) 2.5 1000 4
    = Some (Run (Throw (api_error 500)) 3 [1000; 2000; 4000]%float) ∧
  retry (always_fails (A:=value) (api_error 500)) (-1) 1000 4
    = Some (Run (Throw (Thrown None Undefined)) 0 []) ∧
  retry (always_fails (A:=value) (api_error 500)) PrimFloat.infinity 1000 4 = None.
Proof. repeat split; reflexivity. Qed.

Lemma retry_invocations_witness :
  ∃ r, retry (flaky 2) 3 1000 4 = Some r ∧
    1 ≤ invocations r ≤ 3 + 1 ∧
    outcome r = flaky 2 (invocations r - 1) ∧
    (∀ i, i < invocations r - 1 → ∃ e, flaky 2 i = Throw e ∧ retryable e = true) ∧
    (∀ e, outcome r = Throw e → invocations r ≤ 3 → retryable e = false).
Proof.
  apply (proj1 (retry_invocations (flaky 2) 3 1000) 3 4); [reflexivity|lia].
Defined.

Lemma retry_backoff_witness :
  delays (Run (Normal (Str "data")) 3 [1000; 2000]%float)
  = backoff 1000 0 (invocations (Run (Normal (Str "data")) 3 [1000; 2000]%float) - 1) ∧
  length (delays (Run (Normal (Str "data")) 3 [1000; 2000]%float))
  = invocations (Run (Normal (Str "data")) 3 [1000; 2000]%float) - 1 ∧
  length (delays (Run (Normal (Str "data")) 3 [1000; 2000]%float)) ≤ 3.
Proof.
  apply (retry_backoff (flaky 2) 3 1000 3 4); reflexivity.
Defined.

Lemma run_query_ends_witness :
  ∃ r n, run_query (fails_then 1 (axios_error 503) (Str "data")) 4 = Some (r, n) ∧
    1 ≤ n ≤ 4 ∧ r = fails_then 1 (axios_error 503) (Str "data") (n - 1) ∧
    (∀ i, i < n - 1 →
       ∃ e, fails_then 1 (axios_error 503) (Str "data") i = Throw e ∧
            queries_retry i e = Normal true) ∧
    (∀ e, r = Throw e → queries_retry (n - 1) e = Normal false).
Proof.
  apply (proj1 (run_query_ends (fails_then 1 (axios_error 503) (Str "data"))) 4);
    [lia|].
  intros i e. unfold fails_then. case_bool_decide; [|done]. by intros [= <-].
Defined.

End RetryLoopFacts.

(** ** The failures of the transport *)
Module ApiFacts.
Import Js ErrorHandling ReactQuery AuthService Api Conversions Transport Retrying.
Import Declared Failing ConversionFacts.

Lemma or_number_truthy (n c : float) :
  ToBoolean (Num c) = true → ToBoolean (Num (or_number n c)) = true.
Proof.
  intros Hc. unfold or_number.
  destruct (PrimFloat.is_zero n || PrimFloat.is_nan n) eqn:Hn; [done|].
  unfold ToBoolean. by rewrite Hn.
Qed.

Lemma or_number_idem (n c : float) :
  ToBoolean (Num c) = true → or_number (or_number n c) c = or_number n c.
Proof.
  intros Hc. pose proof (or_number_truthy n c Hc) as Ht. unfold ToBoolean in Ht.
  unfold or_number at 1. by apply negb_true_iff in Ht as ->.
Qed.

Section WithRuntime.
Context `{Runtime}.

(** [toApiError] of the plain object [{message, status, code}]. *)
Lemma toApiError_plain (message code : value) (status : float) :
  toApiError (Thrown None (object [("message", message); ("status", Num status);
                                   ("code", code)])) =
    if convertible message then
      if convertible code then
        Normal (object [("message", Str (printed message));
                        ("status", Num (or_number status 500));
                        ("code", Str (printed code))])
      else throw_conversion_TypeError
    else throw_conversion_TypeError.
Proof.
  unfold toApiError, getErrorMessage, getErrorStatus.
  cbn [instanceof thrown_class].
  change (is_object (Thrown None (object ?l))) with true.
  change (has ?k (Thrown None (object ?l))) with true.
  cbn [andb].
  change (member (Thrown None (object ?l)) "message") with message.
  change (member (Thrown None (object ?l)) "status") with (Num status).
  change (member (Thrown None (object ?l)) "code") with code.
  rewrite !String_eq. destruct (convertible message); [|done].
  cbn [fmap completion_fmap mbind completion_bind Number_ ToNumber mret completion_ret].
  by destruct (convertible code).
Qed.

Lemma logError_plain (message code : value) (status : float) :
  logError (Thrown None (object [("message", message); ("status", Num status);
                                 ("code", code)])) =
    if convertible message then Normal () else throw_conversion_TypeError.
Proof.
  unfold logError, getErrorMessage, getErrorStatus.
  cbn [instanceof thrown_class].
  change (is_object (Thrown None (object ?l))) with true.
  change (has ?k (Thrown None (object ?l))) with true.
  cbn [andb].
  change (member (Thrown None (object ?l)) "message") with message.
  change (member (Thrown None (object ?l)) "status") with (Num status).
  rewrite String_eq. by destruct (convertible message).
Qed.

Lemma toApiError_conversion_TypeError :
  toApiError conversion_TypeError = Normal (thrown_value unprintable_failure).
Proof. reflexivity. Qed.

(** What [makeApiRequest] does on a failure. *)
Lemma makeApiRequest_failure (error : AxiosError) (ls : LocalStorage) :
  makeApiRequest (inr error) ls =
    (match response error with
     | Some r =>
         if session_expired error then Throw (failure error)
         else if convertible (reply_message error r) then
           if convertible (reply_code error r) then Throw (failure error)
           else throw_conversion_TypeError
         else Throw unprintable_failure
     | None => Throw (failure error)
     end,
     if session_expired error then AuthService.logout ls else ls).
Proof.
  unfold makeApiRequest, intercept, failure, failure_message, failure_status,
    failure_code, session_expired.
  destruct (response error) as [r|]; [|reflexivity].
  destruct (PrimFloat.eqb (status r) 401 && negb (_retry error)); [reflexivity|].
  cbn [reason storage_after]. f_equal.
  fold (reply_message error r). fold (reply_code error r).
  rewrite logError_plain.
  destruct (convertible (reply_message error r)) eqn:Hm.
  - rewrite toApiError_plain, Hm.
    destruct (convertible (reply_code error r)); [|done].
    by rewrite or_number_idem.
  - unfold throw_conversion_TypeError. by rewrite toApiError_conversion_TypeError.
Qed.

Lemma makeApiRequest_inr (error : AxiosError) (ls : LocalStorage) :
  printable error = true →
  makeApiRequest (inr error) ls =
    (Throw (failure error),
     if session_expired error then AuthService.logout ls else ls).
Proof.
  intros Hp. rewrite makeApiRequest_failure. f_equal.
  unfold printable in Hp. destruct (response error) as [r|]; [|done].
  destruct (session_expired error); [done|].
  cbn [orb] in Hp. apply andb_true_iff in Hp as [-> ->]. done.
Qed.

(** Whatever [makeApiRequest] throws carries no [response]. *)
Lemma makeApiRequest_no_response (error : AxiosError) (ls : LocalStorage) (e : thrown) :
  (makeApiRequest (inr error) ls).1 = Throw e → response_status e = Undefined.
Proof.
  rewrite makeApiRequest_failure. cbn [fst].
  destruct (response error) as [r|]; [|by intros [= <-]].
  destruct (session_expired error); [by intros [= <-]|].
  destruct (convertible (reply_message error r)); [|by intros [= <-]].
  destruct (convertible (reply_code error r)); by intros [= <-].
Qed.

(** A failed request throws: a class-less object, or the [TypeError] of
    a conversion when the failure is not printable. *)
Lemma makeApiRequest_throws (error : AxiosError) (ls : LocalStorage) :
  ∃ e, (makeApiRequest (inr error) ls).1 = Throw e ∧
    (thrown_class e = None ∨ e = conversion_TypeError ∧ printable error = false).
Proof.
  rewrite makeApiRequest_failure. cbn [fst]. unfold printable.
  destruct (response error) as [r|]; [|by eexists; split; [|left]].
  destruct (session_expired error); [by eexists; split; [|left]|].
  destruct (convertible (reply_message error r));
    [|by eexists; split; [|left]].
  destruct (convertible (reply_code error r)); [by eexists; split; [|left]|].
  eexists. split; [done|]. by right.
Qed.

Lemma failure_kinds (error : AxiosError) :
  isAuthError (failure error) = PrimFloat.eqb (failure_status error) 401 ∧
  isAuthorizationError (failure error) = PrimFloat.eqb (failure_status error) 403 ∧
  isValidationError (failure error) = PrimFloat.eqb (failure_status error) 400.
Proof. repeat split; reflexivity. Qed.

Lemma failure_status_truthy (error : AxiosError) :
  ToBoolean (Num (failure_status error)) = false ↔ response error = None.
Proof.
  unfold failure_status. destruct (response error) as [r|]; [|done].
  split; [|done]. destruct (session_expired error); [done|].
  by rewrite or_number_truthy.
Qed.

Lemma typeof_string_fmap (c : completion string) (v : value) :
  Str <$> c = Normal v → typeof_string v = true.
Proof. destruct c; [|done]. by intros [= <-]. Qed.

(** A member that is not an own property can be converted. *)
Lemma convertible_member (e : thrown) (k : string) :
  is_object e && has k e = false → convertible (member e k) = true.
Proof.
  unfold is_object, has, member, own.
  destruct (thrown_value e) as [| | | | | |fields]; try by destruct (inherits_message e k).
  cbn [ToBoolean typeof_object andb].
  destruct (fields !! k); [done|]. cbn [orb].
  rewrite bool_decide_eq_false_2 by (by intros [? ?]). cbn [orb]. by intros ->.
Qed.

(** X10: when [toApiError] returns on a thrown value that is not an
    instance of [AppError], it returns an [ApiError]: a string
    [message], a number [status] that is neither zero nor NaN (500 when
    the value has none), and a [code] that is a string or [undefined].
    On such a value it returns exactly when its [message], its [status]
    and its [code] can be converted, and whenever it throws, on any
    value, it throws the [TypeError] of a conversion.  For an instance built by the constructor of [AppError]
    it copies the message and the status, and its [code] is the code as
    a string: "undefined" when the instance was built without one.  For
    a [NetworkError] the status is 0. *)
Theorem toApiError_returns_ApiError :
  (∀ e v, instanceof e AppError = false → toApiError e = Normal v →
     ApiError v = true ∧ ToBoolean (get_opt v "status") = true) ∧
  (∀ e, instanceof e AppError = false →
     ((∃ v, toApiError e = Normal v) ↔
      convertible (member e "message") = true ∧
      convertible (member e "status") = true ∧
      convertible (member e "code") = true)) ∧
  (∀ e x, toApiError e = Throw x → x = conversion_TypeError) ∧
  (∀ message status code,
     toApiError (new_AppError message status code) =
       Normal (object [("message", Str message);
                       ("status", Num (default 500%float status));
                       ("code", Str (default "undefined" code))])) ∧
  (∀ message,
     toApiError (new_NetworkError message) =
       Normal (object [("message", Str (default "Network error occurred" message));
                       ("status", Num 0);
                       ("code", Str "NETWORK_ERROR")])).
Proof.
  split; [|split; [|split; [|split]]].
  - intros e v He. unfold toApiError, getErrorMessage, getErrorStatus. rewrite He.
    destruct (if is_object e && has "message" e
              then Str <$> String_ (member e "message")
              else if typeof_string (thrown_value e) then mret (thrown_value e)
                   else mret (Str "An unexpected error occurred"))
      as [message|x] eqn:Hmessage; [|done].
    assert (typeof_string message = true) as Hm.
    { destruct (is_object e && has "message" e);
        [by eapply typeof_string_fmap|].
      destruct (typeof_string (thrown_value e)) eqn:Hs; by injection Hmessage as <-. }
    cbn [mbind completion_bind].
    destruct (if is_object e && has "status" e
              then Number_ (member e "status")
                   ≫= λ status, mret (Num (or_number status 500))
              else mret (Num 500)) as [status|x] eqn:Hstatus; [|done].
    assert (is_number status = true ∧ ToBoolean status = true) as [Hn Ht].
    { destruct (is_object e && has "status" e); [|by injection Hstatus as <-].
      destruct (Number_ _) as [n|x]; [|done]. injection Hstatus as <-.
      split; [done|]. by apply or_number_truthy. }
    cbn [mbind completion_bind].
    destruct (if is_object e && has "code" e
              then Str <$> String_ (member e "code") else mret Undefined)
      as [code|x] eqn:Hcode; [|done].
    assert (optional typeof_string code = true) as Hc.
    { destruct (is_object e && has "code" e); [|by injection Hcode as <-].
      apply typeof_string_fmap in Hcode. by destruct code. }
    intros [= <-]. unfold ApiError.
    change (get_opt (object ?l) "message") with message.
    change (get_opt (object ?l) "status") with status.
    change (get_opt (object ?l) "code") with code.
    by rewrite Hm, Hn, Hc.
  - intros e He. unfold toApiError, getErrorMessage, getErrorStatus.
    rewrite !String_eq, Number_eq, He.
    pose proof (convertible_member e "message") as Hm.
    pose proof (convertible_member e "status") as Hs.
    pose proof (convertible_member e "code") as Hc.
    destruct (is_object e && has "message" e), (is_object e && has "status" e),
      (is_object e && has "code" e);
      try rewrite (Hm eq_refl); try rewrite (Hs eq_refl); try rewrite (Hc eq_refl);
      destruct (typeof_string (thrown_value e));
      repeat match goal with
             | |- context [convertible ?x] =>
                 lazymatch x with
                 | member _ _ => destruct (convertible x)
                 end
             end;
      cbn [fmap completion_fmap mbind completion_bind];
      (split; [intros [v Hv]; (done || by discriminate Hv)
              |intros (? & ? & ?); (done || by eexists)]).
  - intros e x. unfold toApiError, getErrorMessage, getErrorStatus.
    rewrite !String_eq, Number_eq.
    destruct (instanceof e AppError); cbn [mbind completion_bind];
      destruct (is_object e && has "message" e), (is_object e && has "status" e),
        (is_object e && has "code" e), (typeof_string (thrown_value e)),
        (convertible (member e "message")), (convertible (member e "status")),
        (convertible (member e "code"));
      unfold throw_conversion_TypeError, mret, completion_ret;
      cbn [fmap completion_fmap mbind completion_bind]; congruence.
  - intros message status [code|]; reflexivity.
  - intros message. reflexivity.
Qed.

(** X11: when a request fails, [makeApiRequest] throws, and leaves
    [localStorage] without the token and the user exactly when the reply
    is a 401 to a request not marked [_retry].  When the message and the
    code of the failure can be printed, what it throws is a plain object
    (an instance of no class) that is an [ApiError] whose [code] is a
    string; its [status] is 0 exactly when there was no reply (otherwise
    it is neither zero nor NaN), and 401 when the session expired.  When
    the message of the reply cannot be printed, it throws the [ApiError]
    made of the [TypeError] of the conversion, with status 500; when only
    the code cannot, it throws that [TypeError] itself. *)
Theorem makeApiRequest_throws_ApiError (error : AxiosError) (ls : LocalStorage) :
  ∃ e, (makeApiRequest (inr error) ls).1 = Throw e ∧
    (makeApiRequest (inr error) ls).2 =
      (if session_expired error then AuthService.logout ls else ls) ∧
    (thrown_class e = None ∧ ApiError (thrown_value e) = true ∨
     e = conversion_TypeError) ∧
    (printable error = true →
     thrown_class e = None ∧
     typeof_string (get_opt (thrown_value e) "code") = true ∧
     (ToBoolean (get_opt (thrown_value e) "status") = false ↔ response error = None) ∧
     (session_expired error = true → get_opt (thrown_value e) "status" = Num 401)) ∧
    (∀ r, response error = Some r → session_expired error = false →
       (convertible (reply_message error r) = false → e = unprintable_failure) ∧
       (convertible (reply_message error r) = true →
        convertible (reply_code error r) = false → e = conversion_TypeError)).
Proof.
  rewrite makeApiRequest_failure. cbn [fst snd].
  assert (∀ P : thrown → Prop, P (failure error) →
            ∃ e, Throw (A:=value) (failure error) = Throw e ∧ P e) as Hfailure
    by (intros P HP; by exists (failure error)).
  assert (printable error = true →
          thrown_class (failure error) = None ∧
          typeof_string (get_opt (thrown_value (failure error)) "code") = true ∧
          (ToBoolean (get_opt (thrown_value (failure error)) "status") = false
           ↔ response error = None) ∧
          (session_expired error = true →
           get_opt (thrown_value (failure error)) "status" = Num 401)) as Hprintable.
  { intros _. split; [done|]. split; [done|].
    split; [apply failure_status_truthy|].
    change (get_opt (thrown_value (failure error)) "status")
      with (Num (failure_status error)).
    unfold failure_status, session_expired.
    destruct (response error) as [r|]; [|done]. by intros ->. }
  unfold printable in *.
  destruct (response error) as [r|] eqn:Hr.
  - destruct (session_expired error) eqn:He.
    { apply Hfailure. split; [done|]. split; [by left|]. split; [done|].
      by intros ? [= <-]. }
    destruct (convertible (reply_message error r)) eqn:Hm.
    + destruct (convertible (reply_code error r)) eqn:Hc.
      * apply Hfailure. split; [done|]. split; [by left|]. split; [done|].
        intros ? [= <-] _. split; congruence.
      * exists conversion_TypeError. split; [done|]. split; [done|].
        split; [by right|]. split; [done|].
        intros ? [= <-] _. split; congruence.
    + exists unprintable_failure. split; [done|]. split; [done|].
      split; [by left|]. split; [done|].
      intros ? [= <-] _. split; congruence.
  - apply Hfailure. split; [done|]. split; [by left|]. split; [done|]. done.
Qed.

(** X12: a 401 reply to a request not marked [_retry] signs the browser
    out of [localStorage]: the next request carries no [Authorization]
    header and [authService.isAuthenticated] is false.  The session store
    is not told: it keeps its state until [initialize] is called, which
    then signs it out.  Every other failure leaves [localStorage] as it
    was. *)
Theorem expired_session_clears_storage (error : AxiosError) (w : AuthStore.World) :
  (session_expired error = true →
   authorization (makeApiRequest (inr error) (AuthStore.storage w)).2 = None ∧
   AuthService.isAuthenticated (makeApiRequest (inr error) (AuthStore.storage w)).2
     = false ∧
   AuthStore.store
     (AuthStore.step w
        (AuthStore.StorageWritten (makeApiRequest (inr error) (AuthStore.storage w)).2))
     = AuthStore.store w ∧
   AuthStore.store
     (AuthStore.initialize
        (AuthStore.step w
           (AuthStore.StorageWritten (makeApiRequest (inr error) (AuthStore.storage w)).2)))
     = Session.signed_out) ∧
  (session_expired error = false →
   (makeApiRequest (inr error) (AuthStore.storage w)).2 = AuthStore.storage w).
Proof.
  rewrite makeApiRequest_failure. split; intros ->; done.
Qed.

(** X13: [queryConfig.queries.retry] never sees the status of a failure
    of the transport: for every error [makeApiRequest] throws it answers
    [failureCount < 3].  So a query whose function goes through
    [makeApiRequest] and keeps failing is fetched 4 times, whatever the
    failures are (a 404, a 401, no connection). *)
Theorem queries_retry_every_api_failure {A} (errors : nat → AxiosError)
    (storages : nat → LocalStorage) (k : value → completion A) :
  (∀ i n e, (makeApiRequest (inr (errors i)) (storages i)).1 = Throw e →
     queries_retry n e = Normal (bool_decide (n < 3))) ∧
  (∀ fuel, 4 ≤ fuel →
     run_query (λ i, (makeApiRequest (inr (errors i)) (storages i)).1 ≫= k) fuel
     = Some ((makeApiRequest (inr (errors 3)) (storages 3)).1 ≫= k, 4)).
Proof.
  assert (∀ i n e, (makeApiRequest (inr (errors i)) (storages i)).1 = Throw e →
            queries_retry n e = Normal (bool_decide (n < 3))) as Hretry.
  { intros i n e He%makeApiRequest_no_response. unfold queries_retry.
    fold (response_status e). by rewrite He. }
  split; [exact Hretry|].
  intros fuel Hfuel. do 4 (destruct fuel as [|fuel]; [lia|]).
  unfold run_query. cbn [retryer shouldRetry].
  destruct (makeApiRequest_throws (errors 0) (storages 0)) as (e0 & H0 & _).
  destruct (makeApiRequest_throws (errors 1) (storages 1)) as (e1 & H1 & _).
  destruct (makeApiRequest_throws (errors 2) (storages 2)) as (e2 & H2 & _).
  destruct (makeApiRequest_throws (errors 3) (storages 3)) as (e3 & H3 & _).
  rewrite H0, H1, H2, H3. cbn [mbind completion_bind].
  by rewrite (Hretry 0 0 e0 H0), (Hretry 1 1 e1 H1), (Hretry 2 2 e2 H2),
    (Hretry 3 3 e3 H3).
Qed.

(** X14: an error thrown by [makeApiRequest] for a failure whose message
    and code can be printed is an instance of no error class.  So
    [isNetworkError] is false for it, even when the connection failed,
    and when a login or a registration of the session store fails so in
    the transport, the store keeps the fallback message of the action
    ("Login failed", ...), never the message of the server.  (When the
    code of the reply cannot be printed, the error is a [TypeError].) *)
Theorem api_failures_have_no_class (error : AxiosError) (ls : LocalStorage)
    (e : thrown) :
  (makeApiRequest (inr error) ls).1 = Throw e →
  (printable error = true →
   (∀ C, instanceof e C = false) ∧
   isNetworkError e = Normal false ∧
   (∀ c w, AuthStore.error (AuthStore.store (AuthStore.rejected c e w))
           = Some (AuthStore.fallback_message c))) ∧
  (instanceof e Error = true → e = conversion_TypeError ∧ printable error = false).
Proof.
  intros He. split.
  - intros Hp. rewrite makeApiRequest_inr in He by done. by injection He as <-.
  - destruct (makeApiRequest_throws error ls) as (e' & He' & Hclass).
    rewrite He in He'. injection He' as <-.
    intros Hi. destruct Hclass as [Hnone|[-> Hp]]; [|done].
    unfold instanceof in Hi. by rewrite Hnone in Hi.
Qed.

(** X15: [errorUtils.retry] gives up at once on the printable failures
    of the transport that answer 400, 401 or 403: the operation is
    invoked once and nothing is waited, whatever the number of retries
    (that is not negative or NaN).  A failure without a reply is one it
    retries. *)
Theorem retry_gives_up_on_client_errors {A} (error : AxiosError) (ls : LocalStorage)
    (e : thrown) :
  (makeApiRequest (inr error) ls).1 = Throw e →
  printable error = true →
  (∀ r, response error = Some r →
     status r = 400%float ∨ status r = 401%float ∨ status r = 403%float →
     retryable e = false ∧
     ∀ (fn : nat → completion A) maxRetries baseDelay fuel,
       fn 0 = Throw e → PrimFloat.leb 0 maxRetries = true → 0 < fuel →
       retry fn maxRetries baseDelay fuel = Some (Run (Throw e) 1 [])) ∧
  (response error = None → retryable e = true).
Proof.
  intros He Hp. rewrite makeApiRequest_inr in He by done. injection He as <-. split.
  - intros r Hr Hstatus.
    assert (retryable (failure error) = false) as Hgive.
    { unfold retryable. destruct (failure_kinds error) as (-> & -> & ->).
      unfold failure_status, session_expired. rewrite Hr.
      destruct Hstatus as [-> | [-> | ->]]; by destruct (_retry error). }
    split; [done|]. intros fn maxRetries baseDelay [|fuel] Hfn Hpos Hfuel; [lia|].
    unfold retry. cbn [retry_from]. rewrite Hpos, Hfn.
    unfold retryable in Hgive. apply negb_false_iff in Hgive.
    apply orb_true_iff in Hgive as [-> | Hval]; [done|].
    destruct (isAuthError _ || isAuthorizationError _); [done|]. by rewrite Hval.
  - intros Hr. unfold retryable. destruct (failure_kinds error) as (-> & -> & ->).
    unfold failure_status. by rewrite Hr.
Qed.

(** X16: normalizing again an error that [makeApiRequest] threw for a
    printable failure (as a caller does with [handleApiError] or
    [errorUtils.toApiError]) changes nothing when there was a reply;
    when there was none, the status 0 of the error becomes 500. *)
Theorem toApiError_of_a_failure (error : AxiosError) (ls : LocalStorage) (e : thrown) :
  (makeApiRequest (inr error) ls).1 = Throw e →
  printable error = true →
  (response error ≠ None → toApiError e = Normal (thrown_value e)) ∧
  (response error = None →
   get_opt (thrown_value e) "status" = Num 0 ∧
   ∃ v, toApiError e = Normal v ∧ get_opt v "status" = Num 500).
Proof.
  intros He Hp. rewrite makeApiRequest_inr in He by done. injection He as <-.
  assert (toApiError (failure error) =
          Normal (object [("message", Str (failure_message error));
                          ("status", Num (or_number (failure_status error) 500));
                          ("code", Str (failure_code error))])) as ->.
  { unfold failure. by rewrite toApiError_plain. }
  split.
  - intros Hr. unfold failure, failure_status. cbn [thrown_value].
    destruct (response error) as [r|]; [|done].
    destruct (session_expired error); [reflexivity|]. by rewrite or_number_idem.
  - intros Hr.
    change (get_opt (thrown_value (failure error)) "status")
      with (Num (failure_status error)).
    unfold failure_status. rewrite Hr. split; [reflexivity|].
    eexists. split; reflexivity.
Qed.

End WithRuntime.

(** *** Examples and witnesses, on the reference runtime *)
Import RefRuntime.

Example makeApiRequest_samples :
  makeApiRequest (inr not_found) signed_in_storage =
    (Throw (Thrown None (object [("message", Str "Doctor not found");
                                 ("status", Num 404);
                                 ("code", Str "ERR_BAD_REQUEST")])),
     signed_in_storage) ∧
  makeApiRequest (inr unauthorized) signed_in_storage =
    (Throw (Thrown None (object [("message", Str "Session expired. Please login again.");
                                 ("status", Num 401);
                                 ("code", Str "AUTH_ERROR")])),
     {| auth_token := None; user_data := None |}) ∧
  makeApiRequest (inr offline) signed_in_storage =
    (Throw (Thrown None (object [
       ("message",
        Str "Network connection failed. Please check your internet connection.");
       ("status", Num 0);
       ("code", Str "NETWORK_ERROR")])),
     signed_in_storage) ∧
  authorization signed_in_storage = Some "Bearer tok".
Proof. repeat split; reflexivity. Qed.

(** A reply whose code cannot be printed makes [makeApiRequest] throw a
    [TypeError], which [errorUtils.retry] retries although the reply was
    a 400; a reply whose message cannot be printed is reported with the
    status 500 and the message of that [TypeError]. *)
Example makeApiRequest_odd_replies :
  makeApiRequest (inr odd_code) signed_in_storage
    = (Throw conversion_TypeError, signed_in_storage) ∧
  instanceof conversion_TypeError TypeError = true ∧
  retryable conversion_TypeError = true ∧
  makeApiRequest (inr odd_message) signed_in_storage =
    (Throw (Thrown None (object [
       ("message", Str "Cannot convert object to primitive value");
       ("status", Num 500);
       ("code", Undefined)])),
     signed_in_storage).
Proof. repeat split; reflexivity. Qed.

Example error_classes :
  isNetworkError (new_NetworkError None) = Normal true ∧
  isNetworkError (axios_error 0) = Normal false ∧
  isNetworkError (Thrown (Some Error) (object [("message", Str "Network Error")]))
    = Normal true ∧
  isAuthError (new_AuthenticationError None) = true ∧
  isAuthorizationError (new_AuthorizationError None) = true ∧
  isValidationError (new_ValidationAppError "Invalid" (Arr []) None) = true ∧
  getErrorStatus (new_AppError "Oops" None None) = Normal (Num 500).
Proof. repeat split; reflexivity. Qed.

Lemma toApiError_returns_ApiError_witness :
  (∃ v, toApiError (axios_error 404) = Normal v) ∧
  ApiError (object [("message", Str "Request failed"); ("status", Num 500);
                    ("code", Undefined)]) = true.
Proof.
  split.
  - apply (proj1 (proj2 toApiError_returns_ApiError) (axios_error 404) eq_refl).
    repeat split; reflexivity.
  - apply (proj1 toApiError_returns_ApiError (axios_error 404)); reflexivity.
Defined.

Lemma makeApiRequest_throws_ApiError_witness :
  ∃ e, (makeApiRequest (inr unauthorized) signed_in_storage).1 = Throw e ∧
       get_opt (thrown_value e) "status" = Num 401.
Proof.
  destruct (makeApiRequest_throws_ApiError unauthorized signed_in_storage)
    as (e & He & _ & _ & Hprintable & _).
  exists e. split; [exact He|]. apply Hprintable; reflexivity.
Defined.

Lemma expired_session_clears_storage_witness :
  AuthService.isAuthenticated
    (makeApiRequest (inr unauthorized)
       (AuthStore.storage (Session.persisted "tok" Session.john))).2 = false ∧
  (makeApiRequest (inr not_found)
     (AuthStore.storage (Session.persisted "tok" Session.john))).2
  = AuthStore.storage (Session.persisted "tok" Session.john).
Proof.
  split.
  - apply (proj1 (expired_session_clears_storage unauthorized
                    (Session.persisted "tok" Session.john))).
    reflexivity.
  - apply (proj2 (expired_session_clears_storage not_found
                    (Session.persisted "tok" Session.john))).
    reflexivity.
Defined.

Lemma queries_retry_every_api_failure_witness :
  run_query (λ i, (makeApiRequest (inr not_found) signed_in_storage).1
                    ≫= ResponseTransformers.transformDoctor) 4
  = Some ((makeApiRequest (inr not_found) signed_in_storage).1
            ≫= ResponseTransformers.transformDoctor, 4).
Proof.
  apply (proj2 (queries_retry_every_api_failure (λ _, not_found)
                  (λ _, signed_in_storage) ResponseTransformers.transformDoctor)).
  lia.
Defined.

Lemma api_failures_have_no_class_witness :
  AuthStore.error
    (AuthStore.store
       (AuthStore.rejected AuthStore.login
          (failure unauthorized) Session.fresh_start))
  = Some "Login failed".
Proof.
  apply (proj1 (api_failures_have_no_class unauthorized signed_in_storage
                  (failure unauthorized) eq_refl) eq_refl).
Defined.

Lemma retry_gives_up_on_client_errors_witness :
  retry (always_fails (A:=value) (failure unauthorized)) 3 1000 1
  = Some (Run (Throw (failure unauthorized)) 1 []).
Proof.
  apply (proj1 (retry_gives_up_on_client_errors (A:=value) unauthorized
                  signed_in_storage (failure unauthorized) eq_refl eq_refl)
           {| status := 401; data := object [("message", Str "Invalid token")] |}).
  - reflexivity.
  - right. by left.
  - reflexivity.
  - reflexivity.
  - lia.
Defined.

Lemma toApiError_of_a_failure_witness :
  toApiError (failure not_found) = Normal (thrown_value (failure not_found)) ∧
  get_opt (thrown_value (failure offline)) "status" = Num 0.
Proof.
  assert ((makeApiRequest (inr not_found) signed_in_storage).1
          = Throw (failure not_found)) as Hnot_found by reflexivity.
  assert ((makeApiRequest (inr offline) signed_in_storage).1
          = Throw (failure offline)) as Hoffline by reflexivity.
  split.
  - apply (proj1 (toApiError_of_a_failure not_found signed_in_storage
                    (failure not_found) Hnot_found eq_refl)).
    discriminate.
  - apply (proj2 (toApiError_of_a_failure offline signed_in_storage
                    (failure offline) Hoffline eq_refl)).
    reflexivity.
Defined.

End ApiFacts.

(** ** The session over time *)
Module PersistenceFacts.
Import AuthService AuthStore Session Persistence.

Lemma run_snoc (w : World) (evs : list event) (ev : event) :
  run w (evs ++ [ev]) = step (run w evs) ev.
Proof. unfold run. by rewrite foldl_app. Qed.

Lemma initialize_storage (w : World) : storage (initialize w) = storage w.
Proof. unfold initialize. by destruct (token_and_user _ _) as [[t u]|]. Qed.

Lemma storage_kept (w : World) (evs : list event) :
  Forall (λ ev, keeps_storage ev = true) evs → storage (run w evs) = storage w.
Proof.
  intros Hevs. revert w. induction Hevs as [|ev evs Hev _ IH]; intros w; [done|].
  cbn. fold (run (step w ev) evs). rewrite IH.
  destruct ev; try done. apply initialize_storage.
Qed.

Lemma initialize_reads_storage (w w' : World) :
  storage w = storage w' → store (initialize w) = store (initialize w').
Proof.
  unfold initialize. intros ->. by destruct (token_and_user _ _) as [[t u]|].
Qed.

Lemma signed_out_kept (w : World) (evs : list event) :
  Forall (λ ev, keeps_storage ev = true) evs →
  storage w = {| auth_token := None; user_data := None |} →
  isAuthenticated (store w) = false →
  token (store w) = None →
  isAuthenticated (store (run w evs)) = false ∧ token (store (run w evs)) = None.
Proof.
  intros Hevs. revert w.
  induction Hevs as [|ev evs Hev _ IH]; intros w Hs Ha Ht; [done|].
  cbn. fold (run (step w ev) evs).
  apply IH; destruct ev; try done; cbn; unfold initialize; by rewrite Hs.
Qed.

Lemma step_coherent (w : World) (ev : event) :
  own_event ev = true →
  (∀ t, token (store w) = Some t → auth_token (storage w) = Some t) →
  (∀ u, user (store w) = Some u → user_data (storage w) = Some u) →
  (∀ t, token (store (step w ev)) = Some t → auth_token (storage (step w ev)) = Some t) ∧
  (∀ u, user (store (step w ev)) = Some u → user_data (storage (step w ev)) = Some u).
Proof.
  intros Hev Ht Hu.
  destruct ev as [c|c u t|c e| |u|t| | | |ls]; try done; cbn;
    try (split; intros; by (congruence || auto)).
  unfold initialize, token_and_user, getToken, getUser.
  destruct (auth_token (storage w)) as [t|] eqn:Et; [|done].
  destruct (user_data (storage w)) as [u|] eqn:Eu; [|done].
  case_bool_decide; cbn; [done|]. rewrite Et, Eu. split; congruence.
Qed.

Lemma step_loading (w : World) (ev : event) :
  (isLoading (store w) = true → error (store w) = None) →
  isLoading (store (step w ev)) = true → error (store (step w ev)) = None.
Proof.
  intros Hw. destruct ev; cbn; try done.
  unfold initialize. by destruct (token_and_user _ _) as [[t u]|].
Qed.

Lemma happen_storage `{Js.Runtime} (w : World) (h : happening) :
  keeps_session h = true → storage (happen w h) = storage w.
Proof.
  destruct h as [ev|c error]; cbn [keeps_session happen].
  - destruct ev; try done. intros _. apply initialize_storage.
  - intros Hkeep%negb_true_iff. rewrite ApiFacts.makeApiRequest_failure, Hkeep.
    cbn [fst snd]. by repeat case_match.
Qed.

Lemma play_storage `{Js.Runtime} (w : World) (hs : list happening) :
  Forall (λ h, keeps_session h = true) hs → storage (play w hs) = storage w.
Proof.
  intros Hhs. revert w. induction Hhs as [|h hs Hh _ IH]; intros w; [done|].
  cbn. fold (play (happen w h) hs). by rewrite IH, happen_storage.
Qed.

Lemma happen_expired `{Js.Runtime} (w : World) (c : call) (error : Api.AxiosError) :
  Transport.session_expired error = true →
  storage (happen w (Fails c error)) = {| auth_token := None; user_data := None |}.
Proof.
  intros Hexpired. cbn [happen].
  rewrite ApiFacts.makeApiRequest_failure, Hexpired. cbn [fst snd].
  by repeat case_match.
Qed.

(** X17: a login survives a page load.  After a login or a registration
    resolved with a token that is not empty, [initialize] brings back
    exactly that user and that token, whatever happened in between that
    left the session in [localStorage]: page loads, other calls of
    [initialize], and logins or registrations whose request failed with
    anything but a 401 (the store then shows no session, but
    [localStorage] still holds the earlier one).  A call that fails with
    a 401 ends the session: its interceptor clears [localStorage], and
    from then on [initialize] signs the store out. *)
Theorem login_is_rehydrated `{Js.Runtime} (u : User) (t : string) (w : World)
    (hs : list happening) :
  t ≠ "" →
  Forall (λ h, keeps_session h = true) hs →
  store (initialize (play (fulfilled u t w) hs)) = signed_in u t ∧
  ∀ c error hs',
    Transport.session_expired error = true →
    Forall (λ h, keeps_session h = true) hs' →
    store (initialize (play (happen (play (fulfilled u t w) hs) (Fails c error)) hs'))
    = signed_out.
Proof.
  intros Ht Hhs. split.
  - rewrite (initialize_reads_storage _ (fulfilled u t w)) by by apply play_storage.
    unfold initialize, token_and_user. cbn. by rewrite bool_decide_eq_false_2.
  - intros c error hs' Hexpired Hhs'.
    unfold initialize. by rewrite play_storage, happen_expired.
Qed.

(** X18: a logout is final.  [logout] leaves the store signed out, and
    as long as nothing writes the two keys of [localStorage] again (no
    login or registration resolves, no [setToken], no [setUser]), the
    store stays without a token and not authenticated,
    [authService.isAuthenticated] stays false, and [initialize] gives the
    signed-out state. *)
Theorem logout_is_final (w : World) (evs : list event) :
  Forall (λ ev, keeps_storage ev = true) evs →
  store (logout w) = signed_out ∧
  isAuthenticated (store (run (logout w) evs)) = false ∧
  token (store (run (logout w) evs)) = None ∧
  store (initialize (run (logout w) evs)) = signed_out ∧
  AuthService.isAuthenticated (storage (run (logout w) evs)) = false.
Proof.
  intros Hevs. split; [done|].
  destruct (signed_out_kept (logout w) evs Hevs) as [Ha Ht]; try done.
  split; [done|]. split; [done|].
  split.
  - by rewrite (initialize_reads_storage _ (logout w)) by by apply storage_kept.
  - by rewrite storage_kept.
Qed.

(** X19: as long as only the actions of the store write the two keys of
    [localStorage], the store holds no token and no user that
    [localStorage] does not hold: a token in the store is the token
    under ['auth_token'], a user in the store is the user under
    ['user_data'], from the creation of the store on and across page
    loads. *)
Theorem store_agrees_with_storage (ls : LocalStorage) (evs : list event) :
  Forall (λ ev, own_event ev = true) evs →
  (∀ t, token (store (run {| store := initial; storage := ls |} evs)) = Some t →
     auth_token (storage (run {| store := initial; storage := ls |} evs)) = Some t) ∧
  (∀ u, user (store (run {| store := initial; storage := ls |} evs)) = Some u →
     user_data (storage (run {| store := initial; storage := ls |} evs)) = Some u).
Proof.
  induction evs as [|ev evs IH] using rev_ind; intros Hevs; [done|].
  apply Forall_app in Hevs as [Hevs Hev]. rewrite Forall_singleton in Hev.
  rewrite run_snoc. destruct (IH Hevs) as [Ht Hu].
  apply step_coherent; [exact Hev|exact Ht|exact Hu].
Qed.

(** X20: in every reachable state of the session store, no error is
    shown while a call is pending: when [isLoading] is true, [error] is
    null. *)
Theorem loading_shows_no_error (w : World) :
  reachable w → isLoading (store w) = true → error (store w) = None.
Proof.
  induction 1 as [ls|w ev _ IH]; [done|]. by apply step_loading.
Qed.

(** *** Witnesses, on the reference runtime *)
Import RefRuntime.

Lemma login_is_rehydrated_witness :
  store (initialize (play (fulfilled john "tok" fresh_start) a_wrong_password))
  = signed_in john "tok".
Proof.
  refine (proj1 (login_is_rehydrated john "tok" fresh_start a_wrong_password _ _)).
  - discriminate.
  - repeat constructor.
Defined.

Example a_wrong_password_signs_out_the_store :
  isAuthenticated (store (play (fulfilled john "tok" fresh_start) a_wrong_password))
  = false ∧
  store (initialize
           (happen (fulfilled john "tok" fresh_start)
              (Fails login Transport.unauthorized)))
  = signed_out.
Proof. split; reflexivity. Qed.

Lemma logout_is_final_witness :
  store (initialize (run (logout (persisted "tok" john)) a_failed_login)) = signed_out.
Proof.
  apply (proj1 (proj2 (proj2 (proj2
           (logout_is_final (persisted "tok" john) a_failed_login
              ltac:(repeat constructor)))))).
Defined.

Lemma store_agrees_with_storage_witness :
  auth_token (storage (run fresh_start [Begin login; Fulfilled login john "tok"; Reload]))
  = Some "tok".
Proof.
  apply (proj1 (store_agrees_with_storage {| auth_token := None; user_data := None |}
                  [Begin login; Fulfilled login john "tok"; Reload]
                  ltac:(repeat constructor))).
  reflexivity.
Defined.

Lemma loading_shows_no_error_witness :
  error (store (step (step fresh_start
                        (Rejected login (Js.Thrown None Js.Undefined)))
                  (Begin login))) = None.
Proof.
  apply (loading_shows_no_error
           (step (step fresh_start (Rejected login (Js.Thrown None Js.Undefined)))
              (Begin login))).
  - do 2 apply reachable_step. apply reachable_initial.
  - reflexivity.
Defined.

End PersistenceFacts.

(** ** The modals and the slices of the UI store *)
Module ModalFacts.
Import UIStore Slices.

Lemma modals_fire (fired : list Timer) (s : UIState) :
  modals (foldl (λ s x, removeNotification (target x) s) s fired) = modals s ∧
  isLoading (foldl (λ s x, removeNotification (target x) s) s fired) = isLoading s.
Proof.
  revert s. induction fired as [|x fired IH]; intros s; [done|].
  cbn. by destruct (IH (removeNotification (target x) s)) as [-> ->].
Qed.

Lemma step_other_slice (w : World) (ev : event) :
  (about_notifications ev = false →
   notifications (ui (step w ev)) = notifications (ui w) ∧
   timers (step w ev) = timers w ∧ now (step w ev) = now w) ∧
  (about_notifications ev = true →
   modals (ui (step w ev)) = modals (ui w) ∧
   isLoading (ui (step w ev)) = isLoading (ui w)).
Proof.
  destruct ev as [b|g n|j| |m|m|m| |ms]; cbn; split; try done; intros _.
  - unfold addNotification. by destruct (_ && _).
  - apply modals_fire.
Qed.

Lemma UIState_eq (s s' : UIState) :
  isLoading s = isLoading s' → notifications s = notifications s' →
  modals s = modals s' → s = s'.
Proof. destruct s, s'. cbn. by intros -> -> ->. Qed.

(** X21: the slices of the UI store do not disturb each other.  A run
    of loading and modal actions leaves the notifications, the pending
    timers and the clock as they were; a run of notification actions and
    of time passing (timers firing) leaves the modal flags and the
    loading flag as they were. *)
Theorem ui_slices_are_independent (w : World) (evs : list event) :
  (Forall (λ ev, about_notifications ev = false) evs →
   notifications (ui (run w evs)) = notifications (ui w) ∧
   timers (run w evs) = timers w ∧ now (run w evs) = now w) ∧
  (Forall (λ ev, about_notifications ev = true) evs →
   modals (ui (run w evs)) = modals (ui w) ∧
   isLoading (ui (run w evs)) = isLoading (ui w)).
Proof.
  split; intros Hevs; revert w;
    (induction Hevs as [|ev evs Hev _ IH]; intros w; [done|]);
    cbn; fold (run (step w ev) evs).
  - destruct (IH (step w ev)) as (-> & -> & ->).
    by apply (step_other_slice w ev).
  - destruct (IH (step w ev)) as (-> & ->).
    by apply (step_other_slice w ev).
Qed.

(** X22: the modal actions.  [toggleModal] after [openModal] is
    [closeModal], and after [closeModal] it is [openModal]; toggling a
    modal twice gives the state back when the store has a flag for it.
    Toggling a modal the store has no flag for opens it, unless its name
    is one every object inherits from [Object.prototype] (as
    "constructor" or "toString"): the inherited value is truthy, so
    the modal gets the flag false.  [closeAllModals] sets every flag the
    store has to false and adds none; it drops a flag named
    "__proto__" and no other; and it is idempotent. *)
Theorem modal_actions (s : UIState) (modal : string) :
  toggleModal modal (openModal modal s) = closeModal modal s ∧
  toggleModal modal (closeModal modal s) = openModal modal s ∧
  (is_Some (modals s !! modal) → toggleModal modal (toggleModal modal s) = s) ∧
  (modals s !! modal = None →
   toggleModal modal s =
     if bool_decide (modal ∈ Js.Object_prototype)
     then closeModal modal s else openModal modal s) ∧
  (∀ other, modals (closeAllModals s) !! other =
            if bool_decide (other = "__proto__") then None
            else (λ _, false) <$> modals s !! other) ∧
  closeAllModals (closeAllModals s) = closeAllModals s.
Proof.
  split; [|split; [|split; [|split; [|split]]]].
  - apply UIState_eq; try done. cbn. unfold modal_truthy.
    by rewrite lookup_insert_eq, insert_insert_eq.
  - apply UIState_eq; try done. cbn. unfold modal_truthy.
    by rewrite lookup_insert_eq, insert_insert_eq.
  - intros [b Hb]. apply UIState_eq; try done. cbn. unfold modal_truthy.
    rewrite lookup_insert_eq, insert_insert_eq, Hb.
    rewrite negb_involutive. by apply insert_id.
  - intros Hm. unfold toggleModal, modal_truthy. rewrite Hm.
    by destruct (bool_decide _).
  - intros other. cbn. rewrite lookup_fmap. case_bool_decide as Ho.
    + subst other. by rewrite lookup_delete_eq.
    + by rewrite lookup_delete_ne.
  - apply UIState_eq; try done. cbn.
    apply map_eq. intros k.
    rewrite !lookup_fmap. destruct (decide (k = "__proto__")) as [->|Hk].
    + by rewrite !lookup_delete_eq.
    + rewrite !lookup_delete_ne, lookup_fmap, lookup_delete_ne by done.
      by destruct (modals s !! k).
Qed.

Example modal_names :
  modals (toggleModal "constructor" initial) !! "constructor" = Some false ∧
  modals (toggleModal "details" initial) !! "details" = Some true ∧
  modals (closeAllModals (openModal "__proto__" initial)) !! "__proto__" = None ∧
  modals (closeAllModals (openModal "details" initial)) !! "details" = Some false.
Proof. repeat split; reflexivity. Qed.

(** *** Witnesses *)

Lemma ui_slices_are_independent_witness :
  notifications (ui (run showing_one
                       [OpenModal "statusUpdate"; SetLoading true; CloseAllModals]))
  = notifications (ui showing_one) ∧
  modals (ui (run showing_one [Advance 5000; ClearNotifications]))
  = modals (ui showing_one).
Proof.
  split.
  - apply (proj1 (ui_slices_are_independent showing_one
                    [OpenModal "statusUpdate"; SetLoading true; CloseAllModals])).
    repeat constructor.
  - apply (proj2 (ui_slices_are_independent showing_one
                    [Advance 5000; ClearNotifications])).
    repeat constructor.
Defined.

Lemma modal_actions_witness :
  toggleModal "statusUpdate" (toggleModal "statusUpdate" initial) = initial.
Proof.
  apply (proj1 (proj2 (proj2 (modal_actions initial "statusUpdate")))).
  by eexists.
Defined.

End ModalFacts.

(** ** What the optimistic step writes *)
Module OptimisticFacts.
Import Js QueryClient AppointmentHooks Rollback Optimistic RollbackFacts.

Lemma updateAppointmentStatus_effect (sd : UpdateAppointmentStatusData)
    (now : string) (a b : value) :
  updateAppointmentStatus sd now a = Normal b →
  if strict_eq_string (get_opt a "id") (appointment_id sd) then
    get_opt b "status" = Str (optimistic_status sd) ∧
    get_opt b "updatedAt" = Str now ∧
    ∀ k, k ≠ "status" → k ≠ "updatedAt" → get_opt b k = get_opt a k
  else b = a.
Proof.
  unfold updateAppointmentStatus.
  destruct (nullish a) eqn:Hn; [by destruct a|].
  rewrite (NormalizerFacts.get_defined a) by done. cbn [mbind completion_bind].
  destruct (strict_eq_string _ _) eqn:Hid; [|by intros [= <-]].
  intros [= <-]. split; [|split].
  - cbn. rewrite lookup_insert_ne by done. by rewrite lookup_insert_eq.
  - cbn. by rewrite lookup_insert_eq.
  - intros k Hs Hu. destruct a; try done. cbn.
    by rewrite !lookup_insert_ne.
Qed.

Lemma update_list_written (sd : UpdateAppointmentStatusData) (now : string)
    (k : list key_part) (v : value) (c c' : cache) :
  update_list sd now (k, v) c = (Normal (), c') → is_paginated v = true →
  ∃ mapped,
    Array_map (updateAppointmentStatus sd now) (get_opt v "data") = Normal mapped ∧
    c' !! k = Some (Obj (<["data" := mapped]> (spread v))).
Proof.
  unfold update_list. fold (is_paginated v). intros Hrun Hp. rewrite Hp in Hrun.
  assert (ToBoolean v = true) as Hv.
  { unfold is_paginated in Hp. by destruct (ToBoolean v). }
  unfold mbind, eff_bind, lift, write in Hrun.
  rewrite (NormalizerFacts.get_truthy v) in Hrun by done.
  destruct (Array_map _ _) as [mapped|e]; [|done].
  injection Hrun as <-. exists mapped. split; [done|].
  cbn. by rewrite lookup_insert_eq.
Qed.

Lemma forEach_update_list_written (sd : UpdateAppointmentStatusData) (now : string)
    (l : list (list key_part * value)) (c c' : cache) (k : list key_part)
    (v : value) :
  NoDup l.*1 →
  forEach (update_list sd now) l c = (Normal (), c') →
  (k, v) ∈ l → is_paginated v = true →
  ∃ mapped,
    Array_map (updateAppointmentStatus sd now) (get_opt v "data") = Normal mapped ∧
    c' !! k = Some (Obj (<["data" := mapped]> (spread v))).
Proof.
  revert c. induction l as [|[k0 v0] l IH]; intros c Hnd Hrun Hin Hp;
    [by apply elem_of_nil in Hin|].
  rewrite fmap_cons in Hnd. apply NoDup_cons in Hnd as [Hk0 Hnd].
  rewrite forEach_cons in Hrun.
  destruct (update_list sd now (k0, v0) c) as [[[]|e] c0] eqn:H0; [|done].
  apply elem_of_cons in Hin as [[= -> ->]|Hin]; [|by eapply IH].
  destruct (update_list_written _ _ _ _ _ _ H0 Hp) as (mapped & Hm & Hc0).
  exists mapped. split; [done|]. rewrite <- Hc0.
  eapply forEach_update_list_frame; [done|].
  intros v' Hv'. exfalso. apply Hk0. apply list_elem_of_fmap. by exists (k0, v').
Qed.

(** X23: what the optimistic step writes.  When [onMutate] returns,
    every cached patient or doctor list that is a paginated object holds
    its former self with [data] mapped by the local
    [updateAppointmentStatus], and the detail entry of the appointment,
    when it held a truthy value, holds that value mapped likewise.  The
    mapping leaves an appointment with another [id] as it is, and gives
    the appointment with the [id] of the request the status "COMPLETED"
    when the requested status is "COMPLETE" and "CANCELLED" for any
    other requested status, the reading of the clock as [updatedAt], and
    every other property as it was. *)
Theorem onMutate_marks_the_appointment (sd : UpdateAppointmentStatusData)
    (now : string) (c c1 : cache) (ctx : MutationContext) :
  onMutate sd now c = (Normal ctx, c1) →
  (∀ k v, c !! k = Some v →
     patientKey `prefix_of` k ∨ doctorKey `prefix_of` k →
     is_paginated v = true →
     ∃ mapped,
       Array_map (updateAppointmentStatus sd now) (get_opt v "data") = Normal mapped ∧
       c1 !! k = Some (Obj (<["data" := mapped]> (spread v)))) ∧
  (∀ v, c !! appointmentDetails (appointment_id sd) = Some v → ToBoolean v = true →
     ∃ u, updateAppointmentStatus sd now v = Normal u ∧
          c1 !! appointmentDetails (appointment_id sd) = Some u) ∧
  (∀ a b, updateAppointmentStatus sd now a = Normal b →
     if strict_eq_string (get_opt a "id") (appointment_id sd) then
       get_opt b "status" = Str (optimistic_status sd) ∧
       get_opt b "updatedAt" = Str now ∧
       ∀ k, k ≠ "status" → k ≠ "updatedAt" → get_opt b k = get_opt a k
     else b = a).
Proof.
  rewrite onMutate_eq. intros Hrun.
  destruct (forEach _ (getQueriesData patientKey c) c) as [[[]|e] cP] eqn:HP; [|done].
  destruct (forEach _ (getQueriesData doctorKey c) cP) as [[[]|e] cD] eqn:HD; [|done].
  rewrite (detail_after_lists _ _ _ _ _ _ _ HP HD) in Hrun.
  set (d := appointmentDetails (appointment_id sd)) in *.
  assert (∀ k, k ≠ d → c1 !! k = cD !! k) as Hdetail.
  { intros k Hk.
    destruct (update_detail_spec sd now (getQueryData d c) cD)
      as [[_ Hd]|[_ (u & _ & Hd)]]; rewrite Hd in Hrun; injection Hrun as <- <-;
      [done|]. by rewrite lookup_insert_ne. }
  split; [|split].
  - intros k v Hv Hpre Hp.
    assert (k ≠ d) as Hkd.
    { intros ->. destruct Hpre as [Hpre|Hpre];
        [by apply prefix_patient_detail in Hpre|by apply prefix_doctor_detail in Hpre]. }
    rewrite Hdetail by done. destruct Hpre as [Hpre|Hpre].
    + destruct (forEach_update_list_written sd now _ _ _ k v
                  (NoDup_getQueriesData _ _) HP) as (mapped & Hm & HcP);
        [by apply elem_of_getQueriesData|done|].
      exists mapped. split; [done|]. rewrite <- HcP.
      eapply forEach_update_list_frame; [done|].
      intros v' [_ Hpre']%elem_of_getQueriesData.
      by destruct (prefix_patient_doctor k).
    + by apply (forEach_update_list_written sd now _ _ _ k v
                  (NoDup_getQueriesData _ _) HD); [apply elem_of_getQueriesData|].
  - intros v Hv Htr. unfold getQueryData in Hrun. rewrite Hv in Hrun. cbn in Hrun.
    unfold update_detail in Hrun. rewrite Htr in Hrun.
    destruct (updateAppointmentStatus_truthy sd now v Htr) as (u & Hu & Htu).
    exists u. split; [done|].
    unfold mbind, eff_bind, lift, write in Hrun. rewrite Hu in Hrun.
    injection Hrun as <- <-. fold d.
    destruct u; try done; cbn; by rewrite lookup_insert_eq.
  - apply updateAppointmentStatus_effect.
Qed.

Lemma onMutate_marks_the_appointment_witness :
  ∃ u, updateAppointmentStatus complete_1 Normalized.at_9
         (appointment_1 "PENDING" "2024-01-01") = Normal u ∧
       cache_optimistic !! appointmentDetails (appointment_id complete_1) = Some u.
Proof.
  apply (proj1 (proj2 (onMutate_marks_the_appointment complete_1 Normalized.at_9
                         cache_before cache_optimistic context_of_cache_before
                         eq_refl))).
  - reflexivity.
  - reflexivity.
Defined.
End OptimisticFacts.

(** ** [safeGet] *)
Module PathFacts.
Import Js ResponseTransformers Paths.









Example safeGet_samples :
  safeGet settings "user.name" None = Some (Str "Ann") ∧
  safeGet settings "user.age" (Some (Num 18)) = Some (Num 0) ∧
  safeGet settings "user.photo" (Some (Str "none.png")) = Some Null ∧
  safeGet settings "user.email" None = Some Null ∧
  safeGet settings "user.age.years" (Some (Num 18)) = Some (Num 18) ∧
  safeGet settings "user.name.length" None = Some (Num 3) ∧
  safeGet settings "user.name.1" None = Some (Str "n") ∧
  safeGet settings "user.name.first" (Some (Str "?")) = Some (Str "?") ∧
  safeGet settings "user.name.trim" None = None ∧
  safeGet settings "user.tags.1" None = Some (Str "vip") ∧
  safeGet settings "user.tags.2" None = Some Null ∧
  safeGet settings "user.tags.01" None = Some Null ∧
  safeGet settings "user.tags.length" None = Some (Num 2) ∧
  safeGet settings "account.owner.name"
    (Some (object [("name", Str "nobody")])) = Some (Str "nobody") ∧
  safeGet settings "" None = Some Null ∧
  safeGet Null "user.name" None = Some Null.
Proof. repeat split; reflexivity. Qed.


End PathFacts.

(** ** The cache after an appointment was created *)
Module CreateFacts.
Import Js QueryClient AppointmentHooks Rollback RollbackFacts.

Section WithRuntime.
Context `{Runtime}.

Lemma add_to_list_frame (a : value) (k : list key_part) (v : value) (c : cache)
    (r : completion unit) (c' : cache) :
  add_to_list a (k, v) c = (r, c') →
  (∀ k' : list key_part, k' ≠ k → c' !! k' = c !! k') ∧
  (is_paginated v = false → c' = c).
Proof.
  unfold add_to_list. fold (is_paginated v).
  destruct (is_paginated v).
  - unfold mbind, eff_bind, lift, write.
    destruct (get v "data") as [items|e]; [|by intros [= <- <-]].
    destruct (iterate items) as [listed|e]; [|by intros [= <- <-]].
    destruct (get v "pagination") as [pagination|e]; [|by intros [= <- <-]].
    destruct (get pagination "total") as [total|e]; [|by intros [= <- <-]].
    destruct (plus_one total) as [total'|e]; [|by intros [= <- <-]].
    intros [= <- <-]. split; [|done].
    intros k' Hk. by apply lookup_insert_ne.
  - by intros [= <- <-].
Qed.

Lemma forEach_add_to_list_frame (a : value) (l : list (list key_part * value))
    (c : cache) (r : completion unit) (c' : cache) (k : list key_part) :
  forEach (add_to_list a) l c = (r, c') →
  (∀ v, (k, v) ∈ l → is_paginated v = false) →
  c' !! k = c !! k.
Proof.
  revert c. induction l as [|[k0 v0] l IH]; intros c Hrun Hk.
  { by injection Hrun as <- <-. }
  rewrite forEach_cons in Hrun.
  destruct (add_to_list a (k0, v0) c) as [r0 c0] eqn:H0.
  apply add_to_list_frame in H0 as [Hne Hsame].
  assert (c0 !! k = c !! k) as Hc0.
  { destruct (decide (k = k0)) as [->|Hkk]; [|by apply Hne].
    rewrite Hsame; [done|]. apply Hk, elem_of_cons. by left. }
  destruct r0 as [[]|e].
  - rewrite <- Hc0. apply IH; [done|].
    intros v Hv. apply Hk, elem_of_cons. by right.
  - by injection Hrun as <- <-.
Qed.

Lemma add_to_list_written (a : value) (k : list key_part) (v : value)
    (c c' : cache) :
  add_to_list a (k, v) c = (Normal (), c') → is_paginated v = true →
  ∃ listed total total',
    iterate (get_opt v "data") = Normal listed ∧
    get (get_opt v "pagination") "total" = Normal total ∧
    plus_one total = Normal total' ∧
    c' !! k = Some (Obj
      (<["pagination" := Obj (<["total" := total']>
                               (spread_all (get_opt v "pagination")))]>
      (<["data" := Arr (a :: listed)]> (spread v)))).
Proof.
  unfold add_to_list. fold (is_paginated v). intros Hrun Hp. rewrite Hp in Hrun.
  assert (ToBoolean v = true) as Hv.
  { unfold is_paginated in Hp. by destruct (ToBoolean v). }
  unfold mbind, eff_bind, lift, write in Hrun.
  rewrite !(NormalizerFacts.get_truthy v) in Hrun by done.
  destruct (iterate _) as [listed|e]; [|done].
  destruct (get (get_opt v "pagination") "total") as [total|e]; [|done].
  destruct (plus_one total) as [total'|e] eqn:Hplus; [|done].
  injection Hrun as <-. exists listed, total, total'.
  split; [done|]. split; [done|]. split; [done|].
  cbn. by rewrite lookup_insert_eq.
Qed.

Lemma forEach_add_to_list_written (a : value) (l : list (list key_part * value))
    (c c' : cache) (k : list key_part) (v : value) :
  NoDup l.*1 →
  forEach (add_to_list a) l c = (Normal (), c') →
  (k, v) ∈ l → is_paginated v = true →
  ∃ listed total total',
    iterate (get_opt v "data") = Normal listed ∧
    get (get_opt v "pagination") "total" = Normal total ∧
    plus_one total = Normal total' ∧
    c' !! k = Some (Obj
      (<["pagination" := Obj (<["total" := total']>
                               (spread_all (get_opt v "pagination")))]>
      (<["data" := Arr (a :: listed)]> (spread v)))).
Proof.
  revert c. induction l as [|[k0 v0] l IH]; intros c Hnd Hrun Hin Hp;
    [by apply elem_of_nil in Hin|].
  rewrite fmap_cons in Hnd. apply NoDup_cons in Hnd as [Hk0 Hnd].
  rewrite forEach_cons in Hrun.
  destruct (add_to_list a (k0, v0) c) as [[[]|e] c0] eqn:H0; [|done].
  apply elem_of_cons in Hin as [[= -> ->]|Hin]; [|by eapply IH].
  destruct (add_to_list_written _ _ _ _ _ H0 Hp)
    as (listed & total & total' & Hl & Ht & Ht' & Hc0).
  exists listed, total, total'. split; [done|]. split; [done|]. split; [done|].
  rewrite <- Hc0.
  eapply forEach_add_to_list_frame; [done|].
  intros v' Hv'. exfalso. apply Hk0. apply list_elem_of_fmap. by exists (k0, v').
Qed.

(** X25: what [onSuccess] of [useCreateAppointment] writes.  It changes
    no cache entry outside the patient appointment lists (the doctor
    lists and the detail entries are left as they are) and no entry that
    is not a paginated object.  When it returns, every cached patient
    list that is a paginated object holds its former self with the new
    appointment in front of the items of [data] and with [total + 1] as
    the [total] of its pagination, an addition that did not throw; the
    other properties of the pagination ([page], [limit], [totalPages])
    are copied as they are. *)
Theorem createAppointment_is_listed_first (newAppointment : value) (c c' : cache)
    (r : completion unit) :
  createAppointment_onSuccess newAppointment c = (r, c') →
  (∀ k, ¬ patientKey `prefix_of` k → c' !! k = c !! k) ∧
  (∀ k v, c !! k = Some v → is_paginated v = false → c' !! k = c !! k) ∧
  (r = Normal () →
   ∀ k v, c !! k = Some v → patientKey `prefix_of` k → is_paginated v = true →
     ∃ listed total total',
       iterate (get_opt v "data") = Normal listed ∧
       get (get_opt v "pagination") "total" = Normal total ∧
       plus_one total = Normal total' ∧
       c' !! k = Some (Obj
         (<["pagination" := Obj (<["total" := total']>
                                  (spread_all (get_opt v "pagination")))]>
         (<["data" := Arr (newAppointment :: listed)]> (spread v))))).
Proof.
  unfold createAppointment_onSuccess, mbind, eff_bind, read_all.
  fold patientKey. intros Hrun. split; [|split].
  - intros k Hk. eapply forEach_add_to_list_frame; [done|].
    by intros v [_ ?]%elem_of_getQueriesData.
  - intros k v Hv Hp. eapply forEach_add_to_list_frame; [done|].
    intros v' [Hv' _]%elem_of_getQueriesData. congruence.
  - intros -> k v Hv Hpre Hp.
    eapply forEach_add_to_list_written;
      [apply NoDup_getQueriesData|done|by apply elem_of_getQueriesData|done].
Qed.

End WithRuntime.

Import RefRuntime.

(** The sample cache: the patient list gets the appointment in front
    and counts 3; the doctor list and the detail entry are as before. *)
Example createAppointment_cache_before :
  createAppointment_onSuccess appointment_2 cache_before =
  (Normal (),
   <[patient_page_1 :=
       object [("data", Arr [appointment_2; appointment_1 "PENDING" "2024-01-01";
                             appointment_2]);
               ("pagination", object [("page", Num 1); ("limit", Num 10);
                                      ("total", Num 3); ("totalPages", Num 1)])]]>
     cache_before).
Proof. reflexivity. Qed.

Lemma createAppointment_is_listed_first_witness :
  (createAppointment_onSuccess appointment_2 cache_before).2 !! doctor_page_1
  = cache_before !! doctor_page_1.
Proof.
  apply (proj1 (createAppointment_is_listed_first appointment_2 cache_before
                  (createAppointment_onSuccess appointment_2 cache_before).2
                  (createAppointment_onSuccess appointment_2 cache_before).1
                  (surjective_pairing _))).
  intros [k Hk]. discriminate Hk.
Defined.

End CreateFacts.

(** ** The authentication hooks *)
Module HookFacts.
Import Js QueryClient AuthService AuthHooks HookSession.

Lemma parsed_user_truthy (u : User) : ToBoolean (parsed_user u) = true.
Proof. done. Qed.

Lemma removeQueries_lookup (prefix k : list key_part) (c : cache) :
  removeQueries prefix c !! k = if decide (prefix `prefix_of` k) then None else c !! k.
Proof.
  unfold removeQueries. destruct (decide _) as [Hp|Hp].
  - apply map_lookup_filter_None. right. intros v _ Hn. by apply Hn.
  - destruct (c !! k) as [v|] eqn:Hv.
    + by apply map_lookup_filter_Some.
    + apply map_lookup_filter_None. by left.
Qed.

Lemma currentUser_removed (c : cache) :
  getQueryData currentUser (removeQueries auth c) = Undefined.
Proof.
  unfold getQueryData. rewrite removeQueries_lookup.
  destruct (decide _) as [|Hn]; [done|]. exfalso. apply Hn.
  by exists [KString "current-user"].
Qed.

(** X26: the session of the authentication hooks.  After [onSuccess] of
    a login or a registration, [useCurrentUser] returns the user the
    service resolved with and leaves the client as it is, and
    [useIsAuthenticated] is true exactly when the token is not empty.
    After [onError] of [useLogin], [useCurrentUser] returns [null] and
    [useIsAuthenticated] is false, whoever was signed in before; the
    cached queries outside ['auth'] are kept.  After [useLogout] both
    hold too, and the query cache is empty. *)
Theorem hooks_sign_in_and_out (user : User) (token : string) (cl : Client) :
  useCurrentUser (signed_in_onSuccess user token cl)
    = (user_object user, signed_in_onSuccess user token cl) ∧
  (useIsAuthenticated (signed_in_onSuccess user token cl)).1
    = negb (bool_decide (token = "")) ∧
  (useCurrentUser (useLogin_onError cl)).1 = Null ∧
  (useIsAuthenticated (useLogin_onError cl)).1 = false ∧
  (∀ k, ¬ auth `prefix_of` k →
        cache_of (useLogin_onError cl) !! k = cache_of cl !! k) ∧
  (useCurrentUser (useLogout cl)).1 = Null ∧
  (useIsAuthenticated (useLogout cl)).1 = false ∧
  cache_of (useLogout cl) = ∅.
Proof.
  assert (useCurrentUser (signed_in_onSuccess user token cl)
          = (user_object user, signed_in_onSuccess user token cl)) as Hin.
  { unfold useCurrentUser, signed_in_onSuccess, getQueryData. cbn.
    by rewrite lookup_insert_eq. }
  assert (useCurrentUser (useLogin_onError cl) = (Null, useLogin_onError cl)) as Herr.
  { unfold useCurrentUser, useLogin_onError. cbn [cache_of storage_of].
    by rewrite currentUser_removed. }
  assert (useCurrentUser (useLogout cl) = (Null, useLogout cl)) as Hout.
  { unfold useCurrentUser, useLogout. cbn [cache_of storage_of].
    by rewrite currentUser_removed. }
  split; [exact Hin|].
  split; [unfold useIsAuthenticated; by rewrite Hin|].
  split; [by rewrite Herr|].
  split; [unfold useIsAuthenticated; by rewrite Herr|].
  split.
  { intros k Hk. cbn. rewrite removeQueries_lookup. by destruct (decide _). }
  split; [by rewrite Hout|].
  split; [unfold useIsAuthenticated; by rewrite Hout|].
  cbn. unfold removeQueries, clear. apply map_filter_empty.
Qed.

(** X27: [useCurrentUser] is idempotent and never writes
    [localStorage]: called again on the client it left, it returns the
    same user and leaves the same client.  When the cache holds no user,
    it returns the user parsed from [localStorage] and caches it; and
    then [useIsAuthenticated] agrees with the session store: it is true
    exactly when [initialize] would leave the store authenticated. *)
Theorem useCurrentUser_rehydrates (cl : Client) :
  useCurrentUser (useCurrentUser cl).2 = useCurrentUser cl ∧
  storage_of (useCurrentUser cl).2 = storage_of cl ∧
  (ToBoolean (getQueryData currentUser (cache_of cl)) = false →
   (∀ u, getUser (storage_of cl) = Some u →
      (useCurrentUser cl).1 = parsed_user u ∧
      getQueryData currentUser (cache_of (useCurrentUser cl).2) = parsed_user u) ∧
   ∀ s, (useIsAuthenticated cl).1 =
        AuthStore.isAuthenticated
          (AuthStore.store
             (AuthStore.initialize
                {| AuthStore.store := s; AuthStore.storage := storage_of cl |}))).
Proof.
  unfold useIsAuthenticated, useCurrentUser.
  destruct (ToBoolean (getQueryData currentUser (cache_of cl))) eqn:Hc.
  { cbn. rewrite Hc. done. }
  destruct (getUser (storage_of cl)) as [u|] eqn:Hu.
  - assert (getQueryData currentUser
              (setQueryData currentUser (parsed_user u) (cache_of cl))
            = parsed_user u) as Hw.
    { unfold getQueryData. by rewrite RollbackFacts.setQueryData_lookup_eq. }
    cbn [fst snd cache_of storage_of]. rewrite Hw, parsed_user_truthy.
    split; [done|]. split; [done|]. intros _. split.
    + by intros ? [= <-].
    + intros s. unfold AuthStore.initialize, AuthStore.token_and_user. cbn.
      rewrite Hu.
      destruct (getToken (storage_of cl)) as [t|]; [|done].
      by case_bool_decide.
  - cbn [fst snd cache_of storage_of]. rewrite Hc, Hu.
    split; [done|]. split; [done|]. intros _. split; [done|].
    intros s. unfold AuthStore.initialize, AuthStore.token_and_user. cbn.
    rewrite Hu. by destruct (getToken (storage_of cl)).
Qed.

(** *** Witnesses *)

Lemma hooks_sign_in_and_out_witness :
  cache_of (useLogin_onError busy) !! [KString "doctors"; KString "list"]
  = cache_of busy !! [KString "doctors"; KString "list"].
Proof.
  apply (proj1 (proj2 (proj2 (proj2 (proj2
           (hooks_sign_in_and_out Session.john "tok" busy)))))).
  intros [k Hk]. discriminate Hk.
Defined.

Lemma useCurrentUser_rehydrates_witness :
  (useCurrentUser (loaded Transport.signed_in_storage)).1 = parsed_user Session.john ∧
  getQueryData currentUser
    (cache_of (useCurrentUser (loaded Transport.signed_in_storage)).2)
  = parsed_user Session.john.
Proof.
  apply (proj1 (proj2 (proj2 (useCurrentUser_rehydrates
                                (loaded Transport.signed_in_storage)))
                  eq_refl)).
  reflexivity.
Defined.

End HookFacts.

(** ** The pages of the doctors and the cache utilities *)
Module PagingFacts.
Import Js ResponseTransformers Services DoctorHooks Normalized NormalizerFacts Replies.

Section WithRuntime.
Context `{Runtime}.

Lemma getDoctors_Normal (response page : value) :
  getDoctors response = Normal page →
  ∃ data ys,
    get response "data" = Normal data ∧ nullish data = false ∧
    page = paginated_literal ys (effective_pagination data).
Proof.
  unfold getDoctors. destruct (get response "data") as [data|e]; [|done].
  cbn [mbind completion_bind].
  intros (Hn & _ & ys & _ & ->)%transformPaginatedResponse_returned.
  by exists data, ys.
Qed.

Lemma getNextPageParam_numbers (page totalPages : float) :
  (more ← less_than (Num page) (Num totalPages);
   if more : bool then plus_one (Num page) else mret Undefined) =
  Normal (if PrimFloat.ltb page totalPages then Num (page + 1) else Undefined).
Proof.
  change (less_than (Num page) (Num totalPages))
    with (Normal (PrimFloat.ltb page totalPages)).
  cbn [mbind completion_bind]. by destruct (PrimFloat.ltb page totalPages).
Qed.

Lemma getPreviousPageParam_numbers (page : float) :
  (less ← less_than (Num 1) (Num page);
   if less : bool then n ← ToNumber (Num page); mret (Num (n - 1))
   else mret Undefined) =
  Normal (if PrimFloat.ltb 1 page then Num (page - 1) else Undefined).
Proof.
  change (less_than (Num 1) (Num page)) with (Normal (PrimFloat.ltb 1 page)).
  cbn [mbind completion_bind]. by destruct (PrimFloat.ltb 1 page).
Qed.

(** X28: the page parameters of [useDoctorsInfinite].  On every page
    [getDoctors] returns, [page] and [totalPages] are numbers, and
    neither function throws: [getNextPageParam] gives [page + 1] when
    [page < totalPages] and [undefined] otherwise (also when either is
    NaN), [getPreviousPageParam] gives [page - 1] when [page > 1] and
    [undefined] otherwise.  When the reply has no pagination block,
    there is neither a next nor a previous page. *)
Theorem doctors_paging (response lastPage : value) :
  getDoctors response = Normal lastPage →
  ∃ page totalPages,
    get_opt (get_opt lastPage "pagination") "page" = Num page ∧
    get_opt (get_opt lastPage "pagination") "totalPages" = Num totalPages ∧
    getNextPageParam lastPage =
      Normal (if PrimFloat.ltb page totalPages then Num (page + 1) else Undefined) ∧
    getPreviousPageParam lastPage =
      Normal (if PrimFloat.ltb 1 page then Num (page - 1) else Undefined) ∧
    (get_opt (get_opt response "data") "pagination" = Undefined →
     getNextPageParam lastPage = Normal Undefined ∧
     getPreviousPageParam lastPage = Normal Undefined).
Proof.
  intros (data & ys & Hdata & Hn & ->)%getDoctors_Normal.
  destruct (pagination_literal_fields (effective_pagination data))
    as (Hpage & _ & _ & Htp).
  eexists _, _.
  change (get_opt (paginated_literal ys ?p) "pagination")
    with (pagination_literal p).
  split; [exact Hpage|]. split; [exact Htp|].
  unfold getNextPageParam, getPreviousPageParam.
  change (get (paginated_literal ys ?p) "pagination")
    with (Normal (pagination_literal p)).
  cbn [mbind completion_bind].
  change (get (pagination_literal ?p) ?k)
    with (Normal (get_opt (pagination_literal p) k)).
  cbn [mbind completion_bind]. rewrite Hpage, Htp.
  rewrite getNextPageParam_numbers, getPreviousPageParam_numbers.
  split; [done|]. split; [done|].
  assert (get_opt response "data" = data) as ->.
  { destruct response; cbn in Hdata |- *; try discriminate Hdata;
      by injection Hdata. }
  intros Hp. unfold effective_pagination. rewrite Hp. split; reflexivity.
Qed.

End WithRuntime.

Import RefRuntime.

Example paging_samples :
  getNextPageParam normalized_page = Normal (Num 2) ∧
  getPreviousPageParam normalized_page = Normal Undefined ∧
  getNextPageParam (object [("pagination", object [("page", Num 3);
                                                   ("totalPages", Num 3)])])
    = Normal Undefined ∧
  getPreviousPageParam (object [("pagination", object [("page", Num 3);
                                                       ("totalPages", Num 3)])])
    = Normal (Num 2).
Proof. repeat split; reflexivity. Qed.

Lemma doctors_paging_witness :
  ∃ lastPage, getDoctors doctors_reply = Normal lastPage ∧
    getNextPageParam lastPage = Normal Undefined ∧
    getPreviousPageParam lastPage = Normal Undefined.
Proof.
  eexists. split; [reflexivity|].
  destruct (doctors_paging doctors_reply _ eq_refl)
    as (page & totalPages & _ & _ & _ & _ & Hnone).
  apply Hnone. reflexivity.
Defined.

End PagingFacts.

Module CacheFacts.
Import Js QueryClient AppointmentHooks CacheUtils Rollback RollbackFacts.

Lemma detail_prefix_list (i : string) (k : list key_part) :
  appointmentDetails i `prefix_of` k →
  ¬ patientKey `prefix_of` k ∧ ¬ doctorKey `prefix_of` k.
Proof. intros [k1 ->]. split; intros [k2 Hk]; discriminate Hk. Qed.

(** X29: the cache utilities touch the detail entry only.
    [removeAppointment] leaves no data under the detail key of the
    appointment and keeps every other entry, the patient and doctor
    lists included (which may still list the appointment);
    [updateAppointmentInCache] changes no entry but the detail entry of
    the appointment, writes there what the updater returns, and writes
    nothing when the updater returns [undefined]. *)
Theorem cacheUtils_touch_the_detail_entry (i : string) (c : cache) :
  getQueryData (appointmentDetails i) (removeAppointment i c) = Undefined ∧
  (∀ k, ¬ appointmentDetails i `prefix_of` k → removeAppointment i c !! k = c !! k) ∧
  (∀ k, patientKey `prefix_of` k ∨ doctorKey `prefix_of` k →
        removeAppointment i c !! k = c !! k) ∧
  (∀ updater r c', updateAppointmentInCache i updater c = (r, c') →
     (∀ k, k ≠ appointmentDetails i → c' !! k = c !! k) ∧
     (∀ data, updater (getQueryData (appointmentDetails i) c) = Normal data →
        r = Normal () ∧ c' = setQueryData (appointmentDetails i) data c) ∧
     (updater (getQueryData (appointmentDetails i) c) = Normal Undefined → c' = c)).
Proof.
  unfold removeAppointment. fold (appointmentDetails i).
  split; [|split; [|split]].
  - unfold getQueryData. rewrite HookFacts.removeQueries_lookup.
    by destruct (decide _) as [|[]].
  - intros k Hk. rewrite HookFacts.removeQueries_lookup. by destruct (decide _).
  - intros k Hk. rewrite HookFacts.removeQueries_lookup.
    destruct (decide _) as [Hd%detail_prefix_list|]; [|done]. tauto.
  - intros updater r c'. unfold updateAppointmentInCache, mbind, eff_bind, read, lift, write.
    fold (appointmentDetails i).
    destruct (updater _) as [data|e]; intros [= <- <-].
    + split; [|split].
      * intros k Hk. by apply setQueryData_lookup_ne.
      * by intros ? [= <-].
      * by intros [= ->].
    + by split; [|split].
Qed.

Lemma cacheUtils_touch_the_detail_entry_witness :
  removeAppointment "1" cache_before !! patient_page_1 = cache_before !! patient_page_1.
Proof.
  apply (proj1 (proj2 (proj2 (cacheUtils_touch_the_detail_entry "1" cache_before)))).
  left. by exists [KObject "{page:1}"].
Defined.

End CacheFacts.

